(** * Times Table Turbo: the mastery-tracking and question-generation core

    A shallow embedding of the game logic of [src/script.js]: the score of one
    attempt ([computeScore]), the persisted per-fact statistics ([loadStats],
    [saveStats], [statKey], [updateStats]) and the question-set builder
    ([shuffle], [generateQuestions]).

    Numbers that carry fractions (times, scores, confidences, attempt counts
    held in the stats records) are IEEE 754 binary64 values, as every
    JavaScript number is: they are modelled by the Standard Library's
    [spec_float] with precision 53 and maximal exponent 1024, and the
    arithmetic operators are its correctly rounded operations.  Numbers that
    only ever hold small integers (operands, products, array indices, loop
    counters) are modelled by [Z] and [nat], on which binary64 arithmetic is
    exact. *)

From Stdlib Require Import ZArith QArith Qpower Lia Lqa SpecFloat Ascii String.
From stdpp Require Import gmap strings list fin_maps pretty.

#[local] Set Warnings "-register-all".

(** * JavaScript numbers *)

Module Num.

Definition prec : Z := 53.
Definition emax : Z := 1024.

(** A JavaScript number.  Only the values accepted by [is_number] are
    binary64 numbers; [spec_float] also has unnormalised finite values. *)
Definition number : Type := spec_float.

Definition is_number (x : number) : bool := valid_binary prec emax x.

Definition add : number -> number -> number := SFadd prec emax.
Definition sub : number -> number -> number := SFsub prec emax.
Definition mul : number -> number -> number := SFmul prec emax.
Definition div : number -> number -> number := SFdiv prec emax.

(** [x <= y], [x >= y] and [x < y] of JavaScript: false as soon as one side
    is NaN. *)
Definition le (x y : number) : bool := SFleb x y.
Definition ge (x y : number) : bool := SFleb y x.
Definition lt (x y : number) : bool := SFltb x y.

(** An integer literal. *)
Definition int (z : Z) : number := binary_normalize prec emax z 0 false.

(** A decimal literal [n/10^k] written with finitely many digits: the
    binary64 number nearest to it, which is what correctly rounded division
    of the two exactly representable integers yields. *)
Definition dec (n d : Z) : number := div (int n) (int d).

Definition NaN : number := S754_nan.

Definition is_nan (x : number) : bool :=
  match x with S754_nan => true | _ => false end.

End Num.

Import Num.

Declare Scope js_scope.
Delimit Scope js_scope with js.
Bind Scope js_scope with number.
Infix "+" := add : js_scope.
Infix "-" := sub : js_scope.
Infix "*" := mul : js_scope.
Infix "/" := div : js_scope.
Infix "<=?" := le : js_scope.
Infix ">=?" := ge (at level 70) : js_scope.
Infix "<?" := lt : js_scope.

(** * Constants *)

Definition TOTAL_QUESTIONS : nat := 15.
Definition EMA_ALPHA : number := dec 3 10.

(** * Score of one attempt *)

Definition computeScore (correct : bool) (timeSec : number) : number :=
  let accScore := if correct then int 100 else int 0 in
  let speedScore :=
    if (timeSec <=? int 2)%js then int 100
    else if (timeSec >=? int 8)%js then int 0
    else (int 100 - ((timeSec - int 2) / int 6) * int 100)%js in
  (accScore * dec 7 10 + speedScore * dec 3 10)%js.

(** * Persisted statistics *)

(** ** JSON values

    What [JSON.parse] can return.  The program reads the properties of an
    object by their names only and never enumerates them, so an object is a
    finite map and the order of its properties is not represented. *)
Inductive json :=
  | JNull
  | JBool (b : bool)
  | JNum (x : number)
  | JStr (s : string)
  | JArr (items : list json)
  | JObj (props : gmap string json).

(** What a property of a record holds: a number, or [null], which is what a
    number that is not finite becomes once it has been through the store. *)
Inductive field :=
  | Null
  | Num (x : number).

(** [ToNumber], as the arithmetic and the comparisons of the program apply it
    to a property: [null] counts as [+0]. *)
Definition ToNumber (f : field) : number :=
  match f with
  | Null => S754_zero false
  | Num x => x
  end.

(** A record of the stats table, [{ confidence, attempts }]. *)
Record FactRecord := { confidence : field; attempts : field }.

(** The stats table: a mapping from fact keys to records. *)
Abbreviation StatsTable := (gmap string FactRecord).

Definition of_field (f : field) : json :=
  match f with
  | Null => JNull
  | Num x => JNum x
  end.

Definition of_record (r : FactRecord) : json :=
  JObj (<["confidence" := of_field (confidence r)]>
        (<["attempts" := of_field (attempts r)]> ∅)).

Definition of_table (t : StatsTable) : json := JObj (of_record <$> t).

(** The typed view of a JSON value as a stats table: defined on the objects
    all of whose properties hold an object with exactly the two properties
    [confidence] and [attempts], each a number or [null]. *)
Definition as_field (v : json) : option field :=
  match v with
  | JNull => Some Null
  | JNum x => Some (Num x)
  | _ => None
  end.

Definition as_record (v : json) : option FactRecord :=
  match v with
  | JObj f =>
      match f !! "confidence" ≫= as_field, f !! "attempts" ≫= as_field with
      | Some c, Some n =>
          if decide (size f = 2) then Some {| confidence := c; attempts := n |}
          else None
      | _, _ => None
      end
  | _ => None
  end.

Definition as_table (v : json) : option StatsTable :=
  match v with
  | JObj m =>
      if decide (map_Forall (λ _ x, is_Some (as_record x)) m)
      then Some (omap as_record m) else None
  | _ => None
  end.

(** ** The key-value store of the browser

    A stored string is observed by the program only through its truthiness and
    through [JSON.parse]: it is either the empty string, a string that
    [JSON.parse] rejects, or a string that [JSON.parse] accepts, which stands
    here as the value [JSON.parse] returns for it.  Two strings that parse to
    the same value (the same properties written in another order, say) are
    not told apart.  The calls [getItem] and [setItem] themselves do not
    fail. *)
Inductive text :=
  | EmptyText
  | Garbled
  | Encoded (v : json).

Abbreviation localStorage := (gmap string text).

Definition getItem (k : string) (ls : localStorage) : option text := ls !! k.
Definition setItem (k : string) (raw : text) (ls : localStorage) : localStorage :=
  <[k := raw]> ls.

(** [None] stands for the [SyntaxError] that [JSON.parse] throws. *)
Definition JSON_parse (raw : text) : option json :=
  match raw with
  | Encoded v => Some v
  | EmptyText | Garbled => None
  end.

(** [JSON.stringify] writes NaN and the two infinities as [null], and both
    zeros as [0]; every other number is written with digits that
    [JSON.parse] reads back as the same number. *)
Definition written_number (x : number) : field :=
  match x with
  | S754_nan | S754_infinity _ => Null
  | S754_zero _ => Num (S754_zero false)
  | S754_finite _ _ _ => Num x
  end.

(** The value of the string that [JSON.stringify] writes for [v]. *)
Fixpoint written (v : json) : json :=
  match v with
  | JNum x => of_field (written_number x)
  | JArr items => JArr (written <$> items)
  | JObj props => JObj (written <$> props)
  | JNull | JBool _ | JStr _ => v
  end.

Definition JSON_stringify (v : json) : text := Encoded (written v).

Definition truthy (raw : text) : bool :=
  match raw with EmptyText => false | _ => true end.

Definition STORAGE_KEY : string := "timesTableTurboStats".

(** [loadStats]: the [try] block either returns a value, falls through, or
    throws; the last two cases end in [return {}]. *)
Inductive completion (A : Type) :=
  | Return (v : A)
  | FallThrough
  | Throw.
Arguments Return {A} v.
Arguments FallThrough {A}.
Arguments Throw {A}.

Definition loadStats (ls : localStorage) : json :=
  let try :=
    match getItem STORAGE_KEY ls with
    | Some raw =>
        if truthy raw then
          match JSON_parse raw with
          | Some v => Return v
          | None => Throw
          end
        else FallThrough
    | None => FallThrough
    end in
  match try with
  | Return v => v
  | FallThrough | Throw => JObj ∅
  end.

Definition saveStats (stats : json) (ls : localStorage) : localStorage :=
  setItem STORAGE_KEY (JSON_stringify stats) ls.

(** [`${a}_${b}`] on integer operands, written with all their digits, as the
    template writes an integer below [10^21]; the operands of the program are
    in 1..12. *)
Definition statKey (a b : Z) : string := pretty a +:+ "_" +:+ pretty b.

(** [updateStats] on a store whose entry is a stats table.  [None]: the loaded
    value is not a stats table, a case the model leaves out.  A key built by
    [statKey] never names an inherited property, so [stats[key]] is truthy
    exactly when the table has a record under the key.  The arithmetic reads
    a property through [ToNumber]. *)
Definition updateStats (a b : Z) (correct : bool) (timeSec : number)
    (ls : localStorage) : option localStorage :=
  stats ← as_table (loadStats ls);
  let key := statKey a b in
  let newScore := computeScore correct timeSec in
  let stats' :=
    match stats !! key with
    | Some r =>
        let confidence' :=
          (ToNumber (confidence r) * (int 1 - EMA_ALPHA) + newScore * EMA_ALPHA)%js in
        let attempts' := (ToNumber (attempts r) + int 1)%js in
        <[key := {| confidence := Num confidence';
                    attempts := Num attempts' |}]> stats
    | None =>
        <[key := {| confidence := Num newScore; attempts := Num (int 1) |}]> stats
    end in
  Some (saveStats (of_table stats') ls).

(** * Question generation *)

(** ** The random source

    [Math.random()] is an oracle for numbers [u] with [0 <= u < 1].  The state
    of the oracle is the stream of the numbers still to come; a draw [k]
    stands for [u = (k mod 2^53) / 2^53].  The program observes [u] only
    through [Math.floor(u * n)] for a positive integer [n] and through
    [u < 0.5]. *)
Definition draw : Type := N.
Definition rng : Type := nat → draw.

Definition random (g : rng) : draw * rng := (g 0%nat, λ i, g (S i)).

Definition unit_bits : N := 2 ^ 53.

(** [Math.floor(u * n)], of the exact product.  The program rounds the
    product to binary64 first, which can give another index for a single
    draw; the indices that can be drawn are [0 .. n - 1] either way. *)
Definition floor_mul (u : draw) (n : nat) : nat :=
  N.to_nat ((u mod unit_bits) * N.of_nat n / unit_bits).

(** [u < 0.5] *)
Definition below_half (u : draw) : bool :=
  (u mod unit_bits <? unit_bits / 2)%N.

(** ** Fisher-Yates shuffle *)

(** [[arr[i], arr[j]] = [arr[j], arr[i]]], for indices inside the array (the
    only ones the shuffle produces). *)
Definition swap {A} (i j : nat) (arr : list A) : list A :=
  match arr !! i, arr !! j with
  | Some x, Some y => <[j := x]> (<[i := y]> arr)
  | _, _ => arr
  end.

(** The loop [for (i = ...; i > 0; i--)], entered with counter [i]. *)
Fixpoint shuffle_from {A} (i : nat) (arr : list A) (g : rng) : list A * rng :=
  match i with
  | O => (arr, g)
  | S i' =>
      let '(u, g') := random g in
      let j := floor_mul u (i + 1) in
      shuffle_from i' (swap i j arr) g'
  end.

Definition shuffle {A} (arr : list A) (g : rng) : list A * rng :=
  shuffle_from (length arr - 1) arr g.

(** ** Questions *)

(** [{ a, b }]: the operands of a fact, before the display swap. *)
Module Fact.
Record t := { a : Z; b : Z }.
End Fact.

(** [{ a, b, answer }]: a question as displayed. *)
Module Question.
Record t := { a : Z; b : Z; answer : Z }.
End Question.

(** [parseInt(s, 10)] on a string of ASCII characters: leading white space, an
    optional sign, then the longest run of decimal digits.  [None] is NaN.
    The value is the integer that the digits denote, which is the number
    returned below [2^53]; the program applies it to the buffer of at most
    [MAX_DIGITS] digits and to the names of the table buttons. *)
Definition is_space (c : ascii) : bool :=
  let n := nat_of_ascii c in
  (n =? 32)%nat || ((9 <=? n)%nat && (n <=? 13)%nat).

Fixpoint skip_spaces (s : string) : string :=
  match s with
  | String c s' => if is_space c then skip_spaces s' else s
  | EmptyString => s
  end.

Definition digit_of (c : ascii) : option Z :=
  let n := nat_of_ascii c in
  if (48 <=? n)%nat && (n <=? 57)%nat then Some (Z.of_nat n - 48)%Z else None.

Fixpoint digits (acc : option Z) (s : string) : option Z :=
  match s with
  | String c s' =>
      match digit_of c with
      | Some d => digits (Some (10 * default 0 acc + d)%Z) s'
      | None => acc
      end
  | EmptyString => acc
  end.

Definition parseInt (s : string) : option Z :=
  match skip_spaces s with
  | String "-" s' => Z.opp <$> digits None s'
  | String "+" s' => digits None s'
  | s' => digits None s'
  end.

(** The loop [while (qs.length < TOTAL_QUESTIONS)] of the mixed mode; [None]
    when the fuel runs out before the loop ends. *)
Fixpoint fill_mixed (fuel : nat) (qs : list Fact.t) (g : rng)
    : option (list Fact.t * rng) :=
  if (length qs <? TOTAL_QUESTIONS)%nat then
    match fuel with
    | O => None
    | S fuel' =>
        let '(u1, g1) := random g in
        let a := (Z.of_nat (floor_mul u1 12) + 1)%Z in
        let '(u2, g2) := random g1 in
        let b := (Z.of_nat (floor_mul u2 12) + 1)%Z in
        fill_mixed fuel' (qs ++ [{| Fact.a := a; Fact.b := b |}]) g2
    end
  else Some (qs, g).

(** The final [qs.map(...)]: one draw per question, first to last.  The
    objects of [pool] pushed more than once are only read, never written, so
    sharing them is not observable. *)
Definition present (q : Fact.t) (u : draw) : Question.t :=
  if below_half u then
    {| Question.a := Fact.b q; Question.b := Fact.a q;
       Question.answer := Fact.a q * Fact.b q |}
  else
    {| Question.a := Fact.a q; Question.b := Fact.b q;
       Question.answer := Fact.a q * Fact.b q |}.

Fixpoint present_all (qs : list Fact.t) (g : rng) : list Question.t * rng :=
  match qs with
  | [] => ([], g)
  | q :: rest =>
      let '(u, g') := random g in
      let '(shown, g'') := present_all rest g' in
      (present q u :: shown, g'')
  end.

(** [generateQuestions].  [None]: [parseInt] yields NaN, a case the model
    leaves out, or a step fails (the loop runs out of fuel, or a read of
    [pool] misses); the latter never happens. *)
Definition generateQuestions (table : string) (g : rng)
    : option (list Question.t * rng) :=
  '(qs, g') ←
    (if decide (table = "mixed") then fill_mixed TOTAL_QUESTIONS [] g
     else
       n ← parseInt table;
       let pool := (λ i, {| Fact.a := n; Fact.b := i |}) <$> seqZ 1 12 in
       let '(pool, g1) := shuffle pool g in
       qs ← mapM (λ i, pool !! (i mod length pool)%nat) (seq 0 TOTAL_QUESTIONS);
       Some (shuffle qs g1));
  Some (present_all qs g').

(** * The rest of the script: statistics grid, input and game flow *)

Definition MAX_DIGITS : nat := 3.

(** ** More of JavaScript numbers *)

(** [x > y] *)
Definition gt (x y : number) : bool := SFltb y x.
Infix ">?" := gt (at level 70) : js_scope.

(** [Math.round(x)]: the integer nearest to [x], a tie going up; a result
    that is zero has the sign of [x].  A number with a fraction is below
    [2^52], so that the integer [floor(x + 1/2)], computed exactly, is a
    number. *)
Definition Math_round (x : number) : number :=
  match x with
  | S754_finite s m e =>
      if (0 <=? e)%Z then x
      else
        let n := ((2 * cond_Zopp s (Zpos m) + 2 ^ (- e)) / 2 ^ (1 - e))%Z in
        if (n =? 0)%Z then S754_zero s else int n
  | _ => x
  end.

(** The integer a number holds, when it holds one. *)
Definition to_Z (x : number) : option Z :=
  match x with
  | S754_zero _ => Some 0%Z
  | S754_finite s m e =>
      if (0 <=? e)%Z then Some (cond_Zopp s (Zpos m * 2 ^ e))
      else if (Zpos m mod 2 ^ (- e) =? 0)%Z
           then Some (cond_Zopp s (Zpos m / 2 ^ (- e)))
           else None
  | _ => None
  end.

(** [`${x}`] for a number: NaN, the infinities, and the integers below [2^53]
    in absolute value, which are written with all their decimal digits.
    [None]: another number, whose text the model leaves out. *)
Definition ToString (x : number) : option string :=
  match x with
  | S754_nan => Some "NaN"
  | S754_infinity s => Some (if s then "-Infinity" else "Infinity")
  | _ =>
      n ← to_Z x;
      if (Z.abs n <? 2 ^ 53)%Z then Some (pretty n) else None
  end.

(** [`${x}`] for a property of a record. *)
Definition ToString_field (f : field) : option string :=
  match f with
  | Null => Some "null"
  | Num x => ToString x
  end.

(** ** The page

    The elements the script holds, named by their [id].  An element is
    observed through its text, set by [textContent] or by [innerHTML], and
    through its list of classes, of which only membership matters. *)
Inductive content :=
  | Text (s : string)
  | Html (s : string).

Record document := {
  contents : gmap string content;
  classes : gmap string (gset string)
}.

Definition set_textContent (id s : string) (d : document) : document :=
  {| contents := <[id := Text s]> (contents d); classes := classes d |}.

Definition set_innerHTML (id s : string) (d : document) : document :=
  {| contents := <[id := Html s]> (contents d); classes := classes d |}.

Definition classList (id : string) (d : document) : gset string :=
  default ∅ (classes d !! id).

Definition set_className (id : string) (tokens : list string) (d : document) : document :=
  {| contents := contents d;
     classes := <[id := list_to_set tokens]> (classes d) |}.

Definition classList_add (id c : string) (d : document) : document :=
  {| contents := contents d;
     classes := <[id := classList id d ∪ {[c]}]> (classes d) |}.

Definition classList_remove (id c : string) (d : document) : document :=
  {| contents := contents d;
     classes := <[id := classList id d ∖ {[c]}]> (classes d) |}.

Definition classList_toggle (id c : string) (force : bool) (d : document) : document :=
  if force then classList_add id c d else classList_remove id c d.

Definition classList_contains (id c : string) (d : document) : bool :=
  bool_decide (c ∈ classList id d).

(** Characters that a string literal of the script holds and the notation of
    strings does not: the double quote and the no-break space (in UTF-8, as
    the other characters outside ASCII are). *)
Definition dq : string := String (ascii_of_nat 34) EmptyString.
Definition nbsp : string :=
  String (ascii_of_nat 194) (String (ascii_of_nat 160) EmptyString).

(** ** The colour of a confidence *)

(** The three channels [r], [g], [b] of [confidenceColor]. *)
Definition confidenceChannels (value : number) : number * number * number :=
  if (value <=? int 50)%js then
    let t := (value / int 50)%js in
    let r := Math_round (int 239 + (int 234 - int 239) * t)%js in
    let g := Math_round (int 68 + (int 179 - int 68) * t)%js in
    let b := Math_round (int 68 + (int 8 - int 68) * t)%js in
    (r, g, b)
  else
    let t := ((value - int 50) / int 50)%js in
    let r := Math_round (int 234 + (int 34 - int 234) * t)%js in
    let g := Math_round (int 179 + (int 197 - int 179) * t)%js in
    let b := Math_round (int 8 + (int 94 - int 8) * t)%js in
    (r, g, b).

Definition confidenceColor (value : number) : option string :=
  let '(r, g, b) := confidenceChannels value in
  r ← ToString r; g ← ToString g; b ← ToString b;
  Some ("rgb(" +:+ r +:+ "," +:+ g +:+ "," +:+ b +:+ ")").

(** ** The statistics grid *)

(** The body of the inner loop of [renderStatsGrid], for row [r] and column
    [c]: the text so far and [hasAnyScore], before and after. *)
Definition renderCell (stats : StatsTable) (r c : Z) (acc : string * bool)
    : option (string * bool) :=
  let '(html, hasAnyScore) := acc in
  let key := statKey r c in
  match stats !! key with
  | Some s =>
      if (ToNumber (attempts s) >=? int 5)%js then
        let val := Math_round (ToNumber (confidence s)) in
        bg ← confidenceColor val;
        let textColor := if (val >? int 55)%js then "#111" else "#fff" in
        val' ← ToString val;
        n ← ToString_field (attempts s);
        Some (html +:+ "<td style=" +:+ dq +:+ "background:" +:+ bg +:+ ";color:"
                +:+ textColor +:+ dq +:+ " title=" +:+ dq +:+ pretty r +:+ "×"
                +:+ pretty c +:+ ": " +:+ val' +:+ "% (" +:+ n +:+ " attempts)"
                +:+ dq +:+ ">" +:+ val' +:+ "</td>",
              true)
      else
        n ← ToString_field (attempts s);
        let tip := pretty r +:+ "×" +:+ pretty c +:+ ": " +:+ n +:+ "/5 attempts" in
        Some (html +:+ "<td style=" +:+ dq +:+ "background:#333;color:#777" +:+ dq
                +:+ " title=" +:+ dq +:+ tip +:+ dq +:+ ">–</td>",
              hasAnyScore)
  | None =>
      let tip := pretty r +:+ "×" +:+ pretty c +:+ ": no data" in
      Some (html +:+ "<td style=" +:+ dq +:+ "background:#333;color:#777" +:+ dq
              +:+ " title=" +:+ dq +:+ tip +:+ dq +:+ ">–</td>",
            hasAnyScore)
  end.

(** The body of the outer loop, for row [r]. *)
Definition renderRow (stats : StatsTable) (acc : string * bool) (r : Z)
    : option (string * bool) :=
  let '(html, hasAnyScore) := acc in
  '(html, hasAnyScore) ←
    foldl (λ acc c, acc ≫= renderCell stats r c)
      (Some (html +:+ "<tr><th>" +:+ pretty r +:+ "</th>", hasAnyScore))
      (seqZ 1 12);
  Some (html +:+ "</tr>", hasAnyScore).

(** [renderStatsGrid], on a store whose entry is a stats table.  [None]: the
    loaded value is not a stats table, or a number to be written is outside
    the domain of [ToString]. *)
Definition renderStatsGrid (ls : localStorage) (d : document) : option document :=
  stats ← as_table (loadStats ls);
  let html := "<tr><th class=" +:+ dq +:+ "corner" +:+ dq +:+ ">×</th>" in
  let html := foldl (λ html c, html +:+ "<th>" +:+ pretty c +:+ "</th>") html
                (seqZ 1 12) in
  let html := html +:+ "</tr>" in
  '(html, hasAnyScore) ←
    foldl (λ acc r, acc ≫= λ acc, renderRow stats acc r) (Some (html, false))
      (seqZ 1 12);
  Some (classList_toggle "grid-empty-msg" "visible" (negb hasAnyScore)
          (set_innerHTML "stats-grid" html d)).

(** ** The state of the game

    The variables of the script, the page, and what the handlers reach in the
    browser: the store, the random source, and the timeouts that are pending,
    by their identifier (each runs the callback of [showFeedback]). *)
Module Result.
Record t := {
  a : Z; b : Z; correct : bool; userAnswer : option Z; expected : Z;
  timeTaken : number
}.
End Result.

Record game := {
  questions : list Question.t;
  currentIndex : nat;
  currentAnswer : string;
  questionStartTime : number;
  roundResults : list Result.t;
  feedbackTimeout : option nat;
  isShowingFeedback : bool;
  page : document;
  storage : localStorage;
  randomSource : rng;
  timeouts : gmap nat Z;
  nextTimeout : nat
}.

Definition set_questions (v : list Question.t) (s : game) : game :=
  {| questions := v; currentIndex := currentIndex s;
     currentAnswer := currentAnswer s; questionStartTime := questionStartTime s;
     roundResults := roundResults s; feedbackTimeout := feedbackTimeout s;
     isShowingFeedback := isShowingFeedback s; page := page s;
     storage := storage s; randomSource := randomSource s;
     timeouts := timeouts s; nextTimeout := nextTimeout s |}.

Definition set_currentIndex (v : nat) (s : game) : game :=
  {| questions := questions s; currentIndex := v;
     currentAnswer := currentAnswer s; questionStartTime := questionStartTime s;
     roundResults := roundResults s; feedbackTimeout := feedbackTimeout s;
     isShowingFeedback := isShowingFeedback s; page := page s;
     storage := storage s; randomSource := randomSource s;
     timeouts := timeouts s; nextTimeout := nextTimeout s |}.

Definition set_currentAnswer (v : string) (s : game) : game :=
  {| questions := questions s; currentIndex := currentIndex s;
     currentAnswer := v; questionStartTime := questionStartTime s;
     roundResults := roundResults s; feedbackTimeout := feedbackTimeout s;
     isShowingFeedback := isShowingFeedback s; page := page s;
     storage := storage s; randomSource := randomSource s;
     timeouts := timeouts s; nextTimeout := nextTimeout s |}.

Definition set_questionStartTime (v : number) (s : game) : game :=
  {| questions := questions s; currentIndex := currentIndex s;
     currentAnswer := currentAnswer s; questionStartTime := v;
     roundResults := roundResults s; feedbackTimeout := feedbackTimeout s;
     isShowingFeedback := isShowingFeedback s; page := page s;
     storage := storage s; randomSource := randomSource s;
     timeouts := timeouts s; nextTimeout := nextTimeout s |}.

Definition set_roundResults (v : list Result.t) (s : game) : game :=
  {| questions := questions s; currentIndex := currentIndex s;
     currentAnswer := currentAnswer s; questionStartTime := questionStartTime s;
     roundResults := v; feedbackTimeout := feedbackTimeout s;
     isShowingFeedback := isShowingFeedback s; page := page s;
     storage := storage s; randomSource := randomSource s;
     timeouts := timeouts s; nextTimeout := nextTimeout s |}.

Definition set_feedbackTimeout (v : option nat) (s : game) : game :=
  {| questions := questions s; currentIndex := currentIndex s;
     currentAnswer := currentAnswer s; questionStartTime := questionStartTime s;
     roundResults := roundResults s; feedbackTimeout := v;
     isShowingFeedback := isShowingFeedback s; page := page s;
     storage := storage s; randomSource := randomSource s;
     timeouts := timeouts s; nextTimeout := nextTimeout s |}.

Definition set_isShowingFeedback (v : bool) (s : game) : game :=
  {| questions := questions s; currentIndex := currentIndex s;
     currentAnswer := currentAnswer s; questionStartTime := questionStartTime s;
     roundResults := roundResults s; feedbackTimeout := feedbackTimeout s;
     isShowingFeedback := v; page := page s;
     storage := storage s; randomSource := randomSource s;
     timeouts := timeouts s; nextTimeout := nextTimeout s |}.

Definition set_page (v : document) (s : game) : game :=
  {| questions := questions s; currentIndex := currentIndex s;
     currentAnswer := currentAnswer s; questionStartTime := questionStartTime s;
     roundResults := roundResults s; feedbackTimeout := feedbackTimeout s;
     isShowingFeedback := isShowingFeedback s; page := v;
     storage := storage s; randomSource := randomSource s;
     timeouts := timeouts s; nextTimeout := nextTimeout s |}.

Definition set_storage (v : localStorage) (s : game) : game :=
  {| questions := questions s; currentIndex := currentIndex s;
     currentAnswer := currentAnswer s; questionStartTime := questionStartTime s;
     roundResults := roundResults s; feedbackTimeout := feedbackTimeout s;
     isShowingFeedback := isShowingFeedback s; page := page s;
     storage := v; randomSource := randomSource s;
     timeouts := timeouts s; nextTimeout := nextTimeout s |}.

Definition set_randomSource (v : rng) (s : game) : game :=
  {| questions := questions s; currentIndex := currentIndex s;
     currentAnswer := currentAnswer s; questionStartTime := questionStartTime s;
     roundResults := roundResults s; feedbackTimeout := feedbackTimeout s;
     isShowingFeedback := isShowingFeedback s; page := page s;
     storage := storage s; randomSource := v;
     timeouts := timeouts s; nextTimeout := nextTimeout s |}.

Definition set_timeouts (v : gmap nat Z) (s : game) : game :=
  {| questions := questions s; currentIndex := currentIndex s;
     currentAnswer := currentAnswer s; questionStartTime := questionStartTime s;
     roundResults := roundResults s; feedbackTimeout := feedbackTimeout s;
     isShowingFeedback := isShowingFeedback s; page := page s;
     storage := storage s; randomSource := randomSource s;
     timeouts := v; nextTimeout := nextTimeout s |}.

Definition set_nextTimeout (v : nat) (s : game) : game :=
  {| questions := questions s; currentIndex := currentIndex s;
     currentAnswer := currentAnswer s; questionStartTime := questionStartTime s;
     roundResults := roundResults s; feedbackTimeout := feedbackTimeout s;
     isShowingFeedback := isShowingFeedback s; page := page s;
     storage := storage s; randomSource := randomSource s;
     timeouts := timeouts s; nextTimeout := v |}.

(** The script as it is loaded: the initial values of its variables. *)
Definition loaded (d : document) (ls : localStorage) (g : rng) : game :=
  {| questions := []; currentIndex := 0; currentAnswer := "";
     questionStartTime := int 0; roundResults := [];
     feedbackTimeout := None; isShowingFeedback := false;
     page := d; storage := ls; randomSource := g;
     timeouts := ∅; nextTimeout := 1 |}.

(** [setTimeout] with the callback of [showFeedback], and [clearTimeout]. *)
Definition setTimeout (delay : Z) (s : game) : nat * game :=
  (nextTimeout s,
   set_nextTimeout (S (nextTimeout s))
     (set_timeouts (<[nextTimeout s := delay]> (timeouts s)) s)).

Definition clearTimeout (id : option nat) (s : game) : game :=
  match id with
  | Some i => set_timeouts (delete i (timeouts s)) s
  | None => s
  end.

(** ** Screen management *)

Definition showScreen (screen : string) (d : document) : document :=
  classList_add screen "active"
    (foldl (λ d s, classList_remove s "active" d) d
       ["start-screen"; "game-screen"; "results-screen"]).

(** ** Results *)

Definition resultLine (r : Result.t) : string :=
  pretty (Result.a r) +:+ " × " +:+ pretty (Result.b r) +:+ " = <strong>"
    +:+ pretty (Result.expected r) +:+ "</strong> <span style=" +:+ dq
    +:+ "color:var(--text-dim)" +:+ dq +:+ ">(you said "
    +:+ from_option pretty "NaN" (Result.userAnswer r) +:+ ")</span>".

Definition showResults (s : game) : game :=
  let correctCount := length (filter (λ r, Result.correct r = true) (roundResults s)) in
  let d := page s in
  let d :=
    set_textContent "results-title"
      (if decide (correctCount = TOTAL_QUESTIONS) then "🌟 Perfect Round!"
       else if (12 <=? correctCount)%nat then "🎉 Amazing!"
       else if (8 <=? correctCount)%nat then "👏 Great Job!"
       else "💪 Keep Practising!") d in
  let d :=
    set_textContent "results-score"
      (pretty correctCount +:+ " / " +:+ pretty TOTAL_QUESTIONS) d in
  let wrongOnes := filter (λ r, Result.correct r ≠ true) (roundResults s) in
  let d :=
    if decide (length wrongOnes = 0%nat)
    then set_textContent "results-details" "You got every question right!" d
    else set_innerHTML "results-details"
           (String.concat "<br>" (resultLine <$> wrongOnes)) d in
  set_page (showScreen "results-screen" d) s.

(** ** Game flow

    A handler that reads [questions[currentIndex]] throws when there is no
    such question; [None] stands for a handler that throws, or that leaves
    the domain of the model. *)

(** [now] is the value of [performance.now()]. *)
Definition showQuestion (now : number) (s : game) : option game :=
  q ← questions s !! currentIndex s;
  let d := page s in
  let d :=
    set_textContent "question"
      (pretty (Question.a q) +:+ " × " +:+ pretty (Question.b q) +:+ " =") d in
  let d := set_textContent "answer-display" nbsp d in
  let d :=
    classList_remove "answer-display" "flash-incorrect"
      (classList_remove "answer-display" "flash-correct" d) in
  let d :=
    set_textContent "progress"
      (pretty (currentIndex s + 1)%nat +:+ " / " +:+ pretty TOTAL_QUESTIONS) d in
  Some (set_questionStartTime now (set_currentAnswer "" (set_page d s))).

Definition startGame (table : string) (now : number) (s : game) : option game :=
  '(qs, g) ← generateQuestions table (randomSource s);
  let s := set_randomSource g (set_questions qs s) in
  let s := set_currentIndex 0 s in
  let s := set_roundResults [] s in
  let s := set_currentAnswer "" s in
  let s := set_page (showScreen "game-screen" (page s)) s in
  showQuestion now s.

(** The callback that [showFeedback] hands to [setTimeout]. *)
Definition feedbackDone (now : number) (s : game) : option game :=
  let s := set_page (set_className "feedback-overlay" ["feedback-overlay"] (page s)) s in
  let s := set_isShowingFeedback false s in
  let s := set_currentIndex (currentIndex s + 1) s in
  if (TOTAL_QUESTIONS <=? currentIndex s)%nat then Some (showResults s)
  else showQuestion now s.

Definition showFeedback (correct : bool) (correctAnswer : Z) (s : game) : game :=
  let s := set_isShowingFeedback true s in
  let d := page s in
  let d :=
    set_className "feedback-overlay"
      ["feedback-overlay"; "show"; if correct then "correct" else "incorrect"] d in
  let d := set_textContent "feedback-icon" (if correct then "✓" else "✗") d in
  let d :=
    set_textContent "feedback-text"
      (if correct then "Nice!" else "Answer: " +:+ pretty correctAnswer) d in
  let d :=
    classList_add "answer-display"
      (if correct then "flash-correct" else "flash-incorrect") d in
  let s := set_page d s in
  let '(id, s) := setTimeout (if correct then 800 else 1500) s in
  set_feedbackTimeout (Some id) s.

Definition submitAnswer (now : number) (s : game) : option game :=
  if decide (currentAnswer s = "") then Some s
  else if isShowingFeedback s then Some s
  else
    q ← questions s !! currentIndex s;
    let userAnswer := parseInt (currentAnswer s) in
    let correct := bool_decide (userAnswer = Some (Question.answer q)) in
    let timeSec := ((now - questionStartTime s) / int 1000)%js in
    let s :=
      set_roundResults
        (roundResults s ++
           [{| Result.a := Question.a q; Result.b := Question.b q;
               Result.correct := correct; Result.userAnswer := userAnswer;
               Result.expected := Question.answer q;
               Result.timeTaken := timeSec |}]) s in
    ls ← updateStats (Question.a q) (Question.b q) correct timeSec (storage s);
    let s := set_storage ls s in
    Some (showFeedback correct (Question.answer q) s).

(** ** The statistics window *)

Definition openStats (s : game) : option game :=
  d ← renderStatsGrid (storage s) (page s);
  Some (set_page (classList_add "stats-modal" "open" d) s).

Definition closeStats (s : game) : game :=
  set_page (classList_remove "stats-modal" "open" (page s)) s.

(** ** Input *)

Definition pressDigit (digit : string) (s : game) : game :=
  if isShowingFeedback s then s
  else if (MAX_DIGITS <=? String.length (currentAnswer s))%nat then s
  else
    let s := set_currentAnswer (currentAnswer s +:+ digit) s in
    set_page (set_textContent "answer-display" (currentAnswer s) (page s)) s.

Definition pressBackspace (s : game) : game :=
  if isShowingFeedback s then s
  else
    let s :=
      set_currentAnswer
        (substring 0 (String.length (currentAnswer s) - 1) (currentAnswer s)) s in
    set_page
      (set_textContent "answer-display"
         (if decide (currentAnswer s = "") then nbsp else currentAnswer s)
         (page s)) s.

(** ** The listeners *)

Inductive event :=
  | ClickTable (table : string)
  | ClickNum (num : string)
  | ClickBackspace
  | ClickEnter
  | KeyDown (key : string)
  | ClickBack
  | ClickOpenStats
  | ClickCloseStats
  | ClickModal (onModal : bool)
  | ClickPlayAgain
  | Timeout (id : nat).

Definition keydown (key : string) (now : number) (s : game) : option game :=
  if negb (classList_contains "game-screen" "active" (page s)) then Some s
  else if String.leb "0" key && String.leb key "9" then Some (pressDigit key s)
  else if decide (key = "Backspace") then Some (pressBackspace s)
  else if decide (key = "Enter") then submitAnswer now s
  else Some s.

Definition back (s : game) : game :=
  let s := clearTimeout (feedbackTimeout s) s in
  let s := set_isShowingFeedback false s in
  let s := set_page (set_className "feedback-overlay" ["feedback-overlay"] (page s)) s in
  set_page (showScreen "start-screen" (page s)) s.

(** The listener of an event, run when [performance.now()] is [now].  A
    timeout runs only while it is pending. *)
Definition handle (e : event) (now : number) (s : game) : option game :=
  match e with
  | ClickTable table => startGame table now s
  | ClickNum num => Some (pressDigit num s)
  | ClickBackspace => Some (pressBackspace s)
  | ClickEnter => submitAnswer now s
  | KeyDown key => keydown key now s
  | ClickBack => Some (back s)
  | ClickOpenStats => openStats s
  | ClickCloseStats => Some (closeStats s)
  | ClickModal onModal => Some (if onModal then closeStats s else s)
  | ClickPlayAgain => Some (set_page (showScreen "start-screen" (page s)) s)
  | Timeout id =>
      _ ← timeouts s !! id;
      feedbackDone now (set_timeouts (delete id (timeouts s)) s)
  end.

(** A sequence of events, each with the time at which it is handled. *)
Fixpoint handles (es : list (event * number)) (s : game) : option game :=
  match es with
  | [] => Some s
  | (e, now) :: rest => s' ← handle e now s; handles rest s'
  end.

(** * Vocabulary of the statements *)

(** ** The store *)

(** The table a store holds, when its entry is a stats table. *)
Definition table_of (ls : localStorage) : option StatsTable :=
  as_table (loadStats ls).

(** The record that [updateStats] hands to [saveStats] under the key. *)
Definition updated (old : option FactRecord) (newScore : number) : FactRecord :=
  match old with
  | Some r =>
      {| confidence :=
           Num (ToNumber (confidence r) * dec 7 10 + newScore * dec 3 10)%js;
         attempts := Num (ToNumber (attempts r) + int 1)%js |}
  | None => {| confidence := Num newScore; attempts := Num (int 1) |}
  end.

(** A record as it is read back once [saveStats] has written it. *)
Definition written_field (f : field) : field :=
  match f with
  | Null => Null
  | Num x => written_number x
  end.

Definition written_record (r : FactRecord) : FactRecord :=
  {| confidence := written_field (confidence r);
     attempts := written_field (attempts r) |}.

(** The entry of the statistics is absent, or is a string that [saveStats]
    wrote: the store is owned by the program. *)
Definition saved (ls : localStorage) : Prop :=
  ∀ raw, getItem STORAGE_KEY ls = Some raw → ∃ v, raw = JSON_stringify v.

(** ** The generator *)

Definition in_table (f : Fact.t) : Prop :=
  (1 ≤ Fact.a f ≤ 12 ∧ 1 ≤ Fact.b f ≤ 12)%Z.

(** [q] displays the fact [f]: same operands, in either order, and the
    product of the operands of [f] as answer. *)
Definition displays (f : Fact.t) (q : Question.t) : Prop :=
  Question.answer q = (Fact.a f * Fact.b f)%Z ∧
  ((Question.a q = Fact.a f ∧ Question.b q = Fact.b f) ∨
   (Question.a q = Fact.b f ∧ Question.b q = Fact.a f)).

(** A pair of operands up to order. *)
Definition unordered (x y : Z) : Z * Z := (Z.min x y, Z.max x y).
Definition unordered_fact (f : Fact.t) : Z * Z :=
  unordered (Fact.a f) (Fact.b f).
Definition unordered_question (q : Question.t) : Z * Z :=
  unordered (Question.a q) (Question.b q).

(** The coverage pool of table [n]. *)
Definition pool_of (n : Z) : list Fact.t :=
  (λ i, {| Fact.a := n; Fact.b := i |}) <$> seqZ 1 12.

(** The modes the buttons of the start screen send. *)
Definition valid_mode (table : string) : Prop :=
  table = "mixed" ∨ ∃ n : Z, (1 ≤ n ≤ 12)%Z ∧ table = pretty n.

(** ** Binary64 rounding *)

Abbreviation fexp := (SpecFloat.fexp prec emax).

(** Where the remainder [rem] of a division by [D] lies in [0, D): at 0,
    below, at, or above the middle. *)
Definition loc_of (rem D : Z) : location :=
  if (rem =? 0)%Z then loc_Exact else loc_Inexact (2 * rem ?= D)%Z.

(** The shift record [mrs] holds the quotient of [N] by [D] and the location
    of the remainder. *)
Definition locates (N D : Z) (mrs : shr_record) : Prop :=
  (0 < D)%Z ∧ (0 ≤ N)%Z ∧ shr_m mrs = (N / D)%Z ∧
  loc_of_shr_record mrs = loc_of (N mod D) D.

(** The outcome of a rounding once the rounded mantissa [q1] at exponent [e']
    is known: a carry into the next binade is renormalised, and an exponent
    above the largest one overflows. *)
Definition finish (s : bool) (q1 e' : Z) : spec_float :=
  if (q1 =? 0)%Z then S754_zero s
  else if (q1 =? 2 ^ 53)%Z then
    if (e' + 1 <=? 971)%Z then S754_finite s (2 ^ 52) (e' + 1)
    else S754_infinity s
  else if (e' <=? 971)%Z then S754_finite s (Z.to_pos q1) e'
  else S754_infinity s.

(** The rational value [m * 2^e]. *)
Definition F2Q (m e : Z) : Q := (inject_Z m * 2 ^ e)%Q.

(** A positive mantissa and an exponent in the canonical form of binary64. *)
Definition canonical (m e : Z) : Prop :=
  (0 < m < 2 ^ 53)%Z ∧ (-1074 ≤ e)%Z ∧ (-1074 < e → 2 ^ 52 ≤ m)%Z.

(** The value of a number; used on zeros and finite numbers only. *)
Definition B2Q (x : number) : Q :=
  match x with
  | S754_finite s m e => F2Q (cond_Zopp s (Zpos m)) e
  | _ => 0%Q
  end.

(** [x] is a binary64 number, zero or positive, of value at most [h]; [nz]
    tells whether [x] may be the negative zero. *)
Definition within (nz : bool) (x : number) (h : Q) : Prop :=
  is_number x = true ∧
  match x with
  | S754_zero s => implb s nz = true
  | S754_finite false m e => (F2Q (Zpos m) e <= h)%Q
  | _ => False
  end.

(** The value 100, as the binary64 number holds it. *)
Abbreviation Q100 := (F2Q 7036874417766400 (-46)).

(** ** The score *)

(** The speed sub-score of the specification: 100 up to 2 seconds, 0 from 8
    seconds on, and the linear interpolation strictly in between. *)
Definition speed_is (t v : number) : Prop :=
  ((t <=? int 2)%js = true ∧ v = int 100) ∨
  ((t >=? int 8)%js = true ∧ v = int 0) ∨
  ((int 2 <? t)%js = true ∧ (t <? int 8)%js = true ∧
   v = (int 100 - ((t - int 2) / int 6) * int 100)%js).

(** ** The invariant of the stats table *)

(** A number whose value is an integer. *)
Definition is_integer (x : number) : bool :=
  match x with
  | S754_zero _ => true
  | S754_finite _ m e => (0 <=? e)%Z || (Zpos m mod 2 ^ (- e) =? 0)%Z
  | _ => false
  end.

(** One call [updateStats(a, b, correct, timeSec)]. *)
Record call := { call_a : Z; call_b : Z; call_correct : bool; call_time : number }.

(** A sequence of calls, first to last. *)
Fixpoint run (calls : list call) (ls : localStorage) : option localStorage :=
  match calls with
  | [] => Some ls
  | c :: rest =>
      ls' ← updateStats (call_a c) (call_b c) (call_correct c) (call_time c) ls;
      run rest ls'
  end.

(** The invariant of a record: a confidence in [0, 100] and an integer
    number of attempts, at least 1. *)
Definition good_record (r : FactRecord) : Prop :=
  ∃ c n, confidence r = Num c ∧ attempts r = Num n ∧
    is_number c = true ∧
    (int 0 <=? c)%js = true ∧ (c <=? int 100)%js = true ∧
    is_number n = true ∧ is_integer n = true ∧
    (int 1 <=? n)%js = true.

Definition good_table (t : StatsTable) : Prop :=
  map_Forall (λ _ r, good_record r) t.

(** A call whose time is a number other than NaN. *)
Definition timed (c : call) : Prop :=
  is_number (call_time c) = true ∧ is_nan (call_time c) = false.

(** ** Keys and counts of calls *)

(** Every character of [s] satisfies [P]. *)
Fixpoint all_chars (P : ascii → bool) (s : string) : bool :=
  match s with
  | EmptyString => true
  | String c s' => P c && all_chars P s'
  end.

Definition is_digit (c : ascii) : bool :=
  match digit_of c with Some _ => true | None => false end.

(** The key a call updates, and the number of calls of a sequence that
    update a given key. *)
Definition call_key (c : call) : string := statKey (call_a c) (call_b c).

Definition count_calls (key : string) (calls : list call) : nat :=
  length (filter (λ c, call_key c = key) calls).

(** A record whose attempts are a count: one of the integers that binary64
    holds exactly and [ToString] writes. *)
Definition counted (r : FactRecord) : Prop :=
  ∃ n : Z, (1 ≤ n < 2 ^ 53)%Z ∧ attempts r = Num (int n).

(** ** The clock *)

(** A number that is neither NaN nor infinite. *)
Definition finite (x : number) : bool :=
  is_number x &&
  match x with S754_zero _ | S754_finite _ _ _ => true | _ => false end.

(** ** The grid *)

(** The cell of row [r] and column [c] shows a score: the fact has a record
    of 5 attempts or more. *)
Definition scored (stats : StatsTable) (r c : Z) : bool :=
  match stats !! statKey r c with
  | Some s => (ToNumber (attempts s) >=? int 5)%js
  | None => false
  end.

(** What the grid shows for a value [v] that holds the percentage [n]: the
    colour is the [rgb] text of three integer channels that stay within the
    palette, and the text is dark exactly above 55. *)
Definition colour_ok (v : number) (n : Z) : bool :=
  match confidenceChannels v with
  | (r, g, b) =>
      match to_Z r, to_Z g, to_Z b, confidenceColor v with
      | Some r', Some g', Some b', Some c =>
          String.eqb c ("rgb(" +:+ pretty r' +:+ "," +:+ pretty g' +:+ ","
                          +:+ pretty b' +:+ ")") &&
          (34 <=? r')%Z && (r' <=? 239)%Z && (68 <=? g')%Z && (g' <=? 197)%Z &&
          (8 <=? b')%Z && (b' <=? 94)%Z &&
          bool_decide ((v >? int 55)%js = (55 <? n)%Z)
      | _, _, _, _ => false
      end
  end.

(** ** The input *)

(** The answer buffer holds at most [MAX_DIGITS] decimal digits, and the page
    shows it, or a no-break space when it is empty. *)
Definition input_ok (s : game) : Prop :=
  (String.length (currentAnswer s) ≤ MAX_DIGITS)%nat ∧
  all_chars is_digit (currentAnswer s) = true ∧
  contents (page s) !! "answer-display" =
    Some (Text (if decide (currentAnswer s = "") then nbsp else currentAnswer s)).


(** The events of the player's input: typing, and the enter button or key. *)
Definition input (e : event) : Prop :=
  match e with
  | ClickNum _ | ClickBackspace | ClickEnter | KeyDown _ => True
  | _ => False
  end.

(** What typing leaves alone. *)
Definition same_round (s s' : game) : Prop :=
  questions s' = questions s ∧ currentIndex s' = currentIndex s ∧
  roundResults s' = roundResults s ∧ storage s' = storage s ∧
  timeouts s' = timeouts s ∧ nextTimeout s' = nextTimeout s ∧
  isShowingFeedback s' = isShowingFeedback s ∧
  questionStartTime s' = questionStartTime s ∧
  classes (page s') = classes (page s).

(** ** The round *)

(** The three screens, by the [id] of their element. *)
Definition screens : list string :=
  ["start-screen"; "game-screen"; "results-screen"].

(** The round is at question [i + 1] and the game waits for an answer: no
    feedback is shown, no timeout is pending, and the store holds a stats
    table. *)
Definition asking (i : nat) (s : game) : Prop :=
  length (questions s) = TOTAL_QUESTIONS ∧ currentIndex s = i ∧
  (i < TOTAL_QUESTIONS)%nat ∧ length (roundResults s) = i ∧
  isShowingFeedback s = false ∧ timeouts s = ∅ ∧
  is_Some (table_of (storage s)) ∧ input_ok s.

(** The number of correct answers of the round. *)
Definition correctCount (s : game) : nat :=
  length (filter (λ r, Result.correct r = true) (roundResults s)).

(** The round is over: it holds 15 results, the results screen is the one
    shown, and the score reads the number of correct answers. *)
Definition finished (s : game) : Prop :=
  length (roundResults s) = TOTAL_QUESTIONS ∧
  isShowingFeedback s = false ∧ timeouts s = ∅ ∧
  (∀ x, x ∈ screens →
     classList_contains x "active" (page s) = bool_decide (x = "results-screen")) ∧
  contents (page s) !! "results-score" =
    Some (Text (pretty (correctCount s) +:+ " / " +:+ pretty TOTAL_QUESTIONS)).

(** One turn of the player: digits on the number pad, the enter button, and
    the end of the feedback, by the timeout [id]. *)
Definition turn (id : nat) (ds : list ascii) (t1 t2 : number)
    : list (event * number) :=
  ((λ c, (ClickNum (String c EmptyString), t1)) <$> ds) ++
  [(ClickEnter, t1); (Timeout id, t2)].

(** Turns one after the other; each feedback takes the next timeout. *)
Fixpoint play (id : nat) (turns : list (list ascii * number * number))
    : list (event * number) :=
  match turns with
  | [] => []
  | (ds, t1, t2) :: rest => turn id ds t1 t2 ++ play (S id) rest
  end.

(** The speed sub-score, as [computeScore] computes it. *)
Definition speedScore (timeSec : number) : number :=
  if (timeSec <=? int 2)%js then int 100
  else if (timeSec >=? int 8)%js then int 0
  else (int 100 - ((timeSec - int 2) / int 6) * int 100)%js.

(** A point of the grid of the numbers: a mantissa of at most 53 bits at an
    exponent of the format, with all its bits above the least exponent. *)
Definition grid_point (q e' : Z) : Prop :=
  (0 ≤ q < 2 ^ 53 ∧ -1074 ≤ e' ∧ (-1074 < e' → 2 ^ 52 ≤ q))%Z.

(** ** States for the examples

    A page with no text and no class set; and the third question of a round
    on the table of 7, with [42] typed. *)
Definition blank : document := {| contents := ∅; classes := ∅ |}.

Definition example_questions : list Question.t :=
  replicate 15 {| Question.a := 7; Question.b := 6; Question.answer := 42 |}.

Definition example_results : list Result.t :=
  replicate 2
    {| Result.a := 7; Result.b := 6; Result.correct := true;
       Result.userAnswer := Some 42%Z; Result.expected := 42;
       Result.timeTaken := int 1 |}.

Definition example_game : game :=
  {| questions := example_questions; currentIndex := 2; currentAnswer := "42";
     questionStartTime := int 1000; roundResults := example_results;
     feedbackTimeout := None; isShowingFeedback := false;
     page := set_textContent "answer-display" "42" blank;
     storage := ∅; randomSource := λ _, 0%N; timeouts := ∅; nextTimeout := 1 |}.

(** * Proof automation for literal side conditions *)

Ltac closed_within :=
  split; [vm_compute; reflexivity | vm_compute; first [discriminate | reflexivity]].

Ltac literal := vm_compute; first [discriminate | reflexivity].

Ltac side :=
  first [ assumption | closed_within | (unfold canonical; lia) | lia | literal ].

Ltac fields :=
  cbn [questions currentIndex currentAnswer questionStartTime roundResults
       feedbackTimeout isShowingFeedback page storage randomSource timeouts
       nextTimeout set_questions set_currentIndex set_currentAnswer
       set_questionStartTime set_roundResults set_feedbackTimeout
       set_isShowingFeedback set_page set_storage set_randomSource
       set_timeouts set_nextTimeout] in *.


(** * Binary64 rounding, on rational values

    The operations of [SpecFloat] round through [binary_round_aux], which
    shifts the mantissa to the precision while recording where the dropped
    part lies, rounds to nearest with ties to even, and renormalises.  This
    part relates what it returns to the exact rational value: the result is
    one of the two binary64 neighbours of that value, so it stays between any
    two binary64 numbers that enclose the value. *)

Section Rounding.

#[local] Open Scope Z_scope.

(** ** The number of binary digits *)

Lemma digits2_pos_bounds (p : positive) :
  2 ^ (Zpos (digits2_pos p) - 1) <= Zpos p < 2 ^ Zpos (digits2_pos p).
Proof.
  induction p as [p IH|p IH|]; cbn [digits2_pos].
  - rewrite Pos2Z.inj_succ.
    replace (Z.succ (Zpos (digits2_pos p)) - 1)
      with (Z.succ (Zpos (digits2_pos p) - 1)) by lia.
    rewrite !Z.pow_succ_r by lia. lia.
  - rewrite Pos2Z.inj_succ.
    replace (Z.succ (Zpos (digits2_pos p)) - 1)
      with (Z.succ (Zpos (digits2_pos p) - 1)) by lia.
    rewrite !Z.pow_succ_r by lia. lia.
  - cbn. lia.
Qed.

Lemma Zdigits2_bounds (m : Z) :
  0 < m -> 2 ^ (Zdigits2 m - 1) <= m < 2 ^ Zdigits2 m.
Proof. destruct m; try lia. intros _. apply digits2_pos_bounds. Qed.

Lemma Zdigits2_nonneg m : 0 <= Zdigits2 m.
Proof. destruct m; cbn; lia. Qed.

Lemma Zdigits2_pos m : 0 < m -> 0 < Zdigits2 m.
Proof. destruct m; cbn; lia. Qed.

Lemma Zdigits2_unique m d : 0 < d -> 2 ^ (d - 1) <= m < 2 ^ d -> Zdigits2 m = d.
Proof.
  intros Hd [Hlo Hhi].
  assert (0 < m) as Hm by (pose proof (Z.pow_pos_nonneg 2 (d - 1)); lia).
  destruct (Zdigits2_bounds m Hm) as [Hlo' Hhi'].
  pose proof (Zdigits2_pos m Hm).
  destruct (Z.lt_trichotomy (Zdigits2 m) d) as [Hlt|[Heq|Hgt]]; [|done|].
  - assert (2 ^ Zdigits2 m <= 2 ^ (d - 1)) by (apply Z.pow_le_mono_r; lia). lia.
  - assert (2 ^ d <= 2 ^ (Zdigits2 m - 1)) by (apply Z.pow_le_mono_r; lia). lia.
Qed.

(** ** Shifting a mantissa to the right

    One step halves the divisor grid: the record keeps the quotient and where
    the remainder lies. *)

Lemma locates_shr_1 N D mrs : locates N D mrs -> locates N (2 * D) (shr_1 mrs).
Proof.
  intros (HD & HN & Hm & Hl). destruct mrs as [m r s]. cbn [shr_m] in Hm.
  pose proof (Z.div_mod N D ltac:(lia)) as HND.
  pose proof (Z.mod_pos_bound N D HD) as Hrem.
  assert (0 <= m) as Hm0 by (subst m; apply Z.div_pos; lia).
  set (b := m mod 2). set (m' := m / 2).
  assert (m = 2 * m' + b /\ 0 <= b < 2) as [Hmb Hb].
  { unfold b, m'. pose proof (Z.div_mod m 2 ltac:(lia)).
    pose proof (Z.mod_pos_bound m 2 ltac:(lia)). lia. }
  assert (N / (2 * D) = m' /\ N mod (2 * D) = b * D + N mod D) as [Hq Hr].
  { assert (N = m' * (2 * D) + (b * D + N mod D)) as HN'.
    { rewrite HND at 1. rewrite <- Hm, Hmb. ring. }
    assert (0 <= b * D + N mod D < 2 * D) as Hbound by nia.
    split; symmetry.
    - apply (Z.div_unique_pos N (2 * D) m' _ Hbound). rewrite HN' at 1. ring.
    - apply (Z.mod_unique_pos N (2 * D) m' _ Hbound). rewrite HN' at 1. ring. }
  assert (shr_1 {| shr_m := m; shr_r := r; shr_s := s |} =
          {| shr_m := m'; shr_r := (b =? 1); shr_s := r || s |}) as ->.
  { unfold shr_1. destruct m as [|[p|p|]|p]; try lia; unfold m', b.
    - reflexivity.
    - rewrite Pos2Z.inj_xI. replace (2 * Zpos p + 1) with (1 + Zpos p * 2) by lia.
      rewrite Z.div_add, Z.mod_add by lia. reflexivity.
    - rewrite Pos2Z.inj_xO. replace (2 * Zpos p) with (0 + Zpos p * 2) by lia.
      rewrite Z.div_add, Z.mod_add by lia. reflexivity.
    - reflexivity. }
  split; [lia|]. split; [lia|]. split; [cbn; lia|].
  rewrite Hr. unfold loc_of in *. cbn [loc_of_shr_record] in *.
  destruct (Z.eqb_spec (N mod D) 0) as [H0|H0];
    destruct (Z.eqb_spec (b * D + N mod D) 0) as [H1|H1];
    destruct (Z.eqb_spec b 1) as [Hb1|Hb1];
    destruct (Z.compare_spec (2 * (b * D + N mod D)) (2 * D)) as [Hc|Hc|Hc];
    try nia;
    destruct r, s; try discriminate Hl; try reflexivity;
    destruct (Z.compare_spec (2 * (N mod D)) D); try discriminate Hl; nia.
Qed.

Lemma locates_iter p : forall N D mrs,
  locates N D mrs -> locates N (D * 2 ^ Zpos p) (SpecFloat.iter_pos shr_1 p mrs).
Proof.
  induction p as [p IH|p IH|]; intros N D mrs H; cbn [SpecFloat.iter_pos].
  - apply locates_shr_1, IH, IH in H.
    replace (D * 2 ^ Zpos p~1) with (2 * D * 2 ^ Zpos p * 2 ^ Zpos p); [done|].
    assert (Zpos p~1 = Zpos p + Zpos p + 1) as -> by lia.
    rewrite !Z.pow_add_r by lia. ring.
  - apply IH, IH in H.
    replace (D * 2 ^ Zpos p~0) with (D * 2 ^ Zpos p * 2 ^ Zpos p); [done|].
    assert (Zpos p~0 = Zpos p + Zpos p) as -> by lia.
    rewrite !Z.pow_add_r by lia. ring.
  - apply locates_shr_1 in H. by replace (D * 2 ^ 1) with (2 * D) by lia.
Qed.

Lemma locates_shr N D mrs e n :
  locates N D mrs -> 0 <= n ->
  locates N (D * 2 ^ n) (shr mrs e n).1 /\ (shr mrs e n).2 = e + n.
Proof.
  intros H Hn. destruct n as [|p|p]; [| |lia]; cbn [shr fst snd].
  - split; [|lia]. by rewrite Z.mul_1_r.
  - split; [|done]. by apply locates_iter.
Qed.

Lemma loc_of_shr_record_of_loc m l :
  loc_of_shr_record (shr_record_of_loc m l) = l.
Proof. by destruct l as [|[]]. Qed.

Lemma shr_m_record_of_loc m l : shr_m (shr_record_of_loc m l) = m.
Proof. by destruct l as [|[]]. Qed.

Lemma locates_record_of_loc N D :
  0 < D -> 0 <= N ->
  locates N D (shr_record_of_loc (N / D) (loc_of (N mod D) D)).
Proof.
  intros HD HN. split; [done|]. split; [done|].
  by rewrite shr_m_record_of_loc, loc_of_shr_record_of_loc.
Qed.

(** ** The rounding step *)

Lemma fexp_spec k : fexp k = Z.max (k - 53) (-1074).
Proof. reflexivity. Qed.

Lemma round_nearest_even_cases q l :
  round_nearest_even q l = q \/
  (round_nearest_even q l = q + 1 /\ l <> loc_Exact).
Proof.
  destruct l as [|[]]; cbn;
    [by left | destruct (Z.even q); [by left | by right] | by left | by right].
Qed.

Lemma div_pow2_bounds m d n :
  0 <= n -> 0 < m -> 2 ^ (d - 1) <= m < 2 ^ d -> 0 < d ->
  m / 2 ^ n < 2 ^ Z.max (d - n) 0 /\ (n <= d - 1 -> 2 ^ (d - 1 - n) <= m / 2 ^ n).
Proof.
  intros Hn Hm [Hlo Hhi] Hd.
  assert (0 < 2 ^ n) as Hpow by (apply Z.pow_pos_nonneg; lia).
  split.
  - apply Z.div_lt_upper_bound; [done|].
    destruct (Z.le_gt_cases n d).
    + rewrite Z.max_l by lia. rewrite <- Z.pow_add_r by lia.
      by replace (n + (d - n)) with d by lia.
    + rewrite Z.max_r by lia. rewrite Z.mul_1_r.
      assert (2 ^ d <= 2 ^ n) by (apply Z.pow_le_mono_r; lia). lia.
  - intros Hnd. apply Z.div_le_lower_bound; [done|].
    rewrite <- Z.pow_add_r by lia.
    by replace (n + (d - 1 - n)) with (d - 1) by lia.
Qed.

Lemma shr_nonpos mrs e n : n <= 0 -> shr mrs e n = (mrs, e).
Proof. by destruct n. Qed.

Lemma fexp_ge k : -1074 <= fexp k.
Proof. rewrite fexp_spec. lia. Qed.

(** [binary_round_aux] on the quotient [N / D] at exponent [e], when [e] is
    at most the exponent of the format for that magnitude: the mantissa is
    the quotient of [N] by [D * 2^(e' - e)] rounded to nearest even. *)
Lemma binary_round_aux_spec s N D e :
  0 < D -> 0 <= N -> e <= fexp (Zdigits2 (N / D) + e) ->
  let e' := fexp (Zdigits2 (N / D) + e) in
  let D' := D * 2 ^ (e' - e) in
  let q := N / D' in
  let q1 := round_nearest_even q (loc_of (N mod D') D') in
  binary_round_aux prec emax s (N / D) e (loc_of (N mod D) D) = finish s q1 e' /\
  0 <= q < 2 ^ 53 /\ (-1074 < e' -> 2 ^ 52 <= q) /\ -1074 <= e'.
Proof.
  intros HD HN He e' D' q q1.
  set (m := N / D) in *.
  assert (0 <= m) as Hm by (apply Z.div_pos; lia).
  assert (-1074 <= e') as He' by apply fexp_ge.
  assert (0 < 2 ^ (e' - e)) as Hpow by (apply Z.pow_pos_nonneg; lia).
  assert (q = m / 2 ^ (e' - e)) as Hq.
  { unfold q, D', m. by rewrite Z.div_div by lia. }
  assert (0 <= q) as Hq0 by (rewrite Hq; apply Z.div_pos; lia).
  (* bounds on the shifted mantissa *)
  assert (q < 2 ^ 53 /\ (-1074 < e' -> 2 ^ 52 <= q)) as [Hq53 Hgap].
  { destruct (Z.eq_dec m 0) as [Hm0|Hm0].
    - assert (e' = -1074) as He'eq.
      { unfold e' in *. rewrite Hm0 in *. cbn [Zdigits2] in *.
        rewrite fexp_spec in *. lia. }
      rewrite Hq, Hm0, Z.div_0_l by lia. split; [done | lia].
    - assert (0 < m) as Hmpos by lia.
      pose proof (Zdigits2_bounds m Hmpos) as Hd.
      pose proof (Zdigits2_pos m Hmpos) as Hdpos.
      destruct (div_pow2_bounds m (Zdigits2 m) (e' - e) ltac:(lia) Hmpos Hd Hdpos)
        as [Hup Hlow].
      rewrite <- Hq in Hup, Hlow.
      assert (e' = Z.max (Zdigits2 m + e - 53) (-1074)) as He'eq
        by (unfold e'; by rewrite fexp_spec).
      split.
      + eapply Z.lt_le_trans; [exact Hup|]. apply Z.pow_le_mono_r; lia.
      + intros Hnorm.
        assert (e' - e = Zdigits2 m - 53) as Hn by lia.
        rewrite Hn in Hlow.
        replace (Zdigits2 m - 1 - (Zdigits2 m - 53)) with 52 in Hlow by lia.
        apply Hlow. lia. }
  split; [|done].
  (* the first shift *)
  pose proof (locates_record_of_loc N D HD HN) as Hloc. fold m in Hloc.
  destruct (locates_shr N D _ e (e' - e) Hloc ltac:(lia)) as [Hloc1 He1].
  unfold binary_round_aux, shr_fexp. fold e'.
  destruct (shr (shr_record_of_loc m (loc_of (N mod D) D)) e (e' - e))
    as [mrs1 e1]. cbn [fst snd] in Hloc1, He1.
  destruct Hloc1 as (_ & _ & Hm1 & Hl1). fold D' in Hm1, Hl1. fold q in Hm1.
  rewrite Hm1, Hl1. fold q1.
  replace e1 with e' by lia.
  assert (q1 = q \/ q1 = q + 1) as Hq1.
  { unfold q1. destruct (round_nearest_even_cases q (loc_of (N mod D') D'))
      as [->|[-> _]]; auto. }
  (* the second shift *)
  unfold finish.
  destruct (Z.eqb_spec q1 0) as [Hz|Hz].
  - rewrite Hz. cbn [Zdigits2].
    destruct (Z.le_gt_cases (fexp (0 + e') - e') 0) as [Hn2|Hn2].
    + rewrite shr_nonpos by done. reflexivity.
    + pose proof (locates_record_of_loc 0 1 ltac:(lia) ltac:(lia)) as Hloc0.
      destruct (locates_shr 0 1 _ e' (fexp (0 + e') - e') Hloc0 ltac:(lia))
        as [(_ & _ & Hm2 & _) _].
      change (loc_of (0 mod 1) 1) with loc_Exact in Hm2. change (0 / 1) with 0 in Hm2.
      destruct (shr (shr_record_of_loc 0 loc_Exact) e' (fexp (0 + e') - e'))
        as [mrs2 e2].
      cbn [fst] in Hm2. rewrite Hm2, Z.div_0_l by lia. reflexivity.
  - destruct (Z.eqb_spec q1 (2 ^ 53)) as [Hc|Hc].
    + rewrite Hc. change (Zdigits2 (2 ^ 53)) with 54.
      assert (fexp (54 + e') - e' = 1) as -> by (rewrite fexp_spec; lia).
      cbn [shr shr_record_of_loc SpecFloat.iter_pos fst snd].
      change (shr_m (shr_1 {| shr_m := 2 ^ 53; shr_r := false; shr_s := false |}))
        with (2 ^ 52).
      change (2 ^ 52) with (Zpos (2 ^ 52)).
      change (emax - prec) with 971. reflexivity.
    + assert (0 < q1 < 2 ^ 53) as Hq1r by lia.
      pose proof (Zdigits2_bounds q1 ltac:(lia)) as Hd1.
      assert (Zdigits2 q1 <= 53) as Hd53.
      { destruct (Z.le_gt_cases (Zdigits2 q1) 53) as [|Hgt]; [done|].
        assert (2 ^ 53 <= 2 ^ (Zdigits2 q1 - 1)) by (apply Z.pow_le_mono_r; lia).
        lia. }
      rewrite shr_nonpos by (rewrite fexp_spec; lia).
      rewrite shr_m_record_of_loc.
      destruct q1 as [|p|p]; try lia.
      change (emax - prec) with 971. reflexivity.
Qed.


(** ** Rational values *)

Lemma Qpow2_pos e : (0 < 2 ^ e)%Q.
Proof. by apply Qpower_0_lt. Qed.

Lemma F2Q_shift m e k : 0 <= k -> (F2Q (m * 2 ^ k) e == F2Q m (e + k))%Q.
Proof.
  intros Hk. unfold F2Q.
  rewrite inject_Z_mult, (Zpower_Qpower 2 k Hk), Qpower_plus by done.
  change (inject_Z 2) with 2%Q. ring.
Qed.

Lemma F2Q_le m1 m2 e : m1 <= m2 <-> (F2Q m1 e <= F2Q m2 e)%Q.
Proof.
  unfold F2Q. pose proof (Qpow2_pos e). rewrite Zle_Qle. split; intros Hle.
  - apply Qmult_le_compat_r; [done | by apply Qlt_le_weak].
  - by apply Qmult_le_r in Hle.
Qed.

Lemma F2Q_lt m1 m2 e : m1 < m2 <-> (F2Q m1 e < F2Q m2 e)%Q.
Proof.
  unfold F2Q. pose proof (Qpow2_pos e). rewrite Zlt_Qlt. split; intros Hlt.
  - by apply Qmult_lt_compat_r.
  - by apply Qmult_lt_r in Hlt.
Qed.

Lemma F2Q_eq m1 m2 e : m1 = m2 <-> (F2Q m1 e == F2Q m2 e)%Q.
Proof.
  split; [by intros ->|]. intros Heq.
  apply Z.le_antisymm; apply (F2Q_le _ _ e); rewrite Heq; apply Qle_refl.
Qed.

(** Comparing two values after bringing them to the smaller exponent. *)
Lemma F2Q_le_l a e1 b e2 :
  e1 <= e2 -> (F2Q a e1 <= F2Q b e2)%Q <-> a <= b * 2 ^ (e2 - e1).
Proof.
  intros He. rewrite (F2Q_le a (b * 2 ^ (e2 - e1)) e1), F2Q_shift by lia.
  by replace (e1 + (e2 - e1)) with e2 by lia.
Qed.

Lemma F2Q_le_r a e1 b e2 :
  e2 <= e1 -> (F2Q a e1 <= F2Q b e2)%Q <-> a * 2 ^ (e1 - e2) <= b.
Proof.
  intros He. rewrite (F2Q_le (a * 2 ^ (e1 - e2)) b e2), F2Q_shift by lia.
  by replace (e2 + (e1 - e2)) with e1 by lia.
Qed.

Lemma F2Q_lt_l a e1 b e2 :
  e1 <= e2 -> (F2Q a e1 < F2Q b e2)%Q <-> a < b * 2 ^ (e2 - e1).
Proof.
  intros He. rewrite (F2Q_lt a (b * 2 ^ (e2 - e1)) e1), F2Q_shift by lia.
  by replace (e1 + (e2 - e1)) with e2 by lia.
Qed.

Lemma F2Q_lt_r a e1 b e2 :
  e2 <= e1 -> (F2Q a e1 < F2Q b e2)%Q <-> a * 2 ^ (e1 - e2) < b.
Proof.
  intros He. rewrite (F2Q_lt (a * 2 ^ (e1 - e2)) b e2), F2Q_shift by lia.
  by replace (e2 + (e1 - e2)) with e1 by lia.
Qed.

(** ** Canonical form *)

Lemma canonical_fexp m e : 0 < m -> fexp (Zdigits2 m + e) = e <-> canonical m e.
Proof.
  intros Hm. pose proof (Zdigits2_bounds m Hm) as Hd.
  pose proof (Zdigits2_pos m Hm) as Hdpos.
  rewrite fexp_spec. unfold canonical. split.
  - intros He. split; [split; [done|]|split; [lia|]].
    + assert (Zdigits2 m <= 53) by lia.
      assert (2 ^ Zdigits2 m <= 2 ^ 53) by (apply Z.pow_le_mono_r; lia). lia.
    + intros Hnorm. assert (Zdigits2 m = 53) as Hd53 by lia.
      rewrite Hd53 in Hd. apply Hd.
  - intros ([_ Hm53] & He & Hnorm).
    assert (Zdigits2 m <= 53) as Hd53.
    { destruct (Z.le_gt_cases (Zdigits2 m) 53) as [|Hgt]; [done|].
      assert (2 ^ 53 <= 2 ^ (Zdigits2 m - 1)) by (apply Z.pow_le_mono_r; lia).
      lia. }
    destruct (Z.eq_dec e (-1074)) as [->|Hne]; [lia|].
    assert (Zdigits2 m = 53); [|lia].
    apply Zdigits2_unique; [lia|]. split; [apply Hnorm; lia | lia].
Qed.

Lemma bounded_canonical (m : positive) e :
  bounded prec emax m e = true <-> canonical (Zpos m) e /\ e <= 971.
Proof.
  unfold bounded, canonical_mantissa.
  rewrite andb_true_iff, Z.eqb_eq, Z.leb_le.
  change (emax - prec) with 971.
  by rewrite (canonical_fexp (Zpos m) e).
Qed.

(** No canonical value lies strictly between two neighbours of the grid of
    exponent [e'] on which [q] has full precision. *)
Lemma grid_gap mh eh q e' :
  canonical mh eh -> 0 <= q -> -1074 <= e' -> (-1074 < e' -> 2 ^ 52 <= q) ->
  (F2Q q e' < F2Q mh eh)%Q -> (F2Q (q + 1) e' <= F2Q mh eh)%Q.
Proof.
  intros ([Hmh Hmh53] & Heh & Hnorm) Hq He' Hgap Hlt.
  destruct (Z.le_gt_cases e' eh) as [Hle|Hgt].
  - apply F2Q_le_l; [done|]. apply F2Q_lt_l in Hlt; [|done]. lia.
  - apply F2Q_lt_r in Hlt; [|lia].
    assert (2 <= 2 ^ (e' - eh)).
    { change 2 with (2 ^ 1) at 1. apply Z.pow_le_mono_r; lia. }
    specialize (Hgap ltac:(lia)). nia.
Qed.

(** Among canonical values, the larger exponent holds the larger value. *)
Lemma canonical_lt_exp m1 e1 m2 e2 :
  canonical m1 e1 -> canonical m2 e2 -> e1 < e2 -> (F2Q m1 e1 < F2Q m2 e2)%Q.
Proof.
  intros ([? ?] & ? & _) (_ & ? & Hnorm) Hlt.
  apply F2Q_lt_l; [lia|].
  assert (2 <= 2 ^ (e2 - e1)).
  { change 2 with (2 ^ 1) at 1. apply Z.pow_le_mono_r; lia. }
  specialize (Hnorm ltac:(lia)). nia.
Qed.

Lemma canonical_unique m1 e1 m2 e2 :
  canonical m1 e1 -> canonical m2 e2 -> (F2Q m1 e1 == F2Q m2 e2)%Q ->
  m1 = m2 /\ e1 = e2.
Proof.
  intros H1 H2 Heq.
  assert (e1 = e2) as ->.
  { destruct (Z.lt_trichotomy e1 e2) as [Hlt|[?|Hgt]]; [|done|].
    - pose proof (canonical_lt_exp _ _ _ _ H1 H2 Hlt) as Hc.
      rewrite Heq in Hc. by apply Qlt_irrefl in Hc.
    - pose proof (canonical_lt_exp _ _ _ _ H2 H1 Hgt) as Hc.
      rewrite Heq in Hc. by apply Qlt_irrefl in Hc. }
  split; [|done]. by apply (F2Q_eq m1 m2 e2).
Qed.

(** ** The result of a rounding and the exact value *)

Lemma finish_cases s q1 e' :
  0 <= q1 <= 2 ^ 53 -> -1074 <= e' -> (-1074 < e' -> 2 ^ 52 <= q1) ->
  (q1 = 0 /\ finish s q1 e' = S754_zero s) \/
  (0 < q1 /\ exists m e'',
     canonical (Zpos m) e'' /\ (F2Q (Zpos m) e'' == F2Q q1 e')%Q /\
     ((e'' <= 971 /\ finish s q1 e' = S754_finite s m e'') \/
      (971 < e'' /\ finish s q1 e' = S754_infinity s))).
Proof.
  intros Hq1 He' Hgap. unfold finish.
  destruct (Z.eqb_spec q1 0) as [Hz|Hz]; [by left|]. right. split; [lia|].
  destruct (Z.eqb_spec q1 (2 ^ 53)) as [Hc|Hc].
  - exists (2 ^ 52)%positive, (e' + 1). split; [|split].
    + unfold canonical. lia.
    + rewrite Hc, <- (F2Q_shift _ e' 1) by lia. reflexivity.
    + destruct (Z.leb_spec (e' + 1) 971); [left | right]; by split.
  - exists (Z.to_pos q1), e'. rewrite Z2Pos.id by lia. split; [|split].
    + unfold canonical. split; [lia|]. by split.
    + reflexivity.
    + destruct (Z.leb_spec e' 971); [left | right]; by split.
Qed.

(** What [binary_round_aux] returns for the quotient [N / D] at exponent
    [e]: a valid number whose mantissa is the quotient truncated to the
    precision, or the next one. *)
Lemma round_neighbours s N D e :
  0 < D -> 0 <= N -> e <= fexp (Zdigits2 (N / D) + e) ->
  exists q q1 e',
    binary_round_aux prec emax s (N / D) e (loc_of (N mod D) D) = finish s q1 e' /\
    0 <= q < 2 ^ 53 /\ -1074 <= e' /\ (-1074 < e' -> 2 ^ 52 <= q) /\ e <= e' /\
    (q1 = q \/ q1 = q + 1) /\
    (inject_Z D * F2Q q e' <= F2Q N e)%Q /\
    (q1 = q + 1 -> (inject_Z D * F2Q q e' < F2Q N e)%Q) /\
    (F2Q N e < inject_Z D * F2Q (q + 1) e')%Q.
Proof.
  intros HD HN He.
  destruct (binary_round_aux_spec s N D e HD HN He) as (Hr & Hq & Hgap & He').
  set (e' := fexp (Zdigits2 (N / D) + e)) in *.
  set (D' := D * 2 ^ (e' - e)) in *.
  set (q := N / D') in *.
  set (l := loc_of (N mod D') D') in *.
  exists q, (round_nearest_even q l), e'.
  split; [exact Hr|]. split; [exact Hq|]. split; [exact He'|].
  split; [exact Hgap|]. split; [exact He|].
  assert (0 < 2 ^ (e' - e)) as Hpow by (apply Z.pow_pos_nonneg; lia).
  assert (0 < D') as HD' by (unfold D'; nia).
  pose proof (Z.div_mod N D' ltac:(lia)) as Hdm. fold q in Hdm.
  pose proof (Z.mod_pos_bound N D' HD') as Hrem.
  assert (forall k, (inject_Z D * F2Q k e' == F2Q (D' * k) e)%Q) as Hscale.
  { intros k. unfold D'.
    replace (D * 2 ^ (e' - e) * k) with (D * k * 2 ^ (e' - e)) by ring.
    rewrite F2Q_shift by lia. replace (e + (e' - e)) with e' by lia.
    unfold F2Q. rewrite inject_Z_mult. ring. }
  split; [|split; [|split]].
  - destruct (round_nearest_even_cases q l) as [->|[-> _]]; auto.
  - rewrite Hscale. apply F2Q_le. lia.
  - intros Hup. rewrite Hscale. apply F2Q_lt.
    destruct (round_nearest_even_cases q l) as [Heq|[_ Hl]]; [lia|].
    unfold l, loc_of in Hl. destruct (Z.eqb_spec (N mod D') 0); [done|]. lia.
  - rewrite Hscale. apply F2Q_lt. nia.
Qed.

(** Rounding stays below any number that bounds the exact quotient. *)
Lemma round_upper s N D e mh eh :
  0 < D -> 0 <= N -> e <= fexp (Zdigits2 (N / D) + e) ->
  canonical mh eh -> eh <= 971 ->
  (F2Q N e <= inject_Z D * F2Q mh eh)%Q ->
  let r := binary_round_aux prec emax s (N / D) e (loc_of (N mod D) D) in
  is_number r = true /\
  match r with
  | S754_zero s' => s' = s
  | S754_finite s' m' e'' => s' = s /\ (F2Q (Zpos m') e'' <= F2Q mh eh)%Q
  | _ => False
  end.
Proof.
  intros HD HN He Hcan Heh Hx r.
  destruct (round_neighbours s N D e HD HN He)
    as (q & q1 & e' & Hr & Hq & He' & Hgap & _ & Hq1 & Hlo & Hstrict & _).
  unfold r. rewrite Hr. clear r Hr.
  assert (0 < inject_Z D)%Q as HDq by (change (inject_Z 0 < inject_Z D)%Q; by rewrite <- Zlt_Qlt).
  assert (F2Q q1 e' <= F2Q mh eh)%Q as Hle.
  { destruct Hq1 as [->| ->].
    - apply (Qmult_le_l _ _ (inject_Z D)); [done|]. by eapply Qle_trans.
    - apply grid_gap; [done | lia | done | done |].
      apply (Qmult_lt_l _ _ (inject_Z D)); [done|].
      eapply Qlt_le_trans; [by apply Hstrict | done]. }
  destruct (finish_cases s q1 e') as [[_ ->]|(Hpos & m & e'' & Hc & Hv & Hfin)];
    [lia | done | intros; lia | done |].
  destruct Hfin as [[Hb ->]|[Hover _]].
  - split; [by apply bounded_canonical|]. split; [done|]. by rewrite Hv.
  - exfalso. pose proof (canonical_lt_exp mh eh (Zpos m) e'' Hcan Hc ltac:(lia)) as Hlt.
    rewrite Hv in Hlt. by apply Qlt_not_le in Hlt.
Qed.

(** Rounding stays above any number below the exact quotient. *)
Lemma round_lower s N D e ml el :
  0 < D -> 0 <= N -> e <= fexp (Zdigits2 (N / D) + e) ->
  canonical ml el ->
  (inject_Z D * F2Q ml el <= F2Q N e)%Q ->
  match binary_round_aux prec emax s (N / D) e (loc_of (N mod D) D) with
  | S754_finite s' m' e'' => s' = s /\ (F2Q ml el <= F2Q (Zpos m') e'')%Q
  | S754_infinity s' => s' = s
  | _ => False
  end.
Proof.
  intros HD HN He Hcan Hx.
  destruct (round_neighbours s N D e HD HN He)
    as (q & q1 & e' & Hr & Hq & He' & Hgap & _ & Hq1 & _ & _ & Hhi).
  rewrite Hr. clear Hr.
  assert (0 < inject_Z D)%Q as HDq by (change (inject_Z 0 < inject_Z D)%Q; by rewrite <- Zlt_Qlt).
  assert (F2Q ml el <= F2Q q e')%Q as Hle.
  { apply Qnot_lt_le. intros Hlt.
    pose proof (grid_gap ml el q e' Hcan ltac:(lia) He' Hgap Hlt) as Hup.
    apply (Qmult_le_l _ _ (inject_Z D)) in Hup; [|done].
    apply (Qlt_irrefl (F2Q N e)).
    eapply Qlt_le_trans; [exact Hhi|]. by eapply Qle_trans. }
  assert (0 < q) as Hqpos.
  { destruct Hcan as ([Hml _] & _). apply (F2Q_lt 0 q e').
    eapply Qlt_le_trans; [|exact Hle].
    unfold F2Q. rewrite Qmult_0_l. apply Qmult_lt_0_compat; [|apply Qpow2_pos].
    change (inject_Z 0 < inject_Z ml)%Q. by rewrite <- Zlt_Qlt. }
  assert (F2Q ml el <= F2Q q1 e')%Q as Hle1.
  { eapply Qle_trans; [exact Hle|]. apply F2Q_le. lia. }
  destruct (finish_cases s q1 e') as [[? _]|(Hpos & m & e'' & Hc & Hv & Hfin)];
    [lia | done | intros; lia | lia |].
  destruct Hfin as [[_ ->]|[_ ->]]; [|done].
  split; [done|]. by rewrite Hv.
Qed.

(** ** The operands of the operations *)

Lemma Zdigits2_lower m k : 0 <= k -> 2 ^ k <= m -> k + 1 <= Zdigits2 m.
Proof.
  intros Hk Hm.
  assert (0 < m) as Hpos by (pose proof (Z.pow_pos_nonneg 2 k); lia).
  destruct (Zdigits2_bounds m Hpos) as [_ Hhi].
  destruct (Z.le_gt_cases (k + 1) (Zdigits2 m)) as [|Hlt]; [done|].
  assert (2 ^ Zdigits2 m <= 2 ^ k); [|lia].
  apply Z.pow_le_mono_r; [lia|]. pose proof (Zdigits2_nonneg m). lia.
Qed.

Lemma Zdigits2_shift m k : 0 < m -> 0 <= k -> Zdigits2 (m * 2 ^ k) = Zdigits2 m + k.
Proof.
  intros Hm Hk. pose proof (Zdigits2_bounds m Hm) as [Hlo Hhi].
  pose proof (Zdigits2_pos m Hm).
  assert (0 < 2 ^ k) by (apply Z.pow_pos_nonneg; lia).
  apply Zdigits2_unique; [lia|].
  replace (Zdigits2 m + k - 1) with (Zdigits2 m - 1 + k) by lia.
  rewrite !Z.pow_add_r by lia. nia.
Qed.

Lemma iter_xO p d : Zpos (Pos.iter xO p d) = Zpos p * 2 ^ Zpos d.
Proof.
  induction d as [|d IH] using Pos.peano_ind.
  - cbn [Pos.iter]. lia.
  - rewrite Pos.iter_succ, Pos2Z.inj_xO, IH, Pos2Z.inj_succ, Z.pow_succ_r by lia.
    ring.
Qed.

(** [shl_align] brings a mantissa to the smaller of two exponents. *)
Lemma shl_align_spec p e e' :
  let '(m', e'') := shl_align p e e' in
  e'' = Z.min e e' /\ Zpos m' = Zpos p * 2 ^ (e - e'').
Proof.
  unfold shl_align. destruct (e' - e) as [|d|d] eqn:Hd.
  - split; [lia|]. replace (e - e) with 0 by lia. lia.
  - split; [lia|]. replace (e - e) with 0 by lia. lia.
  - split; [lia|]. rewrite iter_xO. f_equal. f_equal. lia.
Qed.

(** Exact integers: [N * 2^e] with [N > 0], rounded by [binary_round]. *)
Lemma binary_round_exact s (p : positive) e :
  exists N e0,
    binary_round prec emax s p e =
      binary_round_aux prec emax s (N / 1) e0 (loc_of (N mod 1) 1) /\
    0 < N /\ e0 <= fexp (Zdigits2 (N / 1) + e0) /\
    (F2Q N e0 == F2Q (Zpos p) e)%Q.
Proof.
  unfold binary_round.
  pose proof (shl_align_spec p e (fexp (Zpos (digits2_pos p) + e))) as Hal.
  destruct (shl_align p e (fexp (Zpos (digits2_pos p) + e))) as [mz ez].
  destruct Hal as [Hez Hmz].
  exists (Zpos mz), ez. rewrite Z.div_1_r, Z.mod_1_r.
  split; [reflexivity|]. split; [lia|]. split.
  - rewrite Hmz, Zdigits2_shift by lia. cbn [Zdigits2].
    replace (Zpos (digits2_pos p) + (e - ez) + ez) with (Zpos (digits2_pos p) + e)
      by lia.
    lia.
  - rewrite Hmz, F2Q_shift by lia. by replace (ez + (e - ez)) with e by lia.
Qed.

(** The location the division computes from its remainder. *)
Lemma new_location_spec nb k :
  0 < nb -> 0 <= k < nb -> new_location nb k = loc_of k nb.
Proof.
  intros Hnb Hk. unfold new_location, new_location_even, new_location_odd, loc_of.
  destruct (Z.even nb) eqn:Hev; [done|].
  destruct (Z.eqb_spec k 0); [done|]. f_equal.
  assert (Z.odd nb = true) as Hodd by (by rewrite <- Z.negb_even, Hev).
  apply Z.odd_spec in Hodd as [c Hc].
  destruct (Z.compare_spec (2 * k + 1) nb), (Z.compare_spec (2 * k) nb);
    try done; lia.
Qed.

(** The core of the division: quotient, exponent and location. *)
Lemma SFdiv_core_spec (mx my : positive) ex ey :
  canonical (Zpos mx) ex -> canonical (Zpos my) ey ->
  exists N e',
    SFdiv_core_binary prec emax (Zpos mx) ex (Zpos my) ey =
      (N / Zpos my, e', loc_of (N mod Zpos my) (Zpos my)) /\
    0 < N /\ e' <= fexp (Zdigits2 (N / Zpos my) + e') /\
    (F2Q N e' == F2Q (Zpos mx) (ex - ey))%Q.
Proof.
  intros Hx Hy. unfold SFdiv_core_binary.
  set (dx := Zdigits2 (Zpos mx)). set (dy := Zdigits2 (Zpos my)).
  set (e' := Z.min (fexp (dx + ex - (dy + ey))) (ex - ey)).
  set (s := ex - ey - e').
  assert (0 <= s) as Hs by (unfold s, e'; lia).
  assert (0 < 2 ^ s) as Hpow by (apply Z.pow_pos_nonneg; lia).
  set (N := Zpos mx * 2 ^ s).
  assert (match s with Z.pos _ => Z.shiftl (Zpos mx) s | 0 => Zpos mx | Z.neg _ => 0 end = N)
    as ->.
  { unfold N. destruct s as [|p|p] eqn:Hsp; [lia | | lia].
    by rewrite Z.shiftl_mul_pow2. }
  exists N, e'.
  assert (Z.div_eucl N (Zpos my) = (N / Zpos my, N mod Zpos my)) as ->.
  { unfold Z.div, Z.modulo. by destruct (Z.div_eucl N (Zpos my)). }
  rewrite new_location_spec by (try apply Z.mod_pos_bound; lia).
  split; [reflexivity|]. split; [unfold N; nia|]. split.
  - (* the quotient has enough digits *)
    destruct (Z.le_gt_cases e' (-1074)) as [Hsub|Hnorm].
    { pose proof (fexp_ge (Zdigits2 (N / Zpos my) + e')). lia. }
    pose proof (Zdigits2_bounds (Zpos mx) ltac:(lia)) as [Hxlo Hxhi].
    pose proof (Zdigits2_bounds (Zpos my) ltac:(lia)) as [Hylo Hyhi].
    pose proof (Zdigits2_pos (Zpos mx) ltac:(lia)) as Hdx.
    pose proof (Zdigits2_pos (Zpos my) ltac:(lia)) as Hdy.
    fold dx in Hxlo, Hxhi, Hdx. fold dy in Hylo, Hyhi, Hdy.
    assert (dx <= 53) as Hdx53.
    { destruct Hx as ([_ Hm] & _). destruct (Z.le_gt_cases dx 53); [done|].
      assert (2 ^ 53 <= 2 ^ (dx - 1)) by (apply Z.pow_le_mono_r; lia). lia. }
    assert (e' <= dx + ex - (dy + ey) - 53) as He'.
    { unfold e' in *. rewrite fexp_spec in *. lia. }
    assert (0 <= dx - 1 + s - dy) as Hk by (unfold s; lia).
    assert (2 ^ (dx - 1 + s - dy) <= N / Zpos my) as Hq.
    { apply Z.div_le_lower_bound; [lia|].
      assert (2 ^ (dx - 1 + s) <= N).
      { unfold N. rewrite Z.pow_add_r by lia. nia. }
      assert (Zpos my * 2 ^ (dx - 1 + s - dy) <= 2 ^ dy * 2 ^ (dx - 1 + s - dy)).
      { apply Z.mul_le_mono_nonneg_r; [|lia]. apply Z.pow_nonneg. lia. }
      rewrite <- Z.pow_add_r in * by lia.
      replace (dy + (dx - 1 + s - dy)) with (dx - 1 + s) in * by lia. lia. }
    pose proof (Zdigits2_lower _ _ Hk Hq) as Hdq.
    rewrite fexp_spec. unfold s in *. lia.
  - unfold N. rewrite F2Q_shift by lia. unfold s.
    by replace (e' + (ex - ey - e')) with (ex - ey) by lia.
Qed.


(** ** Bounds through the four operations *)

Lemma F2Q_pos m e : 0 < m -> (0 < F2Q m e)%Q.
Proof.
  intros Hm. unfold F2Q. apply Qmult_lt_0_compat; [|apply Qpow2_pos].
  change (inject_Z 0 < inject_Z m)%Q. by rewrite <- Zlt_Qlt.
Qed.

Lemma F2Q_mul m1 e1 m2 e2 :
  (F2Q (m1 * m2) (e1 + e2) == F2Q m1 e1 * F2Q m2 e2)%Q.
Proof.
  unfold F2Q. rewrite inject_Z_mult, Qpower_plus by done. ring.
Qed.

Lemma F2Q_add m1 m2 e : (F2Q (m1 + m2) e == F2Q m1 e + F2Q m2 e)%Q.
Proof. unfold F2Q. rewrite inject_Z_plus. ring. Qed.

Lemma F2Q_sub m1 m2 e : (F2Q (m1 - m2) e == F2Q m1 e - F2Q m2 e)%Q.
Proof.
  unfold F2Q, Z.sub. rewrite inject_Z_plus, inject_Z_opp. ring.
Qed.

Lemma F2Q_0 e : (F2Q 0 e == 0)%Q.
Proof. unfold F2Q. ring. Qed.

Lemma valid_finite s m e :
  is_number (S754_finite s m e) = true <->
  canonical (Zpos m) e /\ e <= 971.
Proof. apply bounded_canonical. Qed.

(** Rounding an exact positive value [N * 2^e]. *)
Lemma round_exact_upper N e mh eh :
  0 < N -> e <= fexp (Zdigits2 N + e) -> canonical mh eh -> eh <= 971 ->
  (F2Q N e <= F2Q mh eh)%Q ->
  within false (binary_round_aux prec emax false N e loc_Exact) (F2Q mh eh).
Proof.
  intros HN He Hcan Heh Hx.
  pose proof (round_upper false N 1 e mh eh ltac:(lia) ltac:(lia)) as Hup.
  rewrite Z.div_1_r, Z.mod_1_r in Hup. change (loc_of 0 1) with loc_Exact in Hup.
  destruct (Hup He Hcan Heh) as [Hvalid Hr].
  { by rewrite Qmult_1_l. }
  split; [done|].
  destruct (binary_round_aux prec emax false N e loc_Exact) as [z| | |z m' e''];
    try done.
  - by rewrite Hr.
  - destruct Hr as [-> Hr]. done.
Qed.

(** [x * y] for factors that are zero or positive. *)
Lemma mul_within b1 b2 x y hx hy mh eh :
  within b1 x hx -> within b2 y hy -> canonical mh eh -> eh <= 971 ->
  (hx * hy <= F2Q mh eh)%Q ->
  within (b1 || b2) (SFmul prec emax x y) (F2Q mh eh).
Proof.
  intros [Hvx Hx] [Hvy Hy] Hcan Heh Hh.
  destruct x as [sx| | |[] mx ex], y as [sy| | |[] my ey]; try done; cbn [SFmul].
  - split; [done|]. by destruct sx, sy, b1, b2.
  - split; [done|]. by destruct sx, b1, b2.
  - split; [done|]. by destruct sy, b1, b2.
  - apply valid_finite in Hvx as [Hcx Hex], Hvy as [Hcy Hey].
    cbn [xorb].
    assert (within false
      (binary_round_aux prec emax false (Zpos (mx * my)) (ex + ey) loc_Exact)
      (F2Q mh eh)) as [Hv Hr].
    { apply round_exact_upper; [lia | | done | done |].
      - destruct Hcx as ([_ Hx53] & Hexlo & Hxn), Hcy as ([_ Hy53] & Heylo & Hyn).
        rewrite fexp_spec.
        destruct (Z.eq_dec ex (-1074)) as [->|Hxne];
          [destruct (Z.eq_dec ey (-1074)) as [->|Hyne]; [lia|]|].
        + assert (2 ^ 52 <= Zpos (mx * my)) as Hprod.
          { specialize (Hyn ltac:(lia)). rewrite Pos2Z.inj_mul. nia. }
          pose proof (Zdigits2_lower _ 52 ltac:(lia) Hprod). lia.
        + assert (2 ^ 52 <= Zpos (mx * my)) as Hprod.
          { specialize (Hxn ltac:(lia)). rewrite Pos2Z.inj_mul. nia. }
          pose proof (Zdigits2_lower _ 52 ltac:(lia) Hprod). lia.
      - rewrite Pos2Z.inj_mul, F2Q_mul.
        pose proof (F2Q_pos (Zpos mx) ex ltac:(lia)).
        pose proof (F2Q_pos (Zpos my) ey ltac:(lia)).
        eapply Qle_trans; [|exact Hh].
        apply Qmult_le_compat_nonneg; split; lra. }
    split; [done|].
    destruct (binary_round_aux prec emax false (Zpos (mx * my)) (ex + ey) loc_Exact)
      as [z| | |[] m' e'']; try done.
    by destruct z.
Qed.

Lemma binary_round_upper (p : positive) e mh eh :
  canonical mh eh -> eh <= 971 -> (F2Q (Zpos p) e <= F2Q mh eh)%Q ->
  within false (binary_round prec emax false p e) (F2Q mh eh).
Proof.
  intros Hcan Heh Hx.
  destruct (binary_round_exact false p e) as (N & e0 & -> & HN & He0 & Hv).
  rewrite Z.div_1_r, Z.mod_1_r in *. change (loc_of 0 1) with loc_Exact.
  apply round_exact_upper; try done. by rewrite Hv.
Qed.

Lemma aligned (m : positive) e ez :
  ez <= e -> Zpos (shl_align m e ez).1 = Zpos m * 2 ^ (e - ez).
Proof.
  intros He. pose proof (shl_align_spec m e ez) as Hal.
  destruct (shl_align m e ez) as [m' e']. destruct Hal as [-> Hm'].
  cbn [fst]. by rewrite Hm', Z.min_r by lia.
Qed.

Lemma F2Q_aligned (m : positive) e ez :
  ez <= e -> (F2Q (Zpos (shl_align m e ez).1) ez == F2Q (Zpos m) e)%Q.
Proof.
  intros He. rewrite aligned, F2Q_shift by lia.
  by replace (ez + (e - ez)) with e by lia.
Qed.

(** [x + y] for terms that are zero or positive. *)
Lemma add_within b1 b2 x y hx hy mh eh :
  within b1 x hx -> within b2 y hy -> canonical mh eh -> eh <= 971 ->
  (0 <= hx)%Q -> (0 <= hy)%Q -> (hx + hy <= F2Q mh eh)%Q ->
  within (b1 && b2) (SFadd prec emax x y) (F2Q mh eh).
Proof.
  intros [Hvx Hx] [Hvy Hy] Hcan Heh Hhx Hhy Hh.
  destruct x as [sx| | |[] mx ex], y as [sy| | |[] my ey]; try done; cbn [SFadd].
  - split; [by destruct sx, sy|]. by destruct sx, sy, b1, b2.
  - split; [done|]. lra.
  - split; [done|]. lra.
  - cbn [cond_Zopp].
    set (ez := Z.min ex ey).
    set (px := (shl_align mx ex ez).1). set (py := (shl_align my ey ez).1).
    change (Zpos px + Zpos py) with (Zpos (px + py)). cbn [binary_normalize].
    assert (within false (binary_round prec emax false (px + py) ez) (F2Q mh eh))
      as [Hv Hr]; [|split; [done|]].
    + apply binary_round_upper; [done | done |].
      rewrite Pos2Z.inj_add, F2Q_add. unfold px, py.
      rewrite !F2Q_aligned by (unfold ez; lia). lra.
    + by destruct (binary_round prec emax false (px + py) ez)
        as [[]| | |[] m' e''].
Qed.

(** [x - y] for [0 <= y <= x]. *)
Lemma sub_within b (mx : positive) ex y hy mh eh :
  is_number (S754_finite false mx ex) = true ->
  within b y hy -> (B2Q y <= F2Q (Zpos mx) ex)%Q ->
  canonical mh eh -> eh <= 971 ->
  (F2Q (Zpos mx) ex - B2Q y <= F2Q mh eh)%Q ->
  within false (SFsub prec emax (S754_finite false mx ex) y) (F2Q mh eh).
Proof.
  intros Hvx [Hvy Hy] Hle Hcan Heh Hh.
  destruct y as [sy| | |[] my ey]; try done; cbn [SFsub].
  - split; [done|]. cbn [B2Q] in Hh. lra.
  - cbn [cond_Zopp B2Q] in *.
    set (ez := Z.min ex ey).
    set (px := (shl_align mx ex ez).1). set (py := (shl_align my ey ez).1).
    assert (F2Q (Zpos px - Zpos py) ez == F2Q (Zpos mx) ex - F2Q (Zpos my) ey)%Q
      as Hval.
    { rewrite F2Q_sub. unfold px, py.
      by rewrite !F2Q_aligned by (unfold ez; lia). }
    assert (0 <= Zpos px - Zpos py) as Hnn.
    { apply (F2Q_le 0 _ ez). rewrite Hval, F2Q_0. lra. }
    destruct (Zpos px - Zpos py) as [|p|p] eqn:HR; [| |lia];
      cbn [binary_normalize].
    + by split.
    + assert (within false (binary_round prec emax false p ez) (F2Q mh eh))
        as [Hv Hr]; [|split; [done|]].
      * apply binary_round_upper; [done | done |]. rewrite Hval. lra.
      * by destruct (binary_round prec emax false p ez) as [[]| | |[] m' e''].
Qed.

(** [x / y] for a positive divisor. *)
Lemma div_within b x (my : positive) ey hx mh eh :
  within b x hx ->
  is_number (S754_finite false my ey) = true ->
  canonical mh eh -> eh <= 971 ->
  (hx <= F2Q (Zpos my) ey * F2Q mh eh)%Q ->
  within b (SFdiv prec emax x (S754_finite false my ey)) (F2Q mh eh).
Proof.
  intros [Hvx Hx] Hvy Hcan Heh Hh.
  destruct x as [sx| | |[] mx ex]; try done; cbn [SFdiv xorb].
  - split; [done|]. by destruct sx.
  - apply valid_finite in Hvx as [Hcx _], Hvy as [Hcy _].
    destruct (SFdiv_core_spec mx my ex ey Hcx Hcy) as (N & e' & -> & HN & He' & Hv).
    destruct (round_upper false N (Zpos my) e' mh eh) as [Hvalid Hr];
      [lia | lia | done | done | done | |].
    + rewrite Hv.
      assert (F2Q (Zpos mx) ex == F2Q (Zpos mx) (ex - ey) * 2 ^ ey)%Q as Hsplit.
      { unfold F2Q. replace ex with (ex - ey + ey) at 1 by lia.
        rewrite Qpower_plus by done. ring. }
      assert (F2Q (Zpos my) ey == inject_Z (Zpos my) * 2 ^ ey)%Q as Hy by done.
      pose proof (Qpow2_pos ey) as Hpow.
      apply (Qmult_le_r _ _ (2 ^ ey)%Q); [done|].
      rewrite <- Hsplit.
      eapply Qle_trans; [exact Hx|]. eapply Qle_trans; [exact Hh|].
      rewrite Hy. apply Qle_lteq. right. ring.
    + split; [done|].
      destruct (binary_round_aux prec emax false (N / Zpos my) e'
                  (loc_of (N mod Zpos my) (Zpos my))) as [z| | |z m' e''];
        try done.
      * by rewrite Hr.
      * by destruct Hr as [-> Hr].
Qed.

(** ** Comparisons *)

(** On positive numbers [SFcompare] is the comparison of the values. *)
Lemma SFcompare_pos (m1 m2 : positive) e1 e2 :
  canonical (Zpos m1) e1 -> canonical (Zpos m2) e2 ->
  SFcompare (S754_finite false m1 e1) (S754_finite false m2 e2) =
    Some (F2Q (Zpos m1) e1 ?= F2Q (Zpos m2) e2)%Q.
Proof.
  intros H1 H2. cbn [SFcompare]. f_equal. symmetry.
  destruct (Z.compare_spec e1 e2) as [->|Hlt|Hgt].
  - change (Pos.compare_cont Eq m1 m2) with (Pos.compare m1 m2).
    destruct (Pos.compare_spec m1 m2) as [->|Hm|Hm].
    + by apply Qeq_alt.
    + apply Qlt_alt, F2Q_lt. lia.
    + apply Qgt_alt, F2Q_lt. lia.
  - by apply Qlt_alt, canonical_lt_exp.
  - by apply Qgt_alt, canonical_lt_exp.
Qed.

Lemma within_B2Q b x h : within b x h -> (0 <= h)%Q -> (0 <= B2Q x <= h)%Q.
Proof.
  intros [Hv Hx] Hh. destruct x as [s| | |[] m e]; try done; cbn [B2Q cond_Zopp].
  split; [|done]. apply Qlt_le_weak, F2Q_pos. lia.
Qed.

Lemma within_le b x (p : positive) eh :
  within b x (F2Q (Zpos p) eh) -> canonical (Zpos p) eh ->
  SFleb (S754_zero false) x = true /\ SFleb x (S754_finite false p eh) = true.
Proof.
  intros [Hv Hx] Hcan. destruct x as [s| | |[] m e]; try done.
  apply valid_finite in Hv as [Hc _]. split; [done|].
  unfold SFleb. rewrite SFcompare_pos by done.
  destruct (F2Q (Zpos m) e ?= F2Q (Zpos p) eh)%Q eqn:Hcmp; [done | done |].
  apply Qgt_alt in Hcmp. by apply Qlt_not_le in Hcmp.
Qed.

Lemma le_within x (p : positive) eh :
  is_number x = true -> canonical (Zpos p) eh ->
  SFleb (S754_zero false) x = true -> SFleb x (S754_finite false p eh) = true ->
  within true x (F2Q (Zpos p) eh).
Proof.
  intros Hv Hcan H0 Hle. split; [done|].
  destruct x as [s|[]| |[] m e]; try done.
  - by destruct s.
  - apply valid_finite in Hv as [Hc _].
    unfold SFleb in Hle. rewrite SFcompare_pos in Hle by done.
    apply Qle_alt. by destruct (F2Q (Zpos m) e ?= F2Q (Zpos p) eh)%Q.
Qed.

(** A number that is neither NaN, nor at most [lo], nor at least [hi]. *)
Lemma strictly_between x (lo hi : positive) elo ehi :
  is_number x = true ->
  canonical (Zpos lo) elo -> canonical (Zpos hi) ehi ->
  x <> S754_nan ->
  SFleb x (S754_finite false lo elo) = false ->
  SFleb (S754_finite false hi ehi) x = false ->
  exists m e, x = S754_finite false m e /\
    (F2Q (Zpos lo) elo < F2Q (Zpos m) e < F2Q (Zpos hi) ehi)%Q.
Proof.
  intros Hv Hclo Hchi Hnan Hlo Hhi.
  destruct x as [s|[]| |[] m e]; try done.
  apply valid_finite in Hv as [Hc _]. exists m, e. split; [done|].
  unfold SFleb in Hlo, Hhi. rewrite SFcompare_pos in Hlo, Hhi by done.
  split.
  - apply Qgt_alt. by destruct (F2Q (Zpos m) e ?= F2Q (Zpos lo) elo)%Q.
  - apply Qgt_alt. by destruct (F2Q (Zpos hi) ehi ?= F2Q (Zpos m) e)%Q.
Qed.

(** ** Two identities *)

Lemma SFmul_comm x y : SFmul prec emax x y = SFmul prec emax y x.
Proof.
  destruct x as [sx|sx| |sx mx ex], y as [sy|sy| |sy my ey]; cbn [SFmul];
    try (by rewrite xorb_comm); try done.
  by rewrite xorb_comm, Pos.mul_comm, Z.add_comm.
Qed.

Lemma SFadd_zero_l y :
  y <> S754_zero true -> SFadd prec emax (S754_zero false) y = y.
Proof. intros Hy. by destruct y as [[]| | |]. Qed.

End Rounding.

(** * The score, the moving average and the attempt counter *)

Section Score.

#[local] Open Scope Z_scope.

(** ** Literals, as mantissa and exponent *)

Lemma int_1 : int 1 = S754_finite false 4503599627370496 (-52).
Proof. reflexivity. Qed.
Lemma int_2 : int 2 = S754_finite false 4503599627370496 (-51).
Proof. reflexivity. Qed.
Lemma int_8 : int 8 = S754_finite false 4503599627370496 (-49).
Proof. reflexivity. Qed.

(** ** The score lies in [0, 100] *)

(** The interpolated speed score, for a time strictly between 2 and 8. *)
Lemma interpolate_within (m : positive) e :
  is_number (S754_finite false m e) = true ->
  (F2Q 4503599627370496 (-51) < F2Q (Zpos m) e)%Q ->
  (F2Q (Zpos m) e < F2Q 4503599627370496 (-49))%Q ->
  within false
    (int 100 - ((S754_finite false m e - int 2) / int 6) * int 100)%js Q100.
Proof.
  intros Hv Hlo Hhi.
  assert (F2Q 4503599627370496 (-51) == 2)%Q as V2 by literal.
  assert (F2Q 4503599627370496 (-49) == 8)%Q as V8 by literal.
  assert (F2Q 6755399441055744 (-50) == 6)%Q as V6 by literal.
  assert (Q100 == 100)%Q as V100 by literal.
  assert (within false (S754_finite false m e - int 2)%js
            (F2Q 6755399441055744 (-50))) as H1.
  { apply (sub_within false m e (int 2) (F2Q 4503599627370496 (-51)));
      [side | side | | side | side |];
      change (B2Q (int 2)) with (F2Q 4503599627370496 (-51)); lra. }
  assert (within false ((S754_finite false m e - int 2) / int 6)%js
            (F2Q 4503599627370496 (-52))) as H2.
  { apply (div_within false _ 6755399441055744 (-50) (F2Q 6755399441055744 (-50)));
      side. }
  assert (within false (((S754_finite false m e - int 2) / int 6) * int 100)%js
            Q100) as H3.
  { apply (mul_within false false _ _ (F2Q 4503599627370496 (-52)) Q100); side. }
  destruct (within_B2Q _ _ _ H3) as [Hz0 Hz100]; [literal|].
  apply (sub_within false 7036874417766400 (-46) _ Q100);
    [side | side | | side | side |]; lra.
Qed.

Lemma computeScore_within correct t :
  is_number t = true -> is_nan t = false ->
  within false (computeScore correct t) Q100.
Proof.
  intros Hv Hnan. unfold computeScore.
  destruct (t <=? int 2)%js eqn:Hle; [destruct correct; closed_within|].
  destruct (t >=? int 8)%js eqn:Hge; [destruct correct; closed_within|].
  destruct (strictly_between t 4503599627370496 4503599627370496 (-51) (-49))
    as (m & e & -> & Hlo & Hhi); [side | side | side | by destruct t | side | side |].
  pose proof (interpolate_within m e Hv Hlo Hhi) as Hspeed.
  set (speed := (int 100 - ((S754_finite false m e - int 2) / int 6) * int 100)%js)
    in *.
  assert (within false (speed * dec 3 10)%js (F2Q 8444249301319680 (-48))) as H3.
  { apply (mul_within false false _ _ Q100 (F2Q 5404319552844595 (-54))); side. }
  destruct correct.
  - apply (add_within false false _ _ (F2Q 4925812092436480 (-46))
             (F2Q 8444249301319680 (-48))); side.
  - apply (add_within false false _ _ 0 (F2Q 8444249301319680 (-48))); side.
Qed.

(** ** The score follows the formula of the specification *)

Lemma SFcompare_antisym x y :
  SFcompare y x = CompOpp <$> SFcompare x y.
Proof.
  destruct x as [sx|sx| |sx mx ex], y as [sy|sy| |sy my ey]; cbn [SFcompare];
    repeat match goal with s : bool |- _ => destruct s end;
    cbn [fmap option_fmap option_map CompOpp]; try done;
    rewrite (Z.compare_antisym ex ey);
    destruct (ex ?= ey); cbn [CompOpp]; try done;
    rewrite (Pos.compare_cont_antisym mx my Eq); cbn [CompOpp]; try done;
    by destruct (Pos.compare_cont Eq my mx).
Qed.

Lemma lt_not_ge x y : (x <? y)%js = true -> (y <=? x)%js = false.
Proof.
  unfold lt, le, SFltb, SFleb. rewrite (SFcompare_antisym x y).
  by destruct (SFcompare x y) as [[]|].
Qed.

Lemma ge_8_not_le_2 t : (t >=? int 8)%js = true -> (t <=? int 2)%js = false.
Proof.
  unfold ge, le, SFleb. rewrite int_8, int_2.
  destruct t as [s|[]| |[] m e]; cbn [SFcompare]; try done.
  destruct (Z.compare_spec (-49) e), (Z.compare_spec e (-51)); try done; lia.
Qed.

Lemma score_formula correct t v :
  speed_is t v ->
  computeScore correct t =
    (dec 7 10 * (if correct then int 100 else int 0) + dec 3 10 * v)%js.
Proof.
  intros Hspeed. unfold computeScore, mul.
  rewrite (SFmul_comm (dec 7 10)), (SFmul_comm (dec 3 10)).
  destruct Hspeed as [[Hle ->]|[[Hge ->]|(Hlo & Hhi & ->)]].
  - by rewrite Hle.
  - by rewrite (ge_8_not_le_2 t Hge), Hge.
  - apply lt_not_ge in Hlo, Hhi. unfold ge, le in *. by rewrite Hlo, Hhi.
Qed.

Lemma speed_within t v :
  is_number t = true -> speed_is t v -> within false v Q100.
Proof.
  intros Hv [[_ ->]|[[_ ->]|(Hlo & Hhi & ->)]]; [closed_within | closed_within |].
  assert (t <> S754_nan) as Hnan by (intros ->; discriminate Hhi).
  apply lt_not_ge in Hlo, Hhi.
  destruct (strictly_between t 4503599627370496 4503599627370496 (-51) (-49))
    as (m & e & -> & Hlo' & Hhi'); [side ..|].
  by apply interpolate_within.
Qed.

Lemma computeScore_false t v :
  is_number t = true -> speed_is t v ->
  computeScore false t = (dec 3 10 * v)%js.
Proof.
  intros Hv Hspeed. rewrite (score_formula false t v Hspeed).
  change (dec 7 10 * int 0)%js with (S754_zero false).
  apply SFadd_zero_l.
  assert (within false (dec 3 10 * v)%js (F2Q 8444249301319680 (-48)))
    as [_ Hnz].
  { unfold mul. rewrite SFmul_comm.
    apply (mul_within false false _ _ Q100 (F2Q 5404319552844595 (-54)));
      [by eapply speed_within | side ..]. }
  intros Heq. by rewrite Heq in Hnz.
Qed.

(** One step of the moving average stays in range. *)
Lemma ema_within c s :
  within true c Q100 -> within false s Q100 ->
  within false (c * dec 7 10 + s * dec 3 10)%js Q100.
Proof.
  intros Hc Hs.
  apply (add_within true false _ _ (F2Q 4925812092436480 (-46))
           (F2Q 8444249301319680 (-48))); [| |side ..].
  - apply (mul_within true false _ _ Q100 (F2Q 6305039478318694 (-53))); side.
  - apply (mul_within false false _ _ Q100 (F2Q 5404319552844595 (-54))); side.
Qed.

(** ** The attempt counter *)

Lemma binary_round_lower (p : positive) e ml el :
  canonical ml el -> (F2Q ml el <= F2Q (Zpos p) e)%Q ->
  match binary_round prec emax false p e with
  | S754_finite s' m' e'' => s' = false /\ (F2Q ml el <= F2Q (Zpos m') e'')%Q
  | S754_infinity s' => s' = false
  | _ => False
  end.
Proof.
  intros Hcan Hx.
  destruct (binary_round_exact false p e) as (N & e0 & -> & HN & He0 & Hv).
  apply round_lower; [lia | lia | done | done |].
  by rewrite Qmult_1_l, Hv.
Qed.

Lemma le_of_values (m1 m2 : positive) e1 e2 :
  canonical (Zpos m1) e1 -> canonical (Zpos m2) e2 ->
  (F2Q (Zpos m1) e1 <= F2Q (Zpos m2) e2)%Q ->
  (S754_finite false m1 e1 <=? S754_finite false m2 e2)%js = true.
Proof.
  intros H1 H2 Hle. unfold le, SFleb. rewrite SFcompare_pos by done.
  destruct (F2Q (Zpos m1) e1 ?= F2Q (Zpos m2) e2)%Q eqn:Hcmp; [done | done |].
  apply Qgt_alt in Hcmp. by apply Qlt_not_le in Hcmp.
Qed.

Lemma values_of_le (m1 m2 : positive) e1 e2 :
  canonical (Zpos m1) e1 -> canonical (Zpos m2) e2 ->
  (S754_finite false m1 e1 <=? S754_finite false m2 e2)%js = true ->
  (F2Q (Zpos m1) e1 <= F2Q (Zpos m2) e2)%Q.
Proof.
  intros H1 H2. unfold le, SFleb. rewrite SFcompare_pos by done.
  intros Hle. apply Qle_alt.
  by destruct (F2Q (Zpos m1) e1 ?= F2Q (Zpos m2) e2)%Q.
Qed.

(** The number that holds an integer of at most 53 bits. *)
Lemma int_repr K :
  0 < K <= 2 ^ 53 ->
  exists (m : positive) e,
    canonical (Zpos m) e /\ e <= 971 /\
    (F2Q (Zpos m) e == F2Q K 0)%Q /\
    is_integer (S754_finite false m e) = true.
Proof.
  intros [HK0 HK].
  destruct (Z.eq_dec K (2 ^ 53)) as [->|Hne].
  { exists (2 ^ 52)%positive, 1. split; [unfold canonical; lia|].
    split; [lia|]. split; [by vm_compute | done]. }
  pose proof (Zdigits2_bounds K HK0) as [Hlo Hhi].
  pose proof (Zdigits2_pos K HK0) as Hd.
  set (d := Zdigits2 K) in *.
  assert (d <= 53) as Hd53.
  { destruct (Z.le_gt_cases d 53); [done|].
    assert (2 ^ 53 <= 2 ^ (d - 1)) by (apply Z.pow_le_mono_r; lia). lia. }
  assert (0 < 2 ^ (53 - d)) as Hpow by (apply Z.pow_pos_nonneg; lia).
  assert (2 ^ 52 <= K * 2 ^ (53 - d) < 2 ^ 53) as Hm.
  { assert (2 ^ 52 = 2 ^ (d - 1) * 2 ^ (53 - d)) as ->.
    { rewrite <- Z.pow_add_r by lia. f_equal. lia. }
    assert (2 ^ 53 = 2 ^ d * 2 ^ (53 - d)) as ->.
    { rewrite <- Z.pow_add_r by lia. f_equal. lia. }
    nia. }
  exists (Z.to_pos (K * 2 ^ (53 - d))), (d - 53).
  rewrite Z2Pos.id by lia.
  split; [unfold canonical; lia|]. split; [lia|]. split.
  - rewrite F2Q_shift by lia. by replace (d - 53 + (53 - d)) with 0 by lia.
  - cbn [is_integer]. rewrite Z2Pos.id by lia.
    replace (- (d - 53)) with (53 - d) by lia.
    rewrite Z.mod_mul by lia. apply orb_true_r.
Qed.

(** The value of an integer-valued positive number. *)
Lemma integer_value (m : positive) e :
  canonical (Zpos m) e -> is_integer (S754_finite false m e) = true ->
  exists K, 0 < K /\ (F2Q (Zpos m) e == F2Q K 0)%Q.
Proof.
  intros Hcan Hint. cbn [is_integer] in Hint.
  apply orb_true_iff in Hint as [He|Hmod].
  - apply Z.leb_le in He. exists (Zpos m * 2 ^ e).
    assert (0 < 2 ^ e) by (apply Z.pow_pos_nonneg; lia).
    split; [nia|]. by rewrite F2Q_shift by lia.
  - apply Z.eqb_eq in Hmod.
    destruct (Z.le_gt_cases 0 e) as [He|He].
    { exists (Zpos m * 2 ^ e).
      assert (0 < 2 ^ e) by (apply Z.pow_pos_nonneg; lia).
      split; [nia|]. by rewrite F2Q_shift by lia. }
    assert (0 < 2 ^ (- e)) as Hpow by (apply Z.pow_pos_nonneg; lia).
    apply Z.mod_divide in Hmod as [c Hc]; [|lia].
    exists c. split; [nia|].
    rewrite Hc, F2Q_shift by lia. by replace (e + - e) with 0 by lia.
Qed.

(** A canonical value of at least [2^53] has a positive exponent. *)
Lemma large_exponent m e :
  canonical m e -> (F2Q (2 ^ 53) 0 <= F2Q m e)%Q -> 1 <= e.
Proof.
  intros ([_ Hm] & _) Hle.
  destruct (Z.le_gt_cases 1 e) as [|He]; [done|].
  apply F2Q_le_r in Hle; [|lia].
  assert (0 < 2 ^ (0 - e)) by (apply Z.pow_pos_nonneg; lia).
  nia.
Qed.

(** Counting one more attempt. *)
Lemma attempts_step n :
  is_number n = true -> is_integer n = true -> (int 1 <=? n)%js = true ->
  is_number (n + int 1)%js = true /\ is_integer (n + int 1)%js = true /\
  (int 1 <=? n + int 1)%js = true /\ (n <=? n + int 1)%js = true.
Proof.
  intros Hv Hint H1.
  destruct n as [s|[]| |[] mn en]; try done.
  destruct (decide (mn = (2 ^ 53 - 1)%positive /\ en = 971)) as [[-> ->]|Hmax].
  { by vm_compute. }
  apply valid_finite in Hv as [Hcan Hen].
  assert (canonical 4503599627370496 (-52)) as Hcan1 by (unfold canonical; lia).
  rewrite int_1 in H1. pose proof (values_of_le _ _ _ _ Hcan1 Hcan H1) as Hge1.
  destruct (integer_value mn en Hcan Hint) as (K & HK & HvK).
  assert (F2Q 4503599627370496 (-52) == 1)%Q as V1 by (by vm_compute).
  (* the exact sum *)
  unfold add. rewrite int_1. cbn [SFadd cond_Zopp].
  set (ez := Z.min en (-52)).
  set (px := (shl_align mn en ez).1).
  set (py := (shl_align 4503599627370496 (-52) ez).1).
  change (Zpos px + Zpos py) with (Zpos (px + py)). cbn [binary_normalize].
  assert (F2Q (Zpos (px + py)) ez == F2Q (Zpos mn) en + 1)%Q as Hsum.
  { rewrite Pos2Z.inj_add, F2Q_add. unfold px, py.
    rewrite !F2Q_aligned by (unfold ez; lia). by rewrite V1. }
  set (r := binary_round prec emax false (px + py) ez).
  assert (F2Q (K + 1) 0 == F2Q (Zpos mn) en + 1)%Q as HK1.
  { rewrite F2Q_add, <- HvK. unfold F2Q. cbn. ring. }
  destruct (Z.le_gt_cases (K + 1) (2 ^ 53)) as [Hsmall|Hlarge].
  - (* the sum is a number: the addition is exact *)
    destruct (int_repr (K + 1) ltac:(lia)) as (m' & e' & Hcan' & He' & Hv' & Hint').
    assert (r = S754_finite false m' e') as ->.
    { pose proof (binary_round_upper (px + py) ez (Zpos m') e' Hcan' He') as [Hvr Hup].
      { rewrite Hsum, Hv', HK1. apply Qle_refl. }
      assert (F2Q (Zpos m') e' <= F2Q (Zpos (px + py)) ez)%Q as Hprem.
      { rewrite Hsum, Hv', HK1. apply Qle_refl. }
      pose proof (binary_round_lower (px + py) ez (Zpos m') e' Hcan' Hprem) as Hlow.
      fold r in Hvr, Hup, Hlow.
      destruct r as [z| | |[] mr er]; try done.
      apply valid_finite in Hvr as [Hcr _]. destruct Hlow as [_ Hlow].
      destruct (canonical_unique _ _ _ _ Hcr Hcan') as [Hm He].
      { by apply Qle_antisym. }
      by simplify_eq. }
    split; [by apply valid_finite|]. split; [done|].
    split; apply le_of_values; try done; rewrite Hv', HK1; lra.
  - (* the sum is rounded: the result has a positive exponent *)
    assert (F2Q (2 ^ 53) 0 <= F2Q (Zpos mn) en)%Q as Hbig.
    { rewrite HvK. apply F2Q_le. lia. }
    pose proof (large_exponent _ _ Hcan Hbig) as Hen1.
    destruct Hcan as ([Hmn0 Hmn53] & Henlo & Hnorm).
    specialize (Hnorm ltac:(lia)).
    assert (exists mh eh, canonical mh eh /\ eh <= 971 /\
              (F2Q (Zpos mn) en + 1 <= F2Q mh eh)%Q) as (mh & eh & Hch & Heh & Hh).
    { assert (F2Q (Zpos mn) en + 1 <= F2Q (Zpos mn + 1) en)%Q as Hnext.
      { rewrite F2Q_add. apply Qplus_le_r.
        assert (1 == F2Q 1 0)%Q as -> by (by vm_compute).
        apply F2Q_le_l; [lia|].
        assert (1 <= 2 ^ (en - 0)); [|lia].
        change 1 with (2 ^ 0) at 1. apply Z.pow_le_mono_r; lia. }
      destruct (Z.eq_dec (Zpos mn + 1) (2 ^ 53)) as [Hcarry|Hnc].
      - exists (2 ^ 52), (en + 1). split; [unfold canonical; lia|].
        split; [destruct (Z.eq_dec en 971); [|lia]; destruct Hmax; split; lia|].
        rewrite <- (F2Q_shift _ en 1) by lia.
        by replace (2 ^ 52 * 2 ^ 1) with (Zpos mn + 1) by lia.
      - exists (Zpos mn + 1), en. split; [unfold canonical; lia|]. by split. }
    pose proof (binary_round_upper (px + py) ez mh eh Hch Heh) as [Hvr Hup].
    { by rewrite Hsum. }
    assert (F2Q (Zpos mn) en <= F2Q (Zpos (px + py)) ez)%Q as Hprem.
    { rewrite Hsum. lra. }
    pose proof (binary_round_lower (px + py) ez (Zpos mn) en
                  ltac:(unfold canonical; lia) Hprem) as Hlow.
    fold r in Hvr, Hup, Hlow.
    destruct r as [z| | |[] mr er]; try done.
    destruct Hlow as [_ Hlow].
    pose proof Hvr as Hvr'. apply valid_finite in Hvr' as [Hcr _].
    assert (1 <= er) as Her.
    { apply (large_exponent (Zpos mr)); [done|]. by eapply Qle_trans. }
    split; [done|]. split.
    { cbn [is_integer]. apply orb_true_iff. left. apply Z.leb_le. lia. }
    split.
    + apply le_of_values; [done | done |]. by eapply Qle_trans.
    + apply le_of_values; [unfold canonical; lia | done | done].
Qed.

End Score.

(** * Properties of the store *)

Section Store.

Implicit Types (t : StatsTable) (r : FactRecord) (ls : localStorage).

Lemma as_field_of_field f : as_field (of_field f) = Some f.
Proof. by destruct f. Qed.

Lemma as_record_of_record r : as_record (of_record r) = Some r.
Proof. destruct r as [[|c] [|n]]; reflexivity. Qed.

Lemma as_table_of_table t : as_table (of_table t) = Some t.
Proof.
  unfold as_table, of_table.
  case_decide as Hall.
  - f_equal. apply map_eq; intros k.
    rewrite lookup_omap, lookup_fmap.
    destruct (t !! k) as [r|]; [apply as_record_of_record | done].
  - destruct Hall. intros k x. rewrite lookup_fmap.
    destruct (t !! k) as [r|]; [|done].
    cbn [fmap option_fmap option_map].
    intros [= <-]. rewrite as_record_of_record. by eexists.
Qed.

(** What [JSON.stringify] does to the numbers of a record and of a table. *)
Lemma written_of_field f : written (of_field f) = of_field (written_field f).
Proof. by destruct f. Qed.

Lemma written_of_record r : written (of_record r) = of_record (written_record r).
Proof.
  unfold of_record. cbn [written written_record confidence attempts].
  by rewrite !fmap_insert, fmap_empty, !written_of_field.
Qed.

Lemma written_of_table t : written (of_table t) = of_table (written_record <$> t).
Proof.
  unfold of_table. cbn [written]. f_equal.
  rewrite <- !map_fmap_compose. apply map_fmap_ext.
  intros k r _. apply written_of_record.
Qed.

Lemma written_number_idem x : written_field (written_number x) = written_number x.
Proof. by destruct x. Qed.

Lemma written_field_idem f : written_field (written_field f) = written_field f.
Proof. destruct f; [done | apply written_number_idem]. Qed.

Lemma written_record_idem r : written_record (written_record r) = written_record r.
Proof. unfold written_record. cbn. by rewrite !written_field_idem. Qed.

Lemma written_table_idem t :
  written_record <$> (written_record <$> t) = written_record <$> t.
Proof.
  rewrite <- map_fmap_compose. apply map_fmap_ext.
  intros k r _. apply written_record_idem.
Qed.

Lemma loadStats_saveStats v ls : loadStats (saveStats v ls) = written v.
Proof.
  unfold loadStats, saveStats, getItem, setItem.
  by rewrite lookup_insert_eq.
Qed.

(** A table is read back as it was written: with [null] for the numbers that
    are not finite. *)
Lemma table_of_saveStats t ls :
  table_of (saveStats (of_table t) ls) = Some (written_record <$> t).
Proof.
  unfold table_of.
  by rewrite loadStats_saveStats, written_of_table, as_table_of_table.
Qed.

(** A number that has been written is read back as it is. *)
Lemma as_field_written v f : as_field (written v) = Some f → written_field f = f.
Proof. destruct v as [| |[]| | |]; try done; by intros [= <-]. Qed.

Lemma as_record_written v r : as_record (written v) = Some r → written_record r = r.
Proof.
  destruct v as [| |x| | |f]; try done; [by destruct x|].
  cbn [written as_record]. rewrite !lookup_fmap.
  destruct (f !! "confidence") as [c|]; [|done].
  destruct (f !! "attempts") as [n|]; cbn [fmap option_fmap option_map mbind option_bind].
  - destruct (as_field (written c)) as [c'|] eqn:Hc; [|done].
    destruct (as_field (written n)) as [n'|] eqn:Hn; [|done].
    case_decide; [|done]. intros [= <-]. unfold written_record. cbn.
    by rewrite (as_field_written c c' Hc), (as_field_written n n' Hn).
  - by destruct (as_field (written c)).
Qed.

(** In a store that the program owns, the table is one that is read back as
    it is. *)
Lemma saved_table ls t : saved ls → table_of ls = Some t → written_record <$> t = t.
Proof.
  unfold saved, table_of, loadStats. intros Hsaved.
  destruct (getItem STORAGE_KEY ls) as [raw|] eqn:Hraw.
  - destruct (Hsaved raw eq_refl) as [v ->].
    cbn [JSON_stringify truthy JSON_parse].
    destruct v as [| |x| | |m]; try done; [by destruct x|].
    cbn [written as_table]. case_decide as Hall; [|done]. intros [= <-].
    apply map_eq. intros k. rewrite lookup_fmap, !lookup_omap, lookup_fmap.
    destruct (m !! k) as [x|]; [|done].
    cbn [fmap option_fmap option_map mbind option_bind].
    destruct (as_record (written x)) as [r|] eqn:Hr; [|done].
    cbn [fmap option_fmap option_map]. by rewrite (as_record_written x r Hr).
  - cbn [as_table]. case_decide; [|done]. intros [= <-].
    by rewrite omap_empty, fmap_empty.
Qed.

Lemma saved_saveStats v ls : saved (saveStats v ls).
Proof.
  intros raw. unfold saveStats, getItem, setItem.
  rewrite lookup_insert_eq. intros [= <-]. by exists v.
Qed.

Lemma one_minus_alpha : (int 1 - EMA_ALPHA)%js = dec 7 10.
Proof. vm_compute. reflexivity. Qed.

Lemma updateStats_table a b correct timeSec ls t :
  table_of ls = Some t →
  updateStats a b correct timeSec ls =
    Some (saveStats
            (of_table (<[statKey a b :=
               updated (t !! statKey a b) (computeScore correct timeSec)]> t)) ls).
Proof.
  unfold table_of, updateStats. intros ->. cbn [mbind option_bind].
  rewrite one_minus_alpha. unfold updated, EMA_ALPHA.
  destruct (t !! statKey a b); reflexivity.
Qed.

(** One update: the record of the key is replaced, and the whole table is
    written back. *)
Lemma updateStats_table_of a b correct timeSec ls t :
  table_of ls = Some t →
  ∃ ls', updateStats a b correct timeSec ls = Some ls' ∧
    table_of ls' =
      Some (written_record <$>
              <[statKey a b :=
                  updated (t !! statKey a b) (computeScore correct timeSec)]> t).
Proof.
  intros Ht. eexists. split; [by apply updateStats_table|].
  apply table_of_saveStats.
Qed.


(** For a table that is read back as it is, an update rewrites the record of
    the key only. *)
Lemma updateStats_lookup a b correct timeSec ls t :
  table_of ls = Some t → written_record <$> t = t →
  ∃ ls' t', updateStats a b correct timeSec ls = Some ls' ∧
    table_of ls' = Some t' ∧ written_record <$> t' = t' ∧
    t' !! statKey a b =
      Some (written_record
              (updated (t !! statKey a b) (computeScore correct timeSec))) ∧
    ∀ k, k ≠ statKey a b → t' !! k = t !! k.
Proof.
  intros Ht Hw.
  destruct (updateStats_table_of a b correct timeSec ls t Ht) as (ls' & Hup & Ht').
  eexists ls', _. split; [exact Hup|]. split; [exact Ht'|]. split_and!.
  - apply written_table_idem.
  - by rewrite lookup_fmap, lookup_insert_eq.
  - intros k Hk. rewrite lookup_fmap, lookup_insert_ne by done.
    by rewrite <- lookup_fmap, Hw.
Qed.

End Store.

(** * Properties of the random source *)

Lemma floor_mul_lt u n : (0 < n)%nat → (floor_mul u n < n)%nat.
Proof.
  intros Hn. unfold floor_mul.
  assert (u mod unit_bits < unit_bits)%N as Hu by (by apply N.mod_lt).
  assert ((u mod unit_bits) * N.of_nat n / unit_bits < N.of_nat n)%N; [|lia].
  apply N.Div0.div_lt_upper_bound. nia.
Qed.

(** The index drawn at the step with counter [i] lies in [0..i]. *)
Lemma floor_mul_le u i : (floor_mul u (i + 1) ≤ i)%nat.
Proof. pose proof (floor_mul_lt u (i + 1)). lia. Qed.

(** Every index below [n] is drawn by some number of the oracle. *)
Lemma floor_mul_onto n j :
  (j < n)%nat → (N.of_nat n ≤ unit_bits)%N → ∃ u, floor_mul u n = j.
Proof.
  intros Hj Hn. unfold floor_mul.
  assert (0 < unit_bits)%N as HM by (by vm_compute).
  assert (N.of_nat j < N.of_nat n)%N as Hj' by lia.
  assert (N.to_nat (N.of_nat j) = j) as Hjj by lia.
  revert Hn HM Hj' Hjj.
  generalize unit_bits (N.of_nat n) (N.of_nat j). intros M n' j' Hn HM Hj' <-.
  set (u := ((j' * M + n' - 1) / n')%N). exists u.
  pose proof (N.Div0.div_mod (j' * M + n' - 1) n') as Hdm. fold u in Hdm.
  pose proof (N.mod_lt (j' * M + n' - 1) n' ltac:(lia)) as Hrem.
  set (r := ((j' * M + n' - 1) mod n')%N) in *. clearbody u r.
  assert (j' * M ≤ n' * u ∧ n' * u < j' * M + n')%N as [Hlo Hhi] by lia.
  assert (u < M)%N as Hu by nia.
  rewrite (N.mod_small u M Hu). f_equal.
  symmetry. apply (N.div_unique (u * n') M j' (u * n' - j' * M)); nia.
Qed.

(** Both outcomes of the display coin are drawn. *)
Lemma below_half_both :
  below_half 0%N = true ∧ below_half (unit_bits / 2)%N = false.
Proof. split; reflexivity. Qed.

(** * Properties of the shuffle *)

Section Shuffle.

Context {A : Type}.
Implicit Types (arr : list A) (g : rng) (u : draw).

Lemma swap_perm i j arr : swap i j arr ≡ₚ arr.
Proof.
  unfold swap.
  destruct (arr !! i) as [x|] eqn:Hi; [|done].
  destruct (arr !! j) as [y|] eqn:Hj; [|done].
  by apply Permutation_insert_swap.
Qed.

(** Inside the shuffle both indices are inside the array. *)
Lemma swap_inside i j arr :
  (j ≤ i)%nat → (i < length arr)%nat →
  ∃ x y, arr !! i = Some x ∧ arr !! j = Some y ∧
         swap i j arr = <[j := x]> (<[i := y]> arr).
Proof.
  intros Hj Hi.
  destruct (lookup_lt_is_Some_2 arr i Hi) as [x Hx].
  destruct (lookup_lt_is_Some_2 arr j ltac:(lia)) as [y Hy].
  exists x, y. unfold swap. by rewrite Hx, Hy.
Qed.

Lemma swap_lookup i j arr x y :
  arr !! i = Some x → arr !! j = Some y →
  swap i j arr !! i = Some y ∧ swap i j arr !! j = Some x.
Proof.
  intros Hi Hj. unfold swap. rewrite Hi, Hj.
  pose proof (lookup_lt_Some _ _ _ Hi). pose proof (lookup_lt_Some _ _ _ Hj).
  destruct (decide (i = j)) as [->|Hne].
  - simplify_eq. rewrite list_insert_insert_eq.
    by rewrite list_lookup_insert_eq.
  - split.
    + rewrite list_lookup_insert_ne by done.
      by rewrite list_lookup_insert_eq.
    + rewrite list_lookup_insert_eq; [done|]. by rewrite length_insert.
Qed.

Lemma shuffle_from_perm i arr g : (shuffle_from i arr g).1 ≡ₚ arr.
Proof.
  revert arr g. induction i as [|i IH]; intros arr g; [done|].
  cbn [shuffle_from]. destruct (random g) as [u g'].
  rewrite IH. apply swap_perm.
Qed.

Lemma shuffle_perm arr g : (shuffle arr g).1 ≡ₚ arr.
Proof. apply shuffle_from_perm. Qed.

Lemma shuffle_length arr g : length (shuffle arr g).1 = length arr.
Proof. by rewrite shuffle_perm. Qed.

End Shuffle.

(** * Properties of the question generator *)

Section Generator.

Implicit Types (f : Fact.t) (q : Question.t) (g : rng) (u : draw).

Lemma displays_unordered fs qs :
  Forall2 displays fs qs → unordered_fact <$> fs = unordered_question <$> qs.
Proof.
  induction 1 as [|f q fs qs [_ Hfq] _ IH]; [done|].
  cbn [fmap list_fmap]. f_equal; [|exact IH].
  unfold unordered_fact, unordered_question, unordered.
  destruct Hfq as [[-> ->]|[-> ->]]; f_equal; lia.
Qed.

Lemma present_displays f u : displays f (present f u).
Proof. unfold displays, present. destruct (below_half u); cbn; auto. Qed.

Lemma present_all_displays fs g : Forall2 displays fs (present_all fs g).1.
Proof.
  revert g. induction fs as [|f fs IH]; intros g; cbn [present_all].
  - constructor.
  - destruct (random g) as [u g1]. specialize (IH g1).
    destruct (present_all fs g1) as [shown g2]. cbn in *.
    constructor; [apply present_displays | done].
Qed.

Lemma displays_answer f q :
  displays f q → Question.answer q = (Question.a q * Question.b q)%Z.
Proof. intros [-> [[-> ->]|[-> ->]]]; lia. Qed.

Lemma displays_in_table f q :
  displays f q → in_table f →
  (1 ≤ Question.a q ≤ 12 ∧ 1 ≤ Question.b q ≤ 12)%Z.
Proof. unfold in_table. intros [_ [[-> ->]|[-> ->]]]; lia. Qed.

(** The mixed loop ends within [TOTAL_QUESTIONS] iterations. *)
Lemma fill_mixed_spec fuel fs g :
  (TOTAL_QUESTIONS - length fs ≤ fuel)%nat →
  (length fs ≤ TOTAL_QUESTIONS)%nat →
  Forall in_table fs →
  ∃ fs' g', fill_mixed fuel fs g = Some (fs', g') ∧
    length fs' = TOTAL_QUESTIONS ∧ Forall in_table fs'.
Proof.
  revert fs g. induction fuel as [|fuel IH]; intros fs g Hfuel Hlen Hfs;
    cbn [fill_mixed].
  - destruct (Nat.ltb_spec (length fs) TOTAL_QUESTIONS); [lia|].
    exists fs, g. repeat split; [lia | done].
  - destruct (Nat.ltb_spec (length fs) TOTAL_QUESTIONS).
    + destruct (random g) as [u1 g1]. destruct (random g1) as [u2 g2].
      apply IH.
      * rewrite length_app. cbn [length]. unfold TOTAL_QUESTIONS in *. lia.
      * rewrite length_app. cbn [length]. unfold TOTAL_QUESTIONS in *. lia.
      * apply Forall_app. split; [done|]. constructor; [|constructor].
        pose proof (floor_mul_lt u1 12). pose proof (floor_mul_lt u2 12).
        unfold in_table. cbn. lia.
    + exists fs, g. repeat split; [lia | done].
Qed.

(** Reading a 12-element pool cyclically into 15 slots. *)
Lemma cyclic_fill (pool : list Fact.t) :
  length pool = 12%nat →
  mapM (λ i, pool !! (i mod length pool)%nat) (seq 0 TOTAL_QUESTIONS) =
    Some (pool ++ take 3 pool).
Proof.
  intros Hlen.
  do 13 (destruct pool as [|? pool]; try discriminate Hlen).
  reflexivity.
Qed.

Lemma pool_of_length n : length (pool_of n) = 12%nat.
Proof. reflexivity. Qed.

Lemma pool_of_in_table n : (1 ≤ n ≤ 12)%Z → Forall in_table (pool_of n).
Proof.
  intros Hn. unfold pool_of. apply Forall_fmap, Forall_forall.
  intros i [? ?]%elem_of_seqZ. unfold in_table. cbn. lia.
Qed.

(** The table buttons carry the decimal numerals of 1 to 12. *)
Lemma parseInt_pretty n :
  (1 ≤ n ≤ 12)%Z → parseInt (pretty n) = Some n ∧ pretty n ≠ "mixed".
Proof.
  intros Hn.
  assert (n ∈ seqZ 1 12) as Hin by (apply elem_of_seqZ; lia).
  cbv [seqZ seq fmap list_fmap Z.to_nat Pos.to_nat Pos.iter_op Nat.add
       Z.of_nat Z.add Pos.of_succ_nat Pos.succ Pos.add] in Hin.
  repeat (apply elem_of_cons in Hin as [->|Hin]; [by vm_compute|]).
  by apply elem_of_nil in Hin.
Qed.

(** The fixed-table branch, step by step. *)
Lemma generateQuestions_fixed table n g :
  table ≠ "mixed" → parseInt table = Some n →
  ∃ pool g1 fs g2,
    shuffle (pool_of n) g = (pool, g1) ∧
    shuffle (pool ++ take 3 pool) g1 = (fs, g2) ∧
    generateQuestions table g = Some (present_all fs g2).
Proof.
  intros Hmixed Hparse. unfold generateQuestions.
  rewrite decide_False by done. rewrite Hparse. cbn [mbind option_bind].
  fold (pool_of n).
  pose proof (shuffle_length (pool_of n) g) as Hlen.
  destruct (shuffle (pool_of n) g) as [pool g1].
  cbn [fst] in Hlen. rewrite pool_of_length in Hlen.
  rewrite cyclic_fill by done. cbn [mbind option_bind].
  destruct (shuffle (pool ++ take 3 pool) g1) as [fs g2] eqn:Hfs.
  by exists pool, g1, fs, g2.
Qed.

(** The facts behind the questions of a valid mode. *)
Lemma generateQuestions_facts table g :
  valid_mode table →
  ∃ fs g2, generateQuestions table g = Some (present_all fs g2) ∧
    length fs = TOTAL_QUESTIONS ∧ Forall in_table fs.
Proof.
  intros [->|(n & Hn & ->)].
  - destruct (fill_mixed_spec TOTAL_QUESTIONS [] g) as (fs & g2 & Hfill & ? & ?);
      [unfold TOTAL_QUESTIONS; cbn [length]; lia ..| constructor |].
    exists fs, g2. unfold generateQuestions.
    rewrite decide_True by done. rewrite Hfill. done.
  - destruct (parseInt_pretty n Hn) as [Hparse Hmixed].
    destruct (generateQuestions_fixed _ n g Hmixed Hparse)
      as (pool & g1 & fs & g2 & Hpool & Hfs & ->).
    exists fs, g2. split; [done|].
    assert (pool ≡ₚ pool_of n) as Hperm.
    { rewrite <- (shuffle_perm (pool_of n) g). by rewrite Hpool. }
    assert (fs ≡ₚ pool ++ take 3 pool) as Hperm'.
    { rewrite <- (shuffle_perm (pool ++ take 3 pool) g1). by rewrite Hfs. }
    assert (Forall in_table pool) as Hpool_ok.
    { rewrite Hperm. by apply pool_of_in_table. }
    split.
    + rewrite Hperm', length_app, length_take, Hperm, pool_of_length. done.
    + rewrite Hperm'. apply Forall_app. split; [done|]. by apply Forall_take.
Qed.

End Generator.

(** * The invariant of the stats table *)

Section Invariant.

Lemma within_range b x :
  within b x Q100 →
  is_number x = true ∧ (int 0 <=? x)%js = true ∧ (x <=? int 100)%js = true.
Proof.
  intros Hx. split; [apply Hx|].
  apply (within_le b x 7036874417766400 (-46)); [done|]. unfold canonical. lia.
Qed.

Lemma range_within x :
  is_number x = true → (int 0 <=? x)%js = true → (x <=? int 100)%js = true →
  within true x Q100.
Proof.
  intros Hv H0 H100. apply le_within; [done | unfold canonical; lia | done | done].
Qed.

Lemma counter_shape n :
  is_number n = true → is_integer n = true → (int 1 <=? n)%js = true →
  ∃ m e, n = S754_finite false m e ∧ canonical (Zpos m) e.
Proof.
  intros Hv Hint H1. destruct n as [s|[]| |[] m e]; try done.
  exists m, e. split; [done|]. by apply valid_finite in Hv as [? _].
Qed.

(** The numbers of a record that keeps the invariant are written as they
    are, but for the sign of a zero. *)
Lemma within_written x h : within false x h → written_number x = Num x.
Proof. intros [_ Hx]. by destruct x as [[]|[]| |[] m e]. Qed.

Lemma counter_written n :
  is_number n = true → is_integer n = true → (int 1 <=? n)%js = true →
  written_number n = Num n.
Proof.
  intros Hv Hint H1. by destruct (counter_shape n Hv Hint H1) as (m & e & -> & _).
Qed.

Lemma written_in_range c :
  is_number c = true → (int 0 <=? c)%js = true → (c <=? int 100)%js = true →
  ∃ c', written_number c = Num c' ∧ is_number c' = true ∧
    (int 0 <=? c')%js = true ∧ (c' <=? int 100)%js = true.
Proof.
  intros Hv H0 H100. destruct c as [s|[]| |[] m e]; try done.
  - by exists (S754_zero false).
  - by eexists.
Qed.

Lemma written_good r :
  good_record r →
  good_record (written_record r) ∧ attempts (written_record r) = attempts r.
Proof.
  intros (c & n & Hc & Hn & Hcv & Hc0 & Hc100 & Hnv & Hni & Hn1).
  destruct r as [rc rn]. cbn [confidence attempts] in *. subst rc rn.
  unfold written_record. cbn [confidence attempts written_field].
  rewrite (counter_written n Hnv Hni Hn1).
  destruct (written_in_range c Hcv Hc0 Hc100) as (c' & -> & ? & ? & ?).
  split; [|done]. by exists c', n.
Qed.

Lemma updated_good old correct timeSec :
  (∀ r, old = Some r → good_record r) →
  is_number timeSec = true → is_nan timeSec = false →
  good_record (updated old (computeScore correct timeSec)).
Proof.
  intros Hold Hv Hnan.
  pose proof (computeScore_within correct timeSec Hv Hnan) as Hs.
  destruct old as [r|]; cbn [updated].
  - destruct (Hold r eq_refl) as (c & n & -> & -> & Hcv & Hc0 & Hc100 & Hav & Hai & Ha1).
    cbn [ToNumber].
    pose proof (ema_within _ _ (range_within _ Hcv Hc0 Hc100) Hs) as Hema.
    destruct (within_range _ _ Hema) as (? & ? & ?).
    destruct (attempts_step _ Hav Hai Ha1) as (? & ? & ? & _).
    eexists _, _. by repeat split.
  - destruct (within_range _ _ Hs) as (? & ? & ?).
    eexists _, _. by repeat split.
Qed.

Lemma updated_attempts r s :
  good_record r →
  (ToNumber (attempts r) <=? ToNumber (attempts (updated (Some r) s)))%js = true.
Proof.
  intros (c & n & _ & Hn & _ & _ & _ & Hav & Hai & Ha1).
  cbn [updated attempts]. rewrite Hn. cbn [ToNumber].
  by destruct (attempts_step _ Hav Hai Ha1) as (_ & _ & _ & ?).
Qed.

Lemma attempts_le_refl r :
  good_record r → (ToNumber (attempts r) <=? ToNumber (attempts r))%js = true.
Proof.
  intros (c & n & _ & -> & _ & _ & _ & Hav & Hai & Ha1). cbn [ToNumber].
  destruct (counter_shape _ Hav Hai Ha1) as (m & e & -> & Hc).
  apply le_of_values; [done | done | apply Qle_refl].
Qed.

Lemma attempts_le_trans r1 r2 r3 :
  good_record r1 → good_record r2 → good_record r3 →
  (ToNumber (attempts r1) <=? ToNumber (attempts r2))%js = true →
  (ToNumber (attempts r2) <=? ToNumber (attempts r3))%js = true →
  (ToNumber (attempts r1) <=? ToNumber (attempts r3))%js = true.
Proof.
  intros (? & n1 & _ & -> & _ & _ & _ & Hv1 & Hi1 & H1)
    (? & n2 & _ & -> & _ & _ & _ & Hv2 & Hi2 & H2)
    (? & n3 & _ & -> & _ & _ & _ & Hv3 & Hi3 & H3).
  cbn [ToNumber].
  destruct (counter_shape _ Hv1 Hi1 H1) as (m1 & e1 & -> & Hc1).
  destruct (counter_shape _ Hv2 Hi2 H2) as (m2 & e2 & -> & Hc2).
  destruct (counter_shape _ Hv3 Hi3 H3) as (m3 & e3 & -> & Hc3).
  intros H12 H23. apply values_of_le in H12, H23; try done.
  apply le_of_values; [done | done |]. by eapply Qle_trans.
Qed.

(** One update keeps the invariant, and no record loses attempts. *)
Lemma update_step (t : StatsTable) key correct timeSec :
  good_table t → is_number timeSec = true → is_nan timeSec = false →
  let t' := written_record <$>
              <[key := updated (t !! key) (computeScore correct timeSec)]> t in
  good_table t' ∧
  ∀ k r, t !! k = Some r →
    ∃ r', t' !! k = Some r' ∧
      (ToNumber (attempts r) <=? ToNumber (attempts r'))%js = true.
Proof.
  intros Hgood Hv Hnan t'.
  assert (good_record (updated (t !! key) (computeScore correct timeSec))) as Hup.
  { apply updated_good; [|done|done]. intros r Hr. by apply (Hgood key). }
  split.
  - intros k r'. unfold t'. rewrite lookup_fmap.
    destruct (decide (k = key)) as [->|Hne].
    + rewrite lookup_insert_eq. cbn [fmap option_fmap option_map].
      intros [= <-]. by apply written_good.
    + rewrite lookup_insert_ne by done.
      destruct (t !! k) as [r|] eqn:Hr; [|done].
      cbn [fmap option_fmap option_map]. intros [= <-].
      apply written_good. by apply (Hgood k).
  - intros k r Hr. unfold t'. rewrite lookup_fmap.
    destruct (decide (k = key)) as [->|Hne].
    + rewrite lookup_insert_eq, Hr. cbn [fmap option_fmap option_map].
      eexists. split; [done|].
      destruct (written_good _ Hup) as [_ Heq]. rewrite Hr in Heq. rewrite Heq.
      apply updated_attempts. by apply (Hgood key).
    + rewrite lookup_insert_ne, Hr by done. cbn [fmap option_fmap option_map].
      eexists. split; [done|].
      destruct (written_good r (Hgood k r Hr)) as [_ ->].
      apply attempts_le_refl. by apply (Hgood k).
Qed.

End Invariant.

(** * The claims on the generator and the shuffle *)

(** C10: [shuffle] returns a permutation of its input, whatever the draws:
    the multiset of elements and the length are preserved.  At the step with
    counter [i] the index drawn lies in [0..i], and each index of [0..i] is
    drawn by some number of the oracle. *)
Theorem shuffle_permutation {A} (arr : list A) (g : rng) :
  (∀ u i, (floor_mul u (i + 1) ≤ i)%nat) ∧
  (∀ i j, (j ≤ i)%nat → (N.of_nat (i + 1) ≤ unit_bits)%N →
     ∃ u, floor_mul u (i + 1) = j) ∧
  (shuffle arr g).1 ≡ₚ arr ∧
  length (shuffle arr g).1 = length arr.
Proof.
  split; [apply floor_mul_le|]. split.
  { intros i j Hj Hi. apply floor_mul_onto; [lia | done]. }
  split; [apply shuffle_perm | apply shuffle_length].
Qed.

(** C6: for a valid mode and every random stream, [generateQuestions] returns
    exactly 15 questions; each has operands in 1..12, its answer is the
    product of the operands of the fact it was built from, and the equation
    [answer = a * b] holds on the displayed operands. *)
Theorem generateQuestions_fifteen (table : string) (g : rng) :
  valid_mode table →
  ∃ fs qs g',
    generateQuestions table g = Some (qs, g') ∧
    length qs = 15%nat ∧
    Forall2 displays fs qs ∧
    Forall (λ q, (1 ≤ Question.a q ≤ 12)%Z ∧ (1 ≤ Question.b q ≤ 12)%Z ∧
                 Question.answer q = (Question.a q * Question.b q)%Z) qs.
Proof.
  intros Hmode.
  destruct (generateQuestions_facts table g Hmode) as (fs & g2 & -> & Hlen & Hfs).
  pose proof (present_all_displays fs g2) as Hdisp.
  destruct (present_all fs g2) as [qs g'] eqn:Hqs. cbn [fst] in Hdisp.
  exists fs, qs, g'. split; [done|]. split.
  { by rewrite <- (Forall2_length _ _ _ Hdisp). }
  split; [done|].
  clear Hqs Hlen. induction Hdisp as [|f q fs qs Hfq _ IH]; [constructor|].
  apply Forall_cons in Hfs as [Hf Hfs]. constructor; [|by apply IH].
  destruct (displays_in_table f q Hfq Hf).
  split; [done|]. split; [done|]. by eapply displays_answer.
Qed.

Lemma generateQuestions_fifteen_witness :
  valid_mode "7" ∧
  ∃ fs qs g',
    generateQuestions "7" (λ _, 0%N) = Some (qs, g') ∧
    length qs = 15%nat ∧
    Forall2 displays fs qs ∧
    Forall (λ q, (1 ≤ Question.a q ≤ 12)%Z ∧ (1 ≤ Question.b q ≤ 12)%Z ∧
                 Question.answer q = (Question.a q * Question.b q)%Z) qs.
Proof.
  assert (valid_mode "7") as H.
  { right. exists 7%Z. split; [lia | reflexivity]. }
  split; [exact H | exact (generateQuestions_fifteen "7" (λ _, 0%N) H)].
Defined.

(** C7: for a table [n] in 1..12 and every random stream, the 15 questions,
    read as unordered pairs, are the 12 facts of the table together with 3
    more taken from the pool; so each fact [(n, i)] is asked at least once. *)
Theorem generateQuestions_coverage (n : Z) (g : rng) :
  (1 ≤ n ≤ 12)%Z →
  ∃ qs g' extra,
    generateQuestions (pretty n) g = Some (qs, g') ∧
    length qs = 15%nat ∧
    length extra = 3%nat ∧ extra ⊆ pool_of n ∧
    unordered_question <$> qs ≡ₚ unordered_fact <$> (pool_of n ++ extra) ∧
    ∀ i, (1 ≤ i ≤ 12)%Z →
      ∃ q, q ∈ qs ∧ unordered_question q = unordered n i.
Proof.
  intros Hn.
  destruct (parseInt_pretty n Hn) as [Hparse Hmixed].
  destruct (generateQuestions_fixed _ n g Hmixed Hparse)
    as (pool & g1 & fs & g2 & Hpool & Hfs & ->).
  assert (pool ≡ₚ pool_of n) as Hperm.
  { rewrite <- (shuffle_perm (pool_of n) g). by rewrite Hpool. }
  assert (fs ≡ₚ pool ++ take 3 pool) as Hperm'.
  { rewrite <- (shuffle_perm (pool ++ take 3 pool) g1). by rewrite Hfs. }
  pose proof (present_all_displays fs g2) as Hdisp.
  destruct (present_all fs g2) as [qs g'] eqn:Hqs. cbn [fst] in Hdisp.
  assert (unordered_question <$> qs ≡ₚ
          unordered_fact <$> (pool_of n ++ take 3 pool)) as Hqs_perm.
  { rewrite <- (displays_unordered _ _ Hdisp), Hperm'.
    rewrite !fmap_app. apply Permutation_app; [|done].
    by apply fmap_Permutation. }
  exists qs, g', (take 3 pool). split; [done|].
  assert (length pool = 12%nat) as Hlen by (by rewrite Hperm).
  split_and!.
  - rewrite <- (Forall2_length _ _ _ Hdisp), Hperm', length_app, length_take. lia.
  - rewrite length_take. lia.
  - intros f Hf. rewrite <- Hperm. by eapply subseteq_take.
  - done.
  - intros i Hi.
    assert (unordered n i ∈ unordered_question <$> qs) as Hin.
    { rewrite Hqs_perm, fmap_app. apply elem_of_app. left.
      apply list_elem_of_fmap. exists {| Fact.a := n; Fact.b := i |}.
      split; [done|]. unfold pool_of. apply list_elem_of_fmap.
      exists i. split; [done|]. apply elem_of_seqZ. lia. }
    apply list_elem_of_fmap in Hin as (q & Hq & Hin). by exists q.
Qed.

Lemma generateQuestions_coverage_witness :
  (1 ≤ 7 ≤ 12)%Z ∧
  ∃ qs g' extra,
    generateQuestions (pretty 7%Z) (λ _, 0%N) = Some (qs, g') ∧
    length qs = 15%nat ∧
    length extra = 3%nat ∧ extra ⊆ pool_of 7 ∧
    unordered_question <$> qs ≡ₚ unordered_fact <$> (pool_of 7 ++ extra) ∧
    ∀ i, (1 ≤ i ≤ 12)%Z →
      ∃ q, q ∈ qs ∧ unordered_question q = unordered 7 i.
Proof.
  assert (1 ≤ 7 ≤ 12)%Z as H by lia.
  split; [exact H | exact (generateQuestions_coverage 7 (λ _, 0%N) H)].
Defined.

(** * The claims on the store *)






(** C8: the key is order-sensitive.  For distinct operands in 1..12 the keys
    of [(a, b)] and [(b, a)] differ, so an update for [(a, b)] followed by one
    for [(b, a)] leaves two records: the first update creates or modifies the
    record of [(a, b)] and writes back that of [(b, a)] as it was, the second
    creates or modifies the record of [(b, a)] and leaves that of [(a, b)]. *)
Theorem statKey_order_sensitive (a b : Z) :
  (1 ≤ a ≤ 12)%Z → (1 ≤ b ≤ 12)%Z → a ≠ b →
  statKey a b ≠ statKey b a ∧
  ∀ ls t c1 time1 c2 time2,
    table_of ls = Some t →
    ∃ ls1 ls2 t1 t2,
      updateStats a b c1 time1 ls = Some ls1 ∧ table_of ls1 = Some t1 ∧
      updateStats b a c2 time2 ls1 = Some ls2 ∧ table_of ls2 = Some t2 ∧
      t1 !! statKey a b =
        Some (written_record (updated (t !! statKey a b) (computeScore c1 time1))) ∧
      t1 !! statKey b a = written_record <$> t !! statKey b a ∧
      t2 !! statKey a b = t1 !! statKey a b ∧
      t2 !! statKey b a =
        Some (written_record (updated (t1 !! statKey b a) (computeScore c2 time2))).
Proof.
  intros Ha Hb Hab.
  assert (statKey a b ≠ statKey b a) as Hkey.
  { assert (forallb (λ x, forallb (λ y,
              (x =? y)%Z || negb (String.eqb (statKey x y) (statKey y x)))
              (seqZ 1 12)) (seqZ 1 12) = true) as Hall
      by (vm_compute; reflexivity).
    rewrite forallb_forall in Hall.
    specialize (Hall a). rewrite forallb_forall in Hall.
    specialize (Hall ltac:(apply list_elem_of_In, elem_of_seqZ; lia) b
                     ltac:(apply list_elem_of_In, elem_of_seqZ; lia)).
    apply orb_true_iff in Hall as [Heq|Hne].
    - apply Z.eqb_eq in Heq. done.
    - apply negb_true_iff in Hne. by apply String.eqb_neq in Hne. }
  split; [exact Hkey|].
  intros ls t c1 time1 c2 time2 Ht.
  destruct (updateStats_table_of a b c1 time1 ls t Ht) as (ls1 & Hup1 & Ht1).
  destruct (updateStats_lookup b a c2 time2 ls1 _ Ht1 (written_table_idem _))
    as (ls2 & t2 & Hup2 & Ht2 & _ & Hba & Hother).
  eexists ls1, ls2, _, t2. split; [exact Hup1|]. split; [exact Ht1|].
  split; [exact Hup2|]. split; [exact Ht2|]. split_and!.
  - by rewrite lookup_fmap, lookup_insert_eq.
  - by rewrite lookup_fmap, lookup_insert_ne.
  - by apply Hother.
  - exact Hba.
Qed.

Lemma statKey_order_sensitive_witness :
  (1 ≤ 3 ≤ 12)%Z ∧ (1 ≤ 7 ≤ 12)%Z ∧ (3 ≠ 7)%Z ∧
  statKey 3 7 ≠ statKey 7 3 ∧
  ∃ ls1 ls2 t2,
    updateStats 3 7 true (int 1) ∅ = Some ls1 ∧
    updateStats 7 3 false (int 9) ls1 = Some ls2 ∧
    table_of ls2 = Some t2 ∧
    t2 !! statKey 3 7 =
      Some {| confidence := Num (int 100); attempts := Num (int 1) |} ∧
    t2 !! statKey 7 3 =
      Some {| confidence := Num (int 0); attempts := Num (int 1) |}.
Proof.
  assert (1 ≤ 3 ≤ 12)%Z as H1 by lia.
  assert (1 ≤ 7 ≤ 12)%Z as H2 by lia.
  assert (3 ≠ 7)%Z as H3 by lia.
  split; [exact H1|]. split; [exact H2|]. split; [exact H3|].
  destruct (statKey_order_sensitive 3 7 H1 H2 H3) as [Hkey Hrec].
  split; [exact Hkey|].
  assert (table_of ∅ = Some ∅) as H0 by reflexivity.
  destruct (Hrec ∅ ∅ true (int 1) false (int 9) H0)
    as (ls1 & ls2 & t1 & t2 & Hup1 & _ & Hup2 & Ht2 & H37 & H73 & Hsame & Hnew).
  exists ls1, ls2, t2. split; [exact Hup1|]. split; [exact Hup2|].
  split; [exact Ht2|]. split.
  - by rewrite Hsame, H37, lookup_empty.
  - by rewrite Hnew, H73, lookup_empty.
Defined.

(** [loadStats] is total and raises nothing.  When the entry is missing,
    empty, or rejected by [JSON.parse], it returns the empty mapping; when the
    entry parses, it returns the parsed value as it is. *)
Lemma loadStats_fails_soft (ls : localStorage) :
  as_table (JObj ∅) = Some ∅ ∧
  match getItem STORAGE_KEY ls with
  | None | Some EmptyText | Some Garbled => loadStats ls = JObj ∅
  | Some (Encoded v) => loadStats ls = v
  end.
Proof.
  split; [reflexivity|].
  unfold loadStats. by destruct (getItem STORAGE_KEY ls) as [[| |v]|].
Qed.

(** C5: an entry that does not parse is discarded, and [loadStats] starts
    from the empty mapping; but an entry that parses to a value of another
    shape, as the strings [null] and [[1]] do, is handed to the caller as it
    is: the value returned is neither a stats table nor the empty mapping. *)
Lemma loadStats_keeps_malformed :
  let garbled : localStorage := {[ STORAGE_KEY := Garbled ]} in
  let nothing : localStorage := {[ STORAGE_KEY := Encoded JNull ]} in
  let array : localStorage := {[ STORAGE_KEY := Encoded (JArr [JNum (int 1)]) ]} in
  loadStats garbled = JObj ∅ ∧
  loadStats nothing = JNull ∧ as_table (loadStats nothing) = None ∧
  loadStats array = JArr [JNum (int 1)] ∧ as_table (loadStats array) = None.
Proof. repeat split. Qed.

(** C2, for times that are numbers: starting from a table whose records all
    satisfy the invariant, every sequence of updates whose times are not NaN
    keeps each confidence in [0, 100] and each attempt count an integer of
    at least 1; no record is deleted and no attempt count decreases. *)
Theorem updates_keep_invariant (calls : list call) (ls : localStorage)
    (t : StatsTable) :
  table_of ls = Some t → good_table t → Forall timed calls →
  ∃ ls' t',
    run calls ls = Some ls' ∧ table_of ls' = Some t' ∧ good_table t' ∧
    ∀ k r, t !! k = Some r →
      ∃ r', t' !! k = Some r' ∧
        (ToNumber (attempts r) <=? ToNumber (attempts r'))%js = true.
Proof.
  intros Ht Hgood Hcalls. revert ls t Ht Hgood.
  induction Hcalls as [|c calls [Hv Hnan] _ IH]; intros ls t Ht Hgood.
  - exists ls, t. split; [done|]. split; [done|]. split; [done|].
    intros k r Hr. exists r. split; [done|].
    apply attempts_le_refl. by apply (Hgood k).
  - cbn [run].
    destruct (updateStats_table_of (call_a c) (call_b c) (call_correct c)
                (call_time c) ls t Ht) as (ls1 & -> & Ht1).
    cbn [mbind option_bind].
    destruct (update_step t (statKey (call_a c) (call_b c)) (call_correct c)
                (call_time c) Hgood Hv Hnan) as [Hgood1 Hmono1].
    destruct (IH ls1 _ Ht1 Hgood1) as (ls' & t' & Hrun & Ht' & Hgood' & Hmono').
    exists ls', t'. split; [done|]. split; [done|]. split; [done|].
    intros k r Hr.
    destruct (Hmono1 k r Hr) as (r1 & Hr1 & Hle1).
    destruct (Hmono' k r1 Hr1) as (r' & Hr' & Hle').
    exists r'. split; [done|].
    eapply attempts_le_trans; [by apply (Hgood k) | by apply (Hgood1 k)
                              | by apply (Hgood' k) | done | done].
Qed.

Lemma updates_keep_invariant_witness :
  let calls := [ {| call_a := 3; call_b := 4; call_correct := true;
                    call_time := int 1 |};
                 {| call_a := 3; call_b := 4; call_correct := false;
                    call_time := int 9 |} ] in
  table_of ∅ = Some ∅ ∧ good_table ∅ ∧ Forall timed calls ∧
  ∃ ls' t',
    run calls ∅ = Some ls' ∧ table_of ls' = Some t' ∧ good_table t' ∧
    ∀ k r, (∅ : StatsTable) !! k = Some r →
      ∃ r', t' !! k = Some r' ∧
        (ToNumber (attempts r) <=? ToNumber (attempts r'))%js = true.
Proof.
  intros calls.
  assert (table_of ∅ = Some ∅) as H1 by reflexivity.
  assert (good_table ∅) as H2 by apply map_Forall_empty.
  assert (Forall timed calls) as H3.
  { repeat constructor. }
  split; [exact H1|]. split; [exact H2|]. split; [exact H3|].
  exact (updates_keep_invariant calls ∅ ∅ H1 H2 H3).
Defined.

(** An update whose time is NaN hands [saveStats] a fresh record whose
    confidence is NaN, which is written as [null]: the record that the store
    then holds has no number as its confidence, in [0, 100] or elsewhere. *)
Lemma nan_time_breaks_invariant :
  let calls := [ {| call_a := 3; call_b := 4; call_correct := true;
                    call_time := NaN |} ] in
  table_of ∅ = Some ∅ ∧ good_table ∅ ∧
  updated None (computeScore true NaN) =
    {| confidence := Num NaN; attempts := Num (int 1) |} ∧
  ∃ ls' t' r,
    run calls ∅ = Some ls' ∧ table_of ls' = Some t' ∧
    t' !! statKey 3 4 = Some r ∧ confidence r = Null ∧
    ¬ good_record r ∧ ¬ good_table t'.
Proof.
  intros calls.
  assert (table_of ∅ = Some ∅) as H1 by reflexivity.
  split; [exact H1|]. split; [apply map_Forall_empty|]. split; [reflexivity|].
  destruct (updateStats_table_of 3 4 true NaN ∅ ∅ H1) as (ls' & Hup & Ht').
  rewrite lookup_empty, insert_empty, map_fmap_singleton in Ht'.
  eexists ls', _, _. cbn [run calls call_a call_b call_correct call_time].
  rewrite Hup. split; [reflexivity|]. split; [exact Ht'|].
  split; [apply lookup_singleton_eq|]. split; [reflexivity|].
  assert (¬ good_record (written_record (updated None (computeScore true NaN))))
    as Hbad.
  { intros (c & n & Hc & _). discriminate Hc. }
  split; [exact Hbad|].
  intros Hgood. apply Hbad. apply (Hgood (statKey 3 4)). apply lookup_singleton_eq.
Qed.

(** * The claims on the score *)

(** C3: with the speed sub-score [v] of the specification for the time [t],
    [computeScore] is [0.7 * accuracy + 0.3 * v]; a correct answer scores 100
    up to 2 seconds, 70 from 8 seconds on and 85 at 5 seconds, and a wrong
    answer scores [0.3 * v]. *)
Theorem computeScore_formula (correct : bool) (t v : number) :
  is_number t = true → speed_is t v →
  computeScore correct t =
    (dec 7 10 * (if correct then int 100 else int 0) + dec 3 10 * v)%js ∧
  ((t <=? int 2)%js = true → computeScore true t = int 100) ∧
  ((t >=? int 8)%js = true → computeScore true t = int 70) ∧
  computeScore true (int 5) = int 85 ∧
  computeScore false t = (dec 3 10 * v)%js.
Proof.
  intros Hv Hspeed. split; [by apply score_formula|]. split_and!.
  - intros Hle. unfold computeScore. by rewrite Hle.
  - intros Hge. unfold computeScore. by rewrite (ge_8_not_le_2 t Hge), Hge.
  - reflexivity.
  - by apply computeScore_false.
Qed.

Lemma computeScore_formula_witness :
  is_number (int 5) = true ∧ speed_is (int 5) (int 50) ∧
  computeScore true (int 5) =
    (dec 7 10 * int 100 + dec 3 10 * int 50)%js ∧
  ((int 5 <=? int 2)%js = true → computeScore true (int 5) = int 100) ∧
  ((int 5 >=? int 8)%js = true → computeScore true (int 5) = int 70) ∧
  computeScore true (int 5) = int 85 ∧
  computeScore false (int 5) = (dec 3 10 * int 50)%js.
Proof.
  assert (is_number (int 5) = true) as H1 by reflexivity.
  assert (speed_is (int 5) (int 50)) as H2.
  { right. right. split; [reflexivity|]. split; reflexivity. }
  split; [exact H1|]. split; [exact H2|].
  exact (computeScore_formula true (int 5) (int 50) H1 H2).
Defined.

(** C4, for times that are numbers: [computeScore] is a total function, and
    for every time other than NaN its result is a number in [0, 100]; a time
    of at most 2 seconds, however negative, gets the full speed score, and a
    time of at least 8 seconds, however large, gets none. *)
Theorem computeScore_range (correct : bool) (t : number) :
  is_number t = true → is_nan t = false →
  is_number (computeScore correct t) = true ∧
  (int 0 <=? computeScore correct t)%js = true ∧
  (computeScore correct t <=? int 100)%js = true ∧
  ((t <=? int 2)%js = true →
     computeScore correct t = if correct then int 100 else int 30) ∧
  ((t >=? int 8)%js = true →
     computeScore correct t = if correct then int 70 else int 0).
Proof.
  intros Hv Hnan.
  destruct (within_range _ _ (computeScore_within correct t Hv Hnan))
    as (Hnum & H0 & H100).
  split; [exact Hnum|]. split; [exact H0|]. split; [exact H100|]. split.
  - intros Hle. unfold computeScore. rewrite Hle. by destruct correct.
  - intros Hge. unfold computeScore. rewrite (ge_8_not_le_2 t Hge), Hge.
    by destruct correct.
Qed.

Lemma computeScore_range_witness :
  is_number (int 5) = true ∧ is_nan (int 5) = false ∧
  is_number (computeScore true (int 5)) = true ∧
  (int 0 <=? computeScore true (int 5))%js = true ∧
  (computeScore true (int 5) <=? int 100)%js = true ∧
  ((int 5 <=? int 2)%js = true → computeScore true (int 5) = int 100) ∧
  ((int 5 >=? int 8)%js = true → computeScore true (int 5) = int 70).
Proof.
  assert (is_number (int 5) = true) as H1 by reflexivity.
  assert (is_nan (int 5) = false) as H2 by reflexivity.
  split; [exact H1|]. split; [exact H2|].
  exact (computeScore_range true (int 5) H1 H2).
Defined.

(** NaN is a time that falls into neither clamp: the speed score, and with it
    the result, is NaN, which is not in [0, 100]. *)
Lemma computeScore_nan :
  is_number NaN = true ∧
  computeScore true NaN = NaN ∧ computeScore false NaN = NaN ∧
  (int 0 <=? computeScore true NaN)%js = false ∧
  (computeScore true NaN <=? int 100)%js = false.
Proof. repeat split. Qed.

(** * Keys, counters and the order of updates *)

Section Keys.

Lemma all_chars_app P s1 s2 :
  all_chars P (s1 +:+ s2) = all_chars P s1 && all_chars P s2.
Proof.
  induction s1 as [|c s1 IH]; [done|].
  simpl. rewrite IH. by rewrite andb_assoc.
Qed.

Lemma pretty_N_go_chars P x s :
  (∀ d, P (pretty_N_char d) = true) → all_chars P s = true →
  all_chars P (pretty_N_go x s) = true.
Proof.
  intros HP. revert s. induction (N.lt_wf_0 x) as [x _ IH]; intros s Hs.
  destruct (decide (x = 0%N)) as [->|Hx]; [by rewrite pretty_N_go_0|].
  rewrite pretty_N_go_step by lia.
  apply IH; [apply N.div_lt; lia|]. cbn [all_chars]. by rewrite HP, Hs.
Qed.

Lemma pretty_N_chars P (x : N) :
  (∀ d, P (pretty_N_char d) = true) → all_chars P (pretty x) = true.
Proof.
  intros HP. unfold pretty, pretty_N. case_decide.
  - pose proof (HP 0%N) as H0. simpl in *. by rewrite H0.
  - by apply pretty_N_go_chars.
Qed.

Lemma pretty_Z_chars P (z : Z) :
  (∀ d, P (pretty_N_char d) = true) → P "-"%char = true →
  all_chars P (pretty z) = true.
Proof.
  intros HP Hm. destruct z as [|p|p]; unfold pretty, pretty_Z.
  - pose proof (HP 0%N) as H0. simpl in *. by rewrite H0.
  - by apply (pretty_N_chars P (Npos p)).
  - simpl. rewrite Hm. by apply (pretty_N_chars P (Npos p)).
Qed.

Lemma split_at_separator c s1 s2 t1 t2 :
  all_chars (λ x, negb (Ascii.eqb x c)) s1 = true →
  all_chars (λ x, negb (Ascii.eqb x c)) s2 = true →
  s1 +:+ String c t1 = s2 +:+ String c t2 → s1 = s2 ∧ t1 = t2.
Proof.
  revert s2. induction s1 as [|x s1 IH]; intros [|y s2] H1 H2 Heq;
    simpl in *.
  - by injection Heq.
  - injection Heq as <- _. by rewrite Ascii.eqb_refl in H2.
  - injection Heq as -> _. by rewrite Ascii.eqb_refl in H1.
  - injection Heq as -> Heq.
    apply andb_true_iff in H1 as [_ H1], H2 as [_ H2].
    destruct (IH s2 H1 H2 Heq) as [-> ->]. done.
Qed.

Lemma statKey_inj a b a' b' : statKey a b = statKey a' b' → a = a' ∧ b = b'.
Proof.
  unfold statKey. intros Heq.
  assert (∀ z : Z, all_chars (λ x, negb (Ascii.eqb x "_")) (pretty z) = true) as Hfree.
  { intros z. apply pretty_Z_chars; [|done].
    intros d. unfold pretty_N_char. by repeat case_match. }
  apply (split_at_separator "_"%char) in Heq as [Ha Hb]; [|done|done].
  split; by apply (inj pretty).
Qed.

End Keys.

Section Counting.

#[local] Open Scope Z_scope.

(** Rounding a value that is a number returns that number. *)
Lemma binary_round_value (p m' : positive) e e' :
  canonical (Zpos m') e' -> e' <= 971 ->
  (F2Q (Zpos p) e == F2Q (Zpos m') e')%Q ->
  binary_round prec emax false p e = S754_finite false m' e'.
Proof.
  intros Hcan He' Hv.
  pose proof (binary_round_upper p e (Zpos m') e' Hcan He') as [Hvr Hup].
  { rewrite Hv. apply Qle_refl. }
  assert (F2Q (Zpos m') e' <= F2Q (Zpos p) e)%Q as Hprem.
  { rewrite Hv. apply Qle_refl. }
  pose proof (binary_round_lower p e (Zpos m') e' Hcan Hprem) as Hlow.
  destruct (binary_round prec emax false p e) as [z| | |[] mr er]; try done.
  apply valid_finite in Hvr as [Hcr _]. destruct Hlow as [_ Hlow].
  destruct (canonical_unique _ _ _ _ Hcr Hcan) as [Hm He].
  { by apply Qle_antisym. }
  by simplify_eq.
Qed.

(** The number that an integer literal of at most 53 bits denotes. *)
Lemma int_value K :
  0 < K <= 2 ^ 53 ->
  exists (m : positive) e,
    int K = S754_finite false m e /\ canonical (Zpos m) e /\ e <= 971 /\
    (F2Q (Zpos m) e == F2Q K 0)%Q /\ is_integer (int K) = true.
Proof.
  intros HK. destruct (int_repr K HK) as (m & e & Hcan & He & Hv & Hint).
  exists m, e.
  assert (int K = S754_finite false m e) as Heq.
  { destruct K as [|p|p]; try lia. unfold int. cbn [binary_normalize].
    apply binary_round_value; [done | done |]. by rewrite Hv. }
  rewrite Heq. done.
Qed.

(** Adding one to a counter below [2^53] is exact. *)
Lemma int_succ K : 0 < K < 2 ^ 53 -> (int K + int 1)%js = int (K + 1).
Proof.
  intros HK.
  destruct (int_value K ltac:(lia)) as (m & e & -> & Hcan & He & Hv & _).
  destruct (int_value (K + 1) ltac:(lia)) as (m' & e' & -> & Hcan' & He' & Hv' & _).
  assert (F2Q 4503599627370496 (-52) == 1)%Q as V1 by (by vm_compute).
  unfold add. rewrite int_1. cbn [SFadd cond_Zopp].
  set (ez := Z.min e (-52)).
  set (px := (shl_align m e ez).1).
  set (py := (shl_align 4503599627370496 (-52) ez).1).
  change (Zpos px + Zpos py) with (Zpos (px + py)). cbn [binary_normalize].
  apply binary_round_value; [done | done |].
  rewrite Pos2Z.inj_add, F2Q_add. unfold px, py.
  rewrite !F2Q_aligned by (unfold ez; lia).
  rewrite Hv, Hv', V1, F2Q_add. unfold F2Q. cbn. ring.
Qed.

End Counting.

Section Calls.

Implicit Types (t : StatsTable) (ls : localStorage).

Lemma count_calls_cons key c calls :
  count_calls key (c :: calls) =
    ((if decide (call_key c = key) then 1 else 0) + count_calls key calls)%nat.
Proof.
  unfold count_calls. rewrite filter_cons. by case_decide.
Qed.

(** The attempts held by a table count the calls, from the counts [n] the
    table starts with. *)
Lemma run_counts calls : ∀ ls t (n : string → nat),
  table_of ls = Some t →
  (∀ key, attempts <$> t !! key =
     if decide (n key = 0%nat) then None else Some (Num (int (Z.of_nat (n key))))) →
  (∀ key, Z.of_nat (n key + length calls) < 2 ^ 53)%Z →
  ∃ ls' t',
    run calls ls = Some ls' ∧ table_of ls' = Some t' ∧
    ∀ key, attempts <$> t' !! key =
      let k := (n key + count_calls key calls)%nat in
      if decide (k = 0%nat) then None else Some (Num (int (Z.of_nat k))).
Proof.
  induction calls as [|c calls IH]; intros ls t n Ht Hn Hlen.
  - exists ls, t. split; [done|]. split; [done|].
    intros key. cbn zeta. unfold count_calls. cbn. rewrite Nat.add_0_r. apply Hn.
  - cbn [run].
    destruct (updateStats_table_of (call_a c) (call_b c) (call_correct c)
                (call_time c) ls t Ht) as (ls1 & -> & Ht1).
    cbn [mbind option_bind].
    set (n1 := λ key, ((if decide (call_key c = key) then 1 else 0) + n key)%nat).
    destruct (IH ls1 _ n1 Ht1) as (ls' & t' & Hrun & Ht' & Hcount).
    + intros key. unfold n1. fold (call_key c).
      destruct (decide (call_key c = key)) as [<-|Hne].
      * rewrite lookup_fmap, lookup_insert_eq. cbn [fmap option_fmap option_map].
        specialize (Hn (call_key c)). specialize (Hlen (call_key c)).
        cbn [length] in Hlen.
        destruct (t !! call_key c) as [r|] eqn:Hr;
          cbn [fmap option_fmap option_map updated written_record attempts
               written_field] in *.
        -- case_decide as Hz; [done|]. injection Hn as ->.
           rewrite decide_False by lia. cbn [ToNumber].
           rewrite int_succ by lia.
           replace (Z.of_nat (n (call_key c)) + 1)%Z
             with (Z.of_nat (1 + n (call_key c))) by lia.
           destruct (int_value (Z.of_nat (1 + n (call_key c))) ltac:(lia))
             as (m & e & -> & _). done.
        -- case_decide as Hz; [|done]. rewrite Hz. cbn. done.
      * rewrite lookup_fmap, lookup_insert_ne by done. cbn [Nat.add].
        rewrite <- Hn. destruct (t !! key) as [r|] eqn:Hr; [|done].
        cbn [fmap option_fmap option_map]. f_equal.
        specialize (Hn key). rewrite Hr in Hn.
        cbn [fmap option_fmap option_map] in Hn.
        case_decide as Hz; [done|]. injection Hn as Hn.
        cbn [written_record attempts]. rewrite Hn. cbn [written_field].
        destruct (int_value (Z.of_nat (n key)) ltac:(specialize (Hlen key); lia))
          as (m & e & -> & _). done.
    + intros key. specialize (Hlen key). unfold n1. cbn [length] in Hlen.
      case_decide; lia.
    + exists ls', t'. split; [done|]. split; [done|].
      intros key. cbn zeta. rewrite count_calls_cons. specialize (Hcount key).
      cbn zeta in Hcount. unfold n1 in Hcount.
      replace (n key + ((if decide (call_key c = key) then 1 else 0) +
                 count_calls key calls))%nat
        with ((if decide (call_key c = key) then 1 else 0) + n key +
                 count_calls key calls)%nat by lia.
      exact Hcount.
Qed.

End Calls.

(** * The score, by outcome *)

Section ScoreBounds.

#[local] Open Scope Z_scope.

(** [x + y] is at least [x], for a positive [x] and a [y] that is zero or
    positive. *)
Lemma add_lower (mx : positive) ex y h :
  is_number (S754_finite false mx ex) = true -> within false y h ->
  match SFadd prec emax (S754_finite false mx ex) y with
  | S754_finite s m e => s = false /\ (F2Q (Zpos mx) ex <= F2Q (Zpos m) e)%Q
  | S754_infinity s => s = false
  | _ => False
  end.
Proof.
  intros Hvx [Hvy Hy].
  apply valid_finite in Hvx as [Hcx _].
  destruct y as [sy| | |[] my ey]; try done; cbn [SFadd].
  - split; [done|]. apply Qle_refl.
  - cbn [cond_Zopp].
    set (ez := Z.min ex ey).
    set (px := (shl_align mx ex ez).1). set (py := (shl_align my ey ez).1).
    change (Zpos px + Zpos py) with (Zpos (px + py)). cbn [binary_normalize].
    apply binary_round_lower; [done|].
    rewrite Pos2Z.inj_add, F2Q_add. unfold px, py.
    rewrite !F2Q_aligned by (unfold ez; lia).
    pose proof (F2Q_pos (Zpos my) ey ltac:(lia)). lra.
Qed.

Lemma lt_of_values (m1 m2 : positive) e1 e2 :
  canonical (Zpos m1) e1 -> canonical (Zpos m2) e2 ->
  (F2Q (Zpos m1) e1 < F2Q (Zpos m2) e2)%Q ->
  (S754_finite false m1 e1 <? S754_finite false m2 e2)%js = true.
Proof.
  intros H1 H2 Hlt. unfold lt, SFltb. rewrite SFcompare_pos by done.
  assert ((F2Q (Zpos m1) e1 ?= F2Q (Zpos m2) e2)%Q = Lt) as ->
    by (by apply Qlt_alt).
  done.
Qed.

(** The speed part of the score, weighted: at most 30. *)
Lemma weighted_speed_within t :
  is_number t = true -> is_nan t = false ->
  exists speed,
    computeScore true t = (int 70 + speed)%js /\
    computeScore false t = (S754_zero false + speed)%js /\
    within false speed (F2Q 8444249301319680 (-48)).
Proof.
  intros Hv Hnan. unfold computeScore.
  assert ((int 100 * dec 7 10)%js = int 70) as -> by (vm_compute; reflexivity).
  assert ((int 0 * dec 7 10)%js = S754_zero false) as ->
    by (vm_compute; reflexivity).
  destruct (t <=? int 2)%js eqn:Hle.
  { eexists. split; [done|]. split; [done|]. closed_within. }
  destruct (t >=? int 8)%js eqn:Hge.
  { eexists. split; [done|]. split; [done|]. closed_within. }
  destruct (strictly_between t 4503599627370496 4503599627370496 (-51) (-49))
    as (m & e & -> & Hlo & Hhi); [side | side | side | by destruct t | side | side |].
  pose proof (interpolate_within m e Hv Hlo Hhi) as Hspeed.
  eexists. split; [done|]. split; [done|].
  apply (mul_within false false _ _ Q100 (F2Q 5404319552844595 (-54))); side.
Qed.

Lemma computeScore_correct_lower t :
  is_number t = true -> is_nan t = false ->
  (int 70 <=? computeScore true t)%js = true.
Proof.
  intros Hv Hnan.
  pose proof (computeScore_within true t Hv Hnan) as [Hvs Hs].
  destruct (weighted_speed_within t Hv Hnan) as (speed & Heq & _ & Hw).
  rewrite Heq in *.
  assert (is_number (S754_finite false 4925812092436480 (-46)) = true) as Hv70
    by (vm_compute; reflexivity).
  pose proof (add_lower 4925812092436480 (-46) speed _ Hv70 Hw) as Hlow.
  assert (int 70 = S754_finite false 4925812092436480 (-46)) as Hi
    by (vm_compute; reflexivity).
  rewrite Hi in *. unfold add in *.
  set (r := SFadd prec emax (S754_finite false 4925812092436480 (-46)) speed) in *.
  clearbody r. clear Heq Hi Hv70.
  destruct r as [z| | |[] m e]; try done.
  apply valid_finite in Hvs as [Hc _]. destruct Hlow as [_ Hlow].
  apply le_of_values; [unfold canonical; lia | done | done].
Qed.

Lemma computeScore_wrong_within t :
  is_number t = true -> is_nan t = false ->
  within false (computeScore false t) (F2Q 8444249301319680 (-48)).
Proof.
  intros Hv Hnan.
  destruct (weighted_speed_within t Hv Hnan) as (speed & _ & Heq & Hw).
  rewrite Heq. unfold add. rewrite SFadd_zero_l; [done|].
  intros ->. destruct Hw as [_ Hw]. discriminate Hw.
Qed.

End ScoreBounds.

(** * Further properties of the score and of the store *)

(** X1: whatever the two times, a correct answer scores at least 70, a wrong
    one at most 30, so that a correct answer always scores more than a wrong
    one. *)
Theorem computeScore_rewards_correct (t1 t2 : number) :
  is_number t1 = true → is_nan t1 = false →
  is_number t2 = true → is_nan t2 = false →
  (int 70 <=? computeScore true t1)%js = true ∧
  (computeScore false t2 <=? int 30)%js = true ∧
  (computeScore false t2 <? computeScore true t1)%js = true.
Proof.
  intros Hv1 Hn1 Hv2 Hn2.
  pose proof (computeScore_correct_lower t1 Hv1 Hn1) as Hlow.
  pose proof (computeScore_within true t1 Hv1 Hn1) as [Hvc Hc].
  pose proof (computeScore_wrong_within t2 Hv2 Hn2) as Hw.
  assert (int 70 = S754_finite false 4925812092436480 (-46)) as H70
    by (vm_compute; reflexivity).
  assert (int 30 = S754_finite false 8444249301319680 (-48)) as H30
    by (vm_compute; reflexivity).
  assert (canonical 4925812092436480 (-46)) as C70 by (unfold canonical; lia).
  assert (canonical 8444249301319680 (-48)) as C30 by (unfold canonical; lia).
  assert (F2Q 8444249301319680 (-48) < F2Q 4925812092436480 (-46))%Q as Hgap
    by (vm_compute; reflexivity).
  rewrite H70, H30 in *.
  set (good := computeScore true t1) in *. set (bad := computeScore false t2) in *.
  clearbody good bad.
  split; [done|].
  destruct (within_le false bad 8444249301319680 (-48) Hw C30) as [_ Hle].
  split; [done|].
  destruct good as [| | |[] mg eg]; try done.
  apply valid_finite in Hvc as [Cg _].
  apply values_of_le in Hlow; [|done|done].
  destruct Hw as [Hvb Hb]. destruct bad as [[]| | |[] mb eb]; try done.
  apply valid_finite in Hvb as [Cb _].
  apply lt_of_values; [done | done |].
  eapply Qle_lt_trans; [exact Hb|]. by eapply Qlt_le_trans.
Qed.

Lemma computeScore_rewards_correct_witness :
  is_number (int 9) = true ∧ is_nan (int 9) = false ∧
  is_number (int 1) = true ∧ is_nan (int 1) = false ∧
  (int 70 <=? computeScore true (int 9))%js = true ∧
  (computeScore false (int 1) <=? int 30)%js = true ∧
  (computeScore false (int 1) <? computeScore true (int 9))%js = true.
Proof.
  assert (is_number (int 9) = true) as H1 by (vm_compute; reflexivity).
  assert (is_nan (int 9) = false) as H2 by reflexivity.
  assert (is_number (int 1) = true) as H3 by (vm_compute; reflexivity).
  assert (is_nan (int 1) = false) as H4 by reflexivity.
  split; [exact H1|]. split; [exact H2|]. split; [exact H3|]. split; [exact H4|].
  exact (computeScore_rewards_correct (int 9) (int 1) H1 H2 H3 H4).
Defined.

(** X2: two pairs of integer operands have the same key only when they are
    the same pair, in the same order. *)
Theorem statKey_injective (a b a' b' : Z) :
  statKey a b = statKey a' b' ↔ a = a' ∧ b = b'.
Proof. split; [apply statKey_inj | by intros [-> ->]]. Qed.

(** X3: starting from an empty table, the attempts of a record count the
    calls made for its key, whatever their times and outcomes; a key that no
    call names has no record. *)
Theorem attempts_count_calls (calls : list call) (ls : localStorage) :
  table_of ls = Some ∅ → (Z.of_nat (length calls) < 2 ^ 53)%Z →
  ∃ ls' t',
    run calls ls = Some ls' ∧ table_of ls' = Some t' ∧
    ∀ key, attempts <$> t' !! key =
      if decide (count_calls key calls = 0%nat) then None
      else Some (Num (int (Z.of_nat (count_calls key calls)))).
Proof.
  intros Ht Hlen.
  destruct (run_counts calls ls ∅ (λ _, 0%nat) Ht) as (ls' & t' & Hrun & Ht' & Hc).
  - intros key. by rewrite lookup_empty.
  - intros key. by rewrite Nat.add_0_l.
  - exists ls', t'. split; [done|]. split; [done|]. exact Hc.
Qed.

Lemma attempts_count_calls_witness :
  let calls := [ {| call_a := 3; call_b := 4; call_correct := true;
                    call_time := int 1 |};
                 {| call_a := 4; call_b := 3; call_correct := true;
                    call_time := int 1 |};
                 {| call_a := 3; call_b := 4; call_correct := false;
                    call_time := NaN |} ] in
  table_of ∅ = Some ∅ ∧ (Z.of_nat (length calls) < 2 ^ 53)%Z ∧
  ∃ ls' t',
    run calls ∅ = Some ls' ∧ table_of ls' = Some t' ∧
    ∀ key, attempts <$> t' !! key =
      if decide (count_calls key calls = 0%nat) then None
      else Some (Num (int (Z.of_nat (count_calls key calls)))).
Proof.
  intros calls.
  assert (table_of ∅ = Some ∅) as H1 by reflexivity.
  assert (Z.of_nat (length calls) < 2 ^ 53)%Z as H2 by (cbn; lia).
  split; [exact H1|]. split; [exact H2|].
  exact (attempts_count_calls calls ∅ H1 H2).
Defined.

(** X4: in a store that the program owns, two updates of different facts
    commute: both orders succeed, whatever the two times, and the tables they
    leave hold the same records. *)
Theorem updateStats_commute (a b c d : Z) (correct1 correct2 : bool)
    (time1 time2 : number) (ls : localStorage) (t : StatsTable) :
  saved ls → table_of ls = Some t → (a, b) ≠ (c, d) →
  ∃ ls1 ls2 t',
    updateStats a b correct1 time1 ls ≫= updateStats c d correct2 time2 = Some ls1 ∧
    updateStats c d correct2 time2 ls ≫= updateStats a b correct1 time1 = Some ls2 ∧
    table_of ls1 = Some t' ∧ table_of ls2 = Some t'.
Proof.
  intros Hsaved Ht Hne.
  assert (statKey a b ≠ statKey c d) as Hkey.
  { intros [-> ->]%statKey_inj. done. }
  pose proof (saved_table ls t Hsaved Ht) as Hw.
  destruct (updateStats_lookup a b correct1 time1 ls t Ht Hw)
    as (la & ta & -> & Hta & Hwa & Haa & Hao).
  destruct (updateStats_lookup c d correct2 time2 ls t Ht Hw)
    as (lc & tc & -> & Htc & Hwc & Hcc & Hco).
  cbn [mbind option_bind].
  destruct (updateStats_lookup c d correct2 time2 la ta Hta Hwa)
    as (l1 & t1 & -> & Ht1 & _ & H1c & H1o).
  destruct (updateStats_lookup a b correct1 time1 lc tc Htc Hwc)
    as (l2 & t2 & -> & Ht2 & _ & H2a & H2o).
  exists l1, l2, t1. split; [done|]. split; [done|]. split; [done|].
  rewrite Ht2. f_equal. apply map_eq. intros k.
  destruct (decide (k = statKey a b)) as [->|Hka].
  - by rewrite H2a, (Hco _ Hkey), (H1o _ Hkey), Haa.
  - destruct (decide (k = statKey c d)) as [->|Hkc].
    + by rewrite H1c, (Hao _ Hka), (H2o _ Hka), Hcc.
    + by rewrite (H1o _ Hkc), (Hao _ Hka), (H2o _ Hka), (Hco _ Hkc).
Qed.

Lemma updateStats_commute_witness :
  let t : StatsTable :=
    {[ statKey 3 4 := {| confidence := Num (int 85); attempts := Num (int 3) |} ]} in
  let ls : localStorage := saveStats (of_table t) ∅ in
  saved ls ∧ table_of ls = Some t ∧ ((3, 4)%Z : Z * Z) ≠ (4, 3)%Z ∧
  ∃ ls1 ls2 t',
    updateStats 3 4 true (int 1) ls ≫= updateStats 4 3 false NaN = Some ls1 ∧
    updateStats 4 3 false NaN ls ≫= updateStats 3 4 true (int 1) = Some ls2 ∧
    table_of ls1 = Some t' ∧ table_of ls2 = Some t'.
Proof.
  intros t ls.
  assert (saved ls) as H1 by apply saved_saveStats.
  assert (table_of ls = Some t) as H2.
  { unfold ls, t. rewrite table_of_saveStats, map_fmap_singleton. reflexivity. }
  assert (((3, 4)%Z : Z * Z) ≠ (4, 3)%Z) as H3 by discriminate.
  split; [exact H1|]. split; [exact H2|]. split; [exact H3|].
  exact (updateStats_commute 3 4 4 3 true false (int 1) NaN ls t H1 H2 H3).
Defined.

(** X5: when the stored entry is missing, empty or not parsable, an update
    starts over: for a time other than NaN, the store then holds exactly the
    one record of the answer just given, with its score and one attempt. *)
Theorem updateStats_starts_over (a b : Z) (correct : bool) (timeSec : number)
    (ls : localStorage) :
  getItem STORAGE_KEY ls = None ∨ getItem STORAGE_KEY ls = Some EmptyText ∨
  getItem STORAGE_KEY ls = Some Garbled →
  is_number timeSec = true → is_nan timeSec = false →
  ∃ ls',
    updateStats a b correct timeSec ls = Some ls' ∧
    table_of ls' =
      Some {[ statKey a b :=
                {| confidence := Num (computeScore correct timeSec);
                   attempts := Num (int 1) |} ]}.
Proof.
  intros Hraw Hv Hnan.
  assert (table_of ls = Some ∅) as Ht.
  { unfold table_of, loadStats. by destruct Hraw as [->|[->| ->]]. }
  destruct (updateStats_table_of a b correct timeSec ls ∅ Ht) as (ls' & Hup & Ht').
  exists ls'. split; [done|].
  rewrite Ht', lookup_empty, insert_empty, map_fmap_singleton.
  cbn [updated]. unfold written_record. cbn [confidence attempts written_field].
  by rewrite (within_written _ _ (computeScore_within correct timeSec Hv Hnan)).
Qed.

Lemma updateStats_starts_over_witness :
  let ls : localStorage := {[ STORAGE_KEY := Garbled ]} in
  (getItem STORAGE_KEY ls = None ∨ getItem STORAGE_KEY ls = Some EmptyText ∨
   getItem STORAGE_KEY ls = Some Garbled) ∧
  is_number (int 1) = true ∧ is_nan (int 1) = false ∧
  ∃ ls',
    updateStats 3 4 true (int 1) ls = Some ls' ∧
    table_of ls' =
      Some {[ statKey 3 4 :=
                {| confidence := Num (computeScore true (int 1));
                   attempts := Num (int 1) |} ]}.
Proof.
  intros ls.
  assert (getItem STORAGE_KEY ls = None ∨ getItem STORAGE_KEY ls = Some EmptyText ∨
          getItem STORAGE_KEY ls = Some Garbled) as H.
  { right. right. reflexivity. }
  assert (is_number (int 1) = true) as H1 by reflexivity.
  assert (is_nan (int 1) = false) as H2 by reflexivity.
  split; [exact H|]. split; [exact H1|]. split; [exact H2|].
  exact (updateStats_starts_over 3 4 true (int 1) ls H H1 H2).
Defined.

(** * The time of an answer *)

Section Clock.

#[local] Open Scope Z_scope.

(** What a rounding returns is a number, and not NaN. *)
Lemma round_valid s N D e :
  0 < D -> 0 <= N -> e <= fexp (Zdigits2 (N / D) + e) ->
  let r := binary_round_aux prec emax s (N / D) e (loc_of (N mod D) D) in
  is_number r = true /\ is_nan r = false.
Proof.
  intros HD HN He r.
  destruct (round_neighbours s N D e HD HN He)
    as (q & q1 & e' & Hr & Hq & He' & Hgap & _ & Hq1 & _).
  unfold r. rewrite Hr. clear r Hr.
  destruct (finish_cases s q1 e') as [[_ ->]|(_ & m & e'' & Hc & _ & Hfin)];
    [lia | done | intros; lia | done |].
  destruct Hfin as [[Hb ->]|[_ ->]]; [|done].
  split; [by apply valid_finite | done].
Qed.

Lemma binary_round_valid s (p : positive) e :
  is_number (binary_round prec emax s p e) = true /\
  is_nan (binary_round prec emax s p e) = false.
Proof.
  destruct (binary_round_exact s p e) as (N & e0 & -> & HN & He0 & _).
  apply round_valid; [lia | lia | done].
Qed.

Lemma binary_normalize_valid m e :
  is_number (binary_normalize prec emax m e false) = true /\
  is_nan (binary_normalize prec emax m e false) = false.
Proof. destruct m; [done | apply binary_round_valid ..]. Qed.

Lemma sub_finite x y :
  finite x = true -> finite y = true ->
  is_number (x - y)%js = true /\ is_nan (x - y)%js = false.
Proof.
  unfold finite. intros [Hvx Hx]%andb_true_iff [Hvy Hy]%andb_true_iff.
  destruct x as [sx| | |sx mx ex], y as [sy| | |sy my ey]; try done;
    unfold sub; cbn [SFsub].
  - destruct sx, sy; split; reflexivity.
  - apply binary_normalize_valid.
Qed.

Lemma div_by_positive x (my : positive) ey :
  is_number x = true -> is_nan x = false ->
  is_number (S754_finite false my ey) = true ->
  is_number (x / S754_finite false my ey)%js = true /\
  is_nan (x / S754_finite false my ey)%js = false.
Proof.
  intros Hvx Hnan Hvy.
  destruct x as [sx|sx| |sx mx ex]; try done; unfold div; cbn [SFdiv].
  apply valid_finite in Hvx as [Hcx _], Hvy as [Hcy _].
  destruct (SFdiv_core_spec mx my ex ey Hcx Hcy) as (N & e' & -> & HN & He' & _).
  apply round_valid; [lia | lia | done].
Qed.

(** The time of an answer, from two readings of a clock that returns finite
    numbers, is a number and not NaN. *)
Lemma elapsed_number now start :
  finite now = true -> finite start = true ->
  is_number ((now - start) / int 1000)%js = true /\
  is_nan ((now - start) / int 1000)%js = false.
Proof.
  intros Hnow Hstart.
  destruct (sub_finite now start Hnow Hstart) as [Hv Hnan].
  assert (int 1000 = S754_finite false 8796093022208000 (-43)) as ->
    by (vm_compute; reflexivity).
  apply div_by_positive; [done | done | vm_compute; reflexivity].
Qed.

End Clock.

(** * Percentages and their colours *)

Section Percent.

#[local] Open Scope Z_scope.

(** Rounding a number of [0, 100] gives a zero or one of the integers 1 to
    100. *)
Lemma Math_round_percent x :
  within true x Q100 ->
  (exists s, Math_round x = S754_zero s) \/
  (exists n, 1 <= n <= 100 /\ Math_round x = int n).
Proof.
  intros [Hv Hx]. destruct x as [s| | |[] m e]; try done.
  { left. by exists s. }
  apply valid_finite in Hv as [(Hm & Helo & Hnorm) He].
  assert (Q100 == F2Q 100 0)%Q as V100 by literal.
  rewrite V100 in Hx.
  assert (e < 0) as Hneg.
  { destruct (Z.lt_ge_cases e 0) as [|He0]; [done|]. exfalso.
    apply F2Q_le_r in Hx; [|lia]. specialize (Hnorm ltac:(lia)).
    assert (0 < 2 ^ (e - 0)) by (apply Z.pow_pos_nonneg; lia).
    assert (2 ^ 52 <= Zpos m * 2 ^ (e - 0)) by nia. lia. }
  apply F2Q_le_l in Hx; [|lia]. replace (0 - e) with (- e) in Hx by lia.
  cbn [Math_round cond_Zopp].
  destruct (Z.leb_spec 0 e) as [|_]; [lia|].
  assert (0 < 2 ^ (- e)) as Hpow by (apply Z.pow_pos_nonneg; lia).
  assert (2 ^ (1 - e) = 2 * 2 ^ (- e)) as Hpow2.
  { replace (1 - e) with (Z.succ (- e)) by lia. apply Z.pow_succ_r. lia. }
  set (n := (2 * Zpos m + 2 ^ (- e)) / 2 ^ (1 - e)).
  assert (0 <= n < 101) as Hn.
  { split.
    - apply Z.div_pos; lia.
    - apply Z.div_lt_upper_bound; lia. }
  destruct (Z.eqb_spec n 0) as [_|Hn0]; [left; by eexists|].
  right. exists n. split; [lia | done].
Qed.

(** The integer an integer literal holds. *)
Lemma to_Z_int K : 0 < K <= 2 ^ 53 -> to_Z (int K) = Some K.
Proof.
  intros HK. destruct (int_value K HK) as (m & e & -> & Hcan & He & Hv & Hint).
  cbn [to_Z cond_Zopp]. cbn [is_integer] in Hint.
  destruct (Z.leb_spec 0 e) as [He0|He0].
  - f_equal. apply (F2Q_eq _ _ 0). rewrite <- Hv, F2Q_shift by lia.
    by replace (0 + e) with e by lia.
  - cbn [orb] in Hint. rewrite Hint. f_equal.
    apply Z.eqb_eq in Hint.
    assert (0 < 2 ^ (- e)) as Hpow by (apply Z.pow_pos_nonneg; lia).
    apply Z.mod_divide in Hint as [c Hc]; [|lia].
    rewrite Hc, Z.div_mul by lia.
    apply (F2Q_eq _ _ 0). rewrite <- Hv, Hc, F2Q_shift by lia.
    by replace (e + - e) with 0 by lia.
Qed.

Lemma ToString_int K : 0 < K < 2 ^ 53 -> ToString (int K) = Some (pretty K).
Proof.
  intros HK. pose proof (to_Z_int K ltac:(lia)) as Hz.
  destruct (int_value K ltac:(lia)) as (m & e & Heq & _).
  unfold ToString. rewrite Heq in *. rewrite Hz. cbn [mbind option_bind].
  destruct (Z.ltb_spec (Z.abs K) (2 ^ 53)); [done | lia].
Qed.

Lemma colour_ok_all :
  colour_ok (S754_zero false) 0 = true /\ colour_ok (S754_zero true) 0 = true /\
  forallb (fun n => colour_ok (int n) n) (seqZ 1 100) = true.
Proof. vm_compute. done. Qed.

End Percent.

(** * The cells of the grid *)

Section Grid.

Implicit Types (t : StatsTable) (ls : localStorage) (d : document).

Lemma percent_colour x :
  within true x Q100 →
  ∃ n : Z, (0 ≤ n ≤ 100)%Z ∧ colour_ok (Math_round x) n = true ∧
    ToString (Math_round x) = Some (pretty n).
Proof.
  intros Hx. destruct colour_ok_all as (Hp & Hn & Hall).
  destruct (Math_round_percent x Hx) as [[s ->]|(n & Hn100 & ->)].
  - exists 0%Z. split; [lia|]. split; [destruct s; assumption|].
    destruct s; vm_compute; reflexivity.
  - exists n. split; [lia|]. split.
    + rewrite forallb_forall in Hall. apply Hall.
      apply list_elem_of_In, elem_of_seqZ. lia.
    + apply ToString_int. lia.
Qed.

Lemma colour_ok_defined v n :
  colour_ok v n = true → is_Some (confidenceColor v).
Proof.
  unfold colour_ok. destruct (confidenceChannels v) as [[r g] b].
  destruct (to_Z r), (to_Z g), (to_Z b), (confidenceColor v); try done.
Qed.

(** One cell: the flag is raised exactly by a scored cell. *)
Lemma renderCell_flag t r c html h :
  (∀ s, t !! statKey r c = Some s → within true (ToNumber (confidence s)) Q100 ∧ counted s) →
  ∃ html', renderCell t r c (html, h) = Some (html', h || scored t r c).
Proof.
  intros Hok. unfold renderCell, scored.
  destruct (t !! statKey r c) as [s|]; [|rewrite orb_false_r; by eexists].
  destruct (Hok s eq_refl) as [Hc (k & Hk & Hatt)].
  rewrite Hatt. cbn [ToNumber ToString_field]. rewrite (ToString_int k) by lia.
  destruct (int k >=? int 5)%js.
  - destruct (percent_colour _ Hc) as (n & _ & Hcol & ->).
    destruct (colour_ok_defined _ _ Hcol) as [bg ->].
    cbn [mbind option_bind]. rewrite orb_true_r. by eexists.
  - cbn [mbind option_bind]. rewrite orb_false_r. by eexists.
Qed.

Lemma renderCells_flag t r (cols : list Z) : ∀ html h,
  (∀ c s, c ∈ cols → t !! statKey r c = Some s →
     within true (ToNumber (confidence s)) Q100 ∧ counted s) →
  ∃ html',
    foldl (λ acc c, acc ≫= renderCell t r c) (Some (html, h)) cols =
      Some (html', h || existsb (scored t r) cols).
Proof.
  induction cols as [|c cols IH]; intros html h Hok.
  - cbn. rewrite orb_false_r. by eexists.
  - cbn [foldl existsb].
    destruct (renderCell_flag t r c html h) as (html1 & Hcell).
    { intros s. apply Hok. by left. }
    cbn [mbind option_bind]. rewrite Hcell.
    destruct (IH html1 (h || scored t r c)) as (html2 & ->).
    { intros c' s Hc'. apply Hok. by right. }
    rewrite orb_assoc. by eexists.
Qed.

Lemma renderRow_flag t r html h :
  (∀ c s, t !! statKey r c = Some s →
     within true (ToNumber (confidence s)) Q100 ∧ counted s) →
  ∃ html',
    renderRow t (html, h) r =
      Some (html', h || existsb (scored t r) (seqZ 1 12)).
Proof.
  intros Hok. unfold renderRow.
  destruct (renderCells_flag t r (seqZ 1 12)
              (html +:+ "<tr><th>" +:+ pretty r +:+ "</th>") h) as (html1 & ->).
  { intros c s _. apply Hok. }
  cbn [mbind option_bind]. by eexists.
Qed.

Lemma renderRows_flag t (rows : list Z) : ∀ html h,
  (∀ k s, t !! k = Some s → within true (ToNumber (confidence s)) Q100 ∧ counted s) →
  ∃ html',
    foldl (λ acc r, acc ≫= λ acc, renderRow t acc r) (Some (html, h)) rows =
      Some (html',
            h || existsb (λ r, existsb (scored t r) (seqZ 1 12)) rows).
Proof.
  induction rows as [|r rows IH]; intros html h Hok.
  - cbn. rewrite orb_false_r. by eexists.
  - cbn [foldl existsb].
    destruct (renderRow_flag t r html h) as (html1 & Hrow).
    { intros c s. apply Hok. }
    cbn [mbind option_bind]. rewrite Hrow.
    destruct (IH html1 (h || existsb (scored t r) (seqZ 1 12)) Hok) as (html2 & ->).
    rewrite orb_assoc. by eexists.
Qed.

Lemma classList_toggle_contains id c force d :
  classList_contains id c (classList_toggle id c force d) = force.
Proof.
  unfold classList_contains, classList_toggle, classList_add, classList_remove,
    classList.
  destruct force; cbn [classes]; rewrite lookup_insert_eq;
    cbn [from_option]; unfold Datatypes.id.
  - apply bool_decide_eq_true. rewrite elem_of_union, elem_of_singleton.
    by right.
  - apply bool_decide_eq_false. rewrite elem_of_difference, elem_of_singleton.
    by intros [_ ?].
Qed.

Lemma no_score_iff t :
  existsb (λ r, existsb (scored t r) (seqZ 1 12)) (seqZ 1 12) = false ↔
  ∀ r c, (1 ≤ r ≤ 12)%Z → (1 ≤ c ≤ 12)%Z → scored t r c = false.
Proof.
  split.
  - intros Hno r c Hr Hc.
    destruct (scored t r c) eqn:Hs; [|done].
    assert (existsb (λ r, existsb (scored t r) (seqZ 1 12)) (seqZ 1 12) = true)
      as Hyes; [|by rewrite Hyes in Hno].
    apply existsb_exists. exists r. split.
    { apply list_elem_of_In, elem_of_seqZ. lia. }
    apply existsb_exists. exists c. split; [|done].
    apply list_elem_of_In, elem_of_seqZ. lia.
  - intros Hall. apply not_true_is_false. intros Hyes.
    apply existsb_exists in Hyes as (r & Hr & Hyes).
    apply existsb_exists in Hyes as (c & Hc & Hs).
    apply list_elem_of_In, elem_of_seqZ in Hr, Hc.
    rewrite Hall in Hs by lia. done.
Qed.

End Grid.

(** * The answer buffer *)

Section Strings.

Lemma app_cons c s t : String c s +:+ t = String c (s +:+ t).
Proof. reflexivity. Qed.

Lemma string_length_app s1 s2 :
  String.length (s1 +:+ s2) = (String.length s1 + String.length s2)%nat.
Proof.
  induction s1 as [|c s1 IH]; [done|].
  rewrite app_cons. cbn [String.length]. by rewrite IH.
Qed.

Lemma app_not_empty s c : s +:+ String c "" ≠ "".
Proof. by destruct s. Qed.




End Strings.

Section Input.

Lemma pressDigit_ok c s :
  is_digit c = true → input_ok s →
  input_ok (pressDigit (String c "") s) ∧
  (isShowingFeedback s = false → currentAnswer (pressDigit (String c "") s) ≠ "").
Proof.
  intros Hc (Hlen & Hdig & Hshow). unfold pressDigit, MAX_DIGITS in *.
  destruct (isShowingFeedback s) eqn:Hfb; [by split|].
  destruct (Nat.leb_spec 3 (String.length (currentAnswer s))) as [Hfull|Hroom].
  { split; [done|]. intros _ Hempty. rewrite Hempty in Hfull. simpl in Hfull. lia. }
  split; [|intros _; fields; apply app_not_empty].
  unfold input_ok. fields. split; [|split].
  - rewrite string_length_app. simpl. unfold MAX_DIGITS. lia.
  - rewrite all_chars_app, Hdig. simpl. by rewrite Hc.
  - unfold set_textContent. cbn [contents]. rewrite lookup_insert_eq.
    rewrite decide_False by apply app_not_empty. done.
Qed.


Lemma same_round_refl s : same_round s s.
Proof. by repeat split. Qed.

Lemma same_round_trans s1 s2 s3 :
  same_round s1 s2 → same_round s2 s3 → same_round s1 s3.
Proof.
  intros (?&?&?&?&?&?&?&?&?) (?&?&?&?&?&?&?&?&?).
  repeat split; congruence.
Qed.

Lemma pressDigit_same d s : same_round s (pressDigit d s).
Proof.
  unfold pressDigit. destruct (isShowingFeedback s); [apply same_round_refl|].
  case_match; [apply same_round_refl|]. by repeat split.
Qed.



End Input.

(** * Properties of the statistics grid *)



(** X7: on a table whose records are in range and hold a count of attempts,
    the grid is rendered, and the message for an empty grid is visible
    exactly when no fact of the 12 by 12 grid has a record of 5 attempts or
    more; only the grid and the message are touched. *)
Theorem renderStatsGrid_empty_message (ls : localStorage) (d : document)
    (t : StatsTable) :
  table_of ls = Some t → good_table t → map_Forall (λ _ r, counted r) t →
  ∃ d' html,
    renderStatsGrid ls d = Some d' ∧
    (classList_contains "grid-empty-msg" "visible" d' = true ↔
       ∀ r c, (1 ≤ r ≤ 12)%Z → (1 ≤ c ≤ 12)%Z → scored t r c = false) ∧
    contents d' = <["stats-grid" := Html html]> (contents d) ∧
    ∀ id, id ≠ "grid-empty-msg" → classList id d' = classList id d.
Proof.
  intros Ht Hgood Hcount. unfold table_of in Ht. unfold renderStatsGrid.
  rewrite Ht. cbn [mbind option_bind].
  set (header := foldl _ _ _ +:+ "</tr>").
  destruct (renderRows_flag t (seqZ 1 12) header false) as (html & ->).
  { intros k s Hs. split; [|by apply (Hcount k)].
    destruct (Hgood k s Hs) as (c & n & -> & _ & ? & ? & ? & _).
    by apply range_within. }
  cbn [mbind option_bind orb].
  eexists _, html. split; [reflexivity|].
  rewrite classList_toggle_contains. split; [|split].
  - rewrite negb_true_iff. apply no_score_iff.
  - unfold classList_toggle. by case_match.
  - intros id Hid. unfold classList_toggle, classList_add, classList_remove, classList.
    case_match; cbn [classes set_innerHTML]; by rewrite lookup_insert_ne.
Qed.

Lemma renderStatsGrid_empty_message_witness :
  let t : StatsTable :=
    {[ statKey 3 4 := {| confidence := Num (int 85); attempts := Num (int 5) |} ]} in
  let ls := saveStats (of_table t) ∅ in
  table_of ls = Some t ∧ good_table t ∧ map_Forall (λ _ r, counted r) t ∧
  ∃ d' html,
    renderStatsGrid ls blank = Some d' ∧
    (classList_contains "grid-empty-msg" "visible" d' = true ↔
       ∀ r c, (1 ≤ r ≤ 12)%Z → (1 ≤ c ≤ 12)%Z → scored t r c = false) ∧
    contents d' = <["stats-grid" := Html html]> (contents blank) ∧
    ∀ id, id ≠ "grid-empty-msg" → classList id d' = classList id blank.
Proof.
  intros t ls.
  assert (table_of ls = Some t) as H1.
  { unfold ls, t. rewrite table_of_saveStats, map_fmap_singleton. reflexivity. }
  assert (good_table t) as H2.
  { apply map_Forall_singleton. exists (int 85), (int 5).
    repeat split; vm_compute; reflexivity. }
  assert (map_Forall (λ _ r, counted r) t) as H3.
  { apply map_Forall_singleton. exists 5%Z. split; [lia | reflexivity]. }
  split; [exact H1|]. split; [exact H2|]. split; [exact H3|].
  exact (renderStatsGrid_empty_message ls blank t H1 H2 H3).
Defined.

(** * Properties of the input *)





(** * Screens and the steps of a round *)

Section Screens.

Implicit Types (d : document).

Lemma classList_add_contains id c id' c' d :
  classList_contains id' c' (classList_add id c d) =
    if decide (id' = id)
    then bool_decide (c' = c) || classList_contains id c' d
    else classList_contains id' c' d.
Proof.
  unfold classList_contains, classList_add, classList. cbn [classes].
  case_decide as Hid.
  - subst id'. rewrite lookup_insert_eq. cbn [from_option]. unfold Datatypes.id.
    rewrite <- bool_decide_or. apply bool_decide_ext.
    rewrite elem_of_union, elem_of_singleton. tauto.
  - by rewrite lookup_insert_ne.
Qed.

Lemma classList_remove_contains id c id' c' d :
  classList_contains id' c' (classList_remove id c d) =
    if decide (id' = id)
    then negb (bool_decide (c' = c)) && classList_contains id c' d
    else classList_contains id' c' d.
Proof.
  unfold classList_contains, classList_remove, classList. cbn [classes].
  case_decide as Hid.
  - subst id'. rewrite lookup_insert_eq. cbn [from_option]. unfold Datatypes.id.
    rewrite <- bool_decide_not, <- bool_decide_and. apply bool_decide_ext.
    rewrite elem_of_difference, elem_of_singleton. tauto.
  - by rewrite lookup_insert_ne.
Qed.

(** After [showScreen], the screen shown is the one active screen. *)
Lemma showScreen_active screen x d :
  screen ∈ screens → x ∈ screens →
  classList_contains x "active" (showScreen screen d) = bool_decide (x = screen).
Proof.
  intros Hs Hx. unfold showScreen. cbn [foldl].
  rewrite classList_add_contains.
  destruct (decide (x = screen)) as [->|Hne].
  { by rewrite !bool_decide_eq_true_2 by done. }
  rewrite (bool_decide_eq_false_2 _ Hne).
  rewrite !classList_remove_contains.
  rewrite (bool_decide_eq_true_2 ("active" = "active")) by done. cbn [negb andb].
  unfold screens in Hx.
  rewrite !elem_of_cons, elem_of_nil in Hx.
  destruct Hx as [->|[->|[->|[]]]]; repeat (case_decide; try done).
Qed.

Lemma set_textContent_contains x c id v d :
  classList_contains x c (set_textContent id v d) = classList_contains x c d.
Proof. reflexivity. Qed.

Lemma set_innerHTML_contains x c id v d :
  classList_contains x c (set_innerHTML id v d) = classList_contains x c d.
Proof. reflexivity. Qed.

Lemma showScreen_contents screen d : contents (showScreen screen d) = contents d.
Proof. reflexivity. Qed.

End Screens.

Section Flow.

Implicit Types (s : game) (q : Question.t).

Lemma handles_app es1 es2 s :
  handles (es1 ++ es2) s = handles es1 s ≫= handles es2.
Proof.
  revert s. induction es1 as [|[e now] es1 IH]; intros s; [done|].
  cbn [app handles]. destruct (handle e now s) as [s1|]; [apply IH | done].
Qed.

Lemma showQuestion_spec now s q :
  questions s !! currentIndex s = Some q →
  ∃ s', showQuestion now s = Some s' ∧
    currentAnswer s' = "" ∧ questionStartTime s' = now ∧ input_ok s' ∧
    contents (page s') !! "question" =
      Some (Text (pretty (Question.a q) +:+ " × " +:+ pretty (Question.b q) +:+ " =")) ∧
    contents (page s') !! "progress" =
      Some (Text (pretty (currentIndex s + 1)%nat +:+ " / " +:+ pretty TOTAL_QUESTIONS)) ∧
    (∀ x, x ∈ screens →
       classList_contains x "active" (page s') = classList_contains x "active" (page s)) ∧
    questions s' = questions s ∧ currentIndex s' = currentIndex s ∧
    roundResults s' = roundResults s ∧ storage s' = storage s ∧
    timeouts s' = timeouts s ∧ nextTimeout s' = nextTimeout s ∧
    isShowingFeedback s' = isShowingFeedback s ∧
    feedbackTimeout s' = feedbackTimeout s ∧ randomSource s' = randomSource s.
Proof.
  intros Hq. unfold showQuestion. rewrite Hq. cbn [mbind option_bind].
  eexists. split; [reflexivity|]. fields.
  split; [done|]. split; [done|]. split.
  { unfold input_ok. fields. split; [cbn; unfold MAX_DIGITS; lia|]. split; [done|].
    unfold set_textContent, classList_remove. cbn [contents].
    rewrite lookup_insert_ne by done. by rewrite lookup_insert_eq. }
  split.
  { unfold set_textContent, classList_remove. cbn [contents].
    rewrite !lookup_insert_ne by done. by rewrite lookup_insert_eq. }
  split.
  { unfold set_textContent, classList_remove. cbn [contents].
    by rewrite lookup_insert_eq. }
  split; [|done].
  intros x Hx. rewrite set_textContent_contains.
  rewrite !classList_remove_contains.
  unfold screens in Hx. rewrite !elem_of_cons, elem_of_nil in Hx.
  destruct Hx as [->|[->|[->|[]]]]; rewrite !decide_False by done;
    by rewrite !set_textContent_contains.
Qed.

Lemma startGame_spec table now s :
  valid_mode table →
  ∃ s', startGame table now s = Some s' ∧
    length (questions s') = TOTAL_QUESTIONS ∧
    Forall (λ q, (1 ≤ Question.a q ≤ 12)%Z ∧ (1 ≤ Question.b q ≤ 12)%Z ∧
                 Question.answer q = (Question.a q * Question.b q)%Z) (questions s') ∧
    currentIndex s' = 0%nat ∧ roundResults s' = [] ∧ currentAnswer s' = "" ∧
    questionStartTime s' = now ∧ input_ok s' ∧
    (∀ x, x ∈ screens →
       classList_contains x "active" (page s') = bool_decide (x = "game-screen")) ∧
    contents (page s') !! "progress" =
      Some (Text (pretty 1%nat +:+ " / " +:+ pretty TOTAL_QUESTIONS)) ∧
    storage s' = storage s ∧ timeouts s' = timeouts s ∧
    nextTimeout s' = nextTimeout s ∧ isShowingFeedback s' = isShowingFeedback s.
Proof.
  intros Hmode.
  destruct (generateQuestions_facts table (randomSource s) Hmode)
    as (fs & g2 & Hgen & Hlen & Hin).
  pose proof (present_all_displays fs g2) as Hdisp.
  unfold startGame. rewrite Hgen.
  destruct (present_all fs g2) as [qs g']. cbn [fst] in Hdisp.
  cbn [mbind option_bind].
  assert (length qs = TOTAL_QUESTIONS) as Hqs
    by (by rewrite <- (Forall2_length _ _ _ Hdisp)).
  set (s1 := set_page _ _).
  assert (is_Some (questions s1 !! currentIndex s1)) as [q Hq].
  { unfold s1. fields. apply lookup_lt_is_Some. rewrite Hqs.
    unfold TOTAL_QUESTIONS. lia. }
  destruct (showQuestion_spec now s1 q Hq)
    as (s' & -> & Hans & Htime & Hok & _ & Hprog & Hscr & Hqs' & Hidx & Hres &
        Hst & Hto & Hnt & Hfb & _).
  exists s'. split; [done|]. rewrite Hqs', Hidx, Hres, Hst, Hto, Hnt, Hfb.
  unfold s1 in *. fields.
  split; [done|]. split.
  { clear -Hdisp Hin. induction Hdisp as [|f q' fs' qs' Hd _ IH]; [done|].
    apply Forall_cons in Hin as [Hf Hfs]. constructor; [|by apply IH].
    destruct (displays_in_table f q' Hd Hf) as [? ?].
    split; [done|]. split; [done|]. by eapply displays_answer. }
  split; [done|]. split; [done|]. split; [done|]. split; [done|].
  split; [done|]. split.
  { intros x Hx. rewrite Hscr by done. apply showScreen_active; [|done].
    unfold screens. rewrite !elem_of_cons. tauto. }
  split; [exact Hprog | done].
Qed.

Lemma submitAnswer_spec now s q (t : StatsTable) :
  questions s !! currentIndex s = Some q → currentAnswer s ≠ "" →
  isShowingFeedback s = false → table_of (storage s) = Some t →
  let userAnswer := parseInt (currentAnswer s) in
  let correct := bool_decide (userAnswer = Some (Question.answer q)) in
  let timeSec := ((now - questionStartTime s) / int 1000)%js in
  ∃ s', submitAnswer now s = Some s' ∧
    roundResults s' =
      roundResults s ++
        [{| Result.a := Question.a q; Result.b := Question.b q;
            Result.correct := correct; Result.userAnswer := userAnswer;
            Result.expected := Question.answer q;
            Result.timeTaken := timeSec |}] ∧
    table_of (storage s') =
      Some (written_record <$>
              <[statKey (Question.a q) (Question.b q) :=
                  updated (t !! statKey (Question.a q) (Question.b q))
                    (computeScore correct timeSec)]> t) ∧
    isShowingFeedback s' = true ∧
    timeouts s' =
      <[nextTimeout s := (if correct then 800 else 1500)%Z]> (timeouts s) ∧
    feedbackTimeout s' = Some (nextTimeout s) ∧
    nextTimeout s' = S (nextTimeout s) ∧
    questions s' = questions s ∧ currentIndex s' = currentIndex s ∧
    currentAnswer s' = currentAnswer s ∧
    (∀ x, x ∈ screens →
       classList_contains x "active" (page s') = classList_contains x "active" (page s)).
Proof.
  intros Hq Hans Hfb Ht userAnswer correct timeSec.
  unfold submitAnswer. rewrite decide_False by done. rewrite Hfb, Hq.
  cbn [mbind option_bind]. fold userAnswer. fold correct. fold timeSec.
  fields.
  destruct (updateStats_table_of (Question.a q) (Question.b q) correct timeSec
              (storage s) t Ht) as (ls' & -> & Ht').
  cbn [mbind option_bind].
  eexists. split; [reflexivity|].
  unfold showFeedback, setTimeout. fields.
  split; [done|]. split; [done|]. split; [done|]. split; [done|].
  split; [done|]. split; [done|]. split; [done|]. split; [done|].
  split; [done|].
  intros x Hx. rewrite classList_add_contains, !set_textContent_contains.
  unfold screens in Hx. rewrite !elem_of_cons, elem_of_nil in Hx.
  destruct Hx as [->|[->|[->|[]]]]; rewrite decide_False by done;
    unfold classList_contains, classList, set_className; cbn [classes];
    by rewrite lookup_insert_ne.
Qed.

Lemma showResults_spec s :
  (∀ x, x ∈ screens →
     classList_contains x "active" (page (showResults s)) =
       bool_decide (x = "results-screen")) ∧
  contents (page (showResults s)) !! "results-score" =
    Some (Text (pretty (correctCount s) +:+ " / " +:+ pretty TOTAL_QUESTIONS)) ∧
  roundResults (showResults s) = roundResults s ∧
  isShowingFeedback (showResults s) = isShowingFeedback s ∧
  timeouts (showResults s) = timeouts s ∧
  nextTimeout (showResults s) = nextTimeout s.
Proof.
  split; [|split; [|done]].
  - intros x Hx. unfold showResults. fields. apply showScreen_active; [|done].
    unfold screens. rewrite !elem_of_cons. tauto.
  - unfold showResults. fields. rewrite showScreen_contents.
    fold (correctCount s).
    case_decide; unfold set_textContent, set_innerHTML; cbn [contents];
      rewrite lookup_insert_ne by done; by rewrite lookup_insert_eq.
Qed.

Lemma digits_run (ds : list ascii) now : ∀ s,
  Forall (λ c, is_digit c = true) ds → input_ok s → isShowingFeedback s = false →
  ds ≠ [] ∨ currentAnswer s ≠ "" →
  ∃ s', handles ((λ c, (ClickNum (String c EmptyString), now)) <$> ds) s = Some s' ∧
    input_ok s' ∧ same_round s s' ∧ currentAnswer s' ≠ "".
Proof.
  induction ds as [|c ds IH]; intros s Hds Hok Hfb Hne.
  - destruct Hne as [?|Hne]; [done|]. exists s.
    split; [done|]. split; [done|]. split; [apply same_round_refl | done].
  - apply Forall_cons in Hds as [Hc Hds]. cbn [fmap list_fmap handles handle].
    cbn [mbind option_bind].
    destruct (pressDigit_ok c s Hc Hok) as [Hok1 Hne1].
    pose proof (pressDigit_same (String c "") s) as Hsame1.
    destruct (IH (pressDigit (String c "") s) Hds Hok1) as (s' & Hrun & Hok' & Hsame' & Hne').
    { destruct Hsame1 as (_ & _ & _ & _ & _ & _ & -> & _). done. }
    { right. by apply Hne1. }
    exists s'. split; [done|]. split; [done|].
    split; [by eapply same_round_trans | done].
Qed.

Lemma turn_spec i s ds t1 t2 :
  asking i s → ds ≠ [] → Forall (λ c, is_digit c = true) ds →
  ∃ s', handles (turn (nextTimeout s) ds t1 t2) s = Some s' ∧
    nextTimeout s' = S (nextTimeout s) ∧
    length (roundResults s') = S i ∧
    ((S i < TOTAL_QUESTIONS)%nat → asking (S i) s') ∧
    (S i = TOTAL_QUESTIONS → finished s').
Proof.
  intros (Hqs & Hidx & Hi & Hres & Hfb & Hto & [t Ht] & Hok) Hne Hds.
  unfold turn. rewrite handles_app.
  destruct (digits_run ds t1 s Hds Hok Hfb (or_introl Hne))
    as (s1 & -> & Hok1 & Hsame1 & Hne1).
  cbn [mbind option_bind handles handle].
  destruct Hsame1 as (Hqs1 & Hidx1 & Hres1 & Hst1 & Hto1 & Hnt1 & Hfb1 & _ & _).
  assert (is_Some (questions s1 !! currentIndex s1)) as [q Hq].
  { apply lookup_lt_is_Some. rewrite Hqs1, Hidx1, Hqs, Hidx. done. }
  destruct (submitAnswer_spec t1 s1 q t Hq Hne1) as
    (s2 & -> & Hres2 & Ht2 & Hfb2 & Hto2 & _ & Hnt2 & Hqs2 & Hidx2 & _ & _).
  { by rewrite Hfb1. }
  { by rewrite Hst1. }
  cbn [mbind option_bind].
  rewrite Hto2, Hnt1, Hto1, Hto, lookup_insert_eq. cbn [mbind option_bind].
  rewrite delete_insert_eq, delete_empty.
  unfold feedbackDone. fields.
  rewrite Hidx2, Hidx1, Hidx.
  destruct (Nat.leb_spec TOTAL_QUESTIONS (i + 1)) as [Hlast|Hnext].
  - eexists. split; [reflexivity|].
    destruct (showResults_spec
      (set_currentIndex (i + 1) (set_isShowingFeedback false
        (set_page (set_className "feedback-overlay" ["feedback-overlay"] (page s2))
           (set_timeouts ∅ s2)))))
      as (Hscr & Hscore & Hr & Hf & Hti & Hn).
    split; [rewrite Hn; fields; lia|]. split.
    { rewrite Hr. fields. rewrite Hres2, length_app, Hres1, Hres. cbn. lia. }
    split; [unfold TOTAL_QUESTIONS in *; lia|]. intros _.
    split.
    { rewrite Hr. fields. rewrite Hres2, length_app, Hres1, Hres. cbn.
      unfold TOTAL_QUESTIONS in *. lia. }
    split; [by rewrite Hf|]. split; [by rewrite Hti|]. split; [exact Hscr|].
    rewrite Hscore. unfold correctCount. by rewrite Hr.
  - set (s3 := set_currentIndex _ _).
    assert (is_Some (questions s3 !! currentIndex s3)) as [q' Hq'].
    { unfold s3. fields. apply lookup_lt_is_Some.
      rewrite Hqs2, Hqs1, Hqs. done. }
    destruct (showQuestion_spec t2 s3 q' Hq')
      as (s' & -> & _ & _ & Hok' & _ & _ & _ & Hqs' & Hidx' & Hres' & Hst' &
          Hto' & Hnt' & Hfb' & _).
    exists s'. unfold s3 in *. fields.
    split; [done|]. split; [lia|]. split.
    { rewrite Hres', Hres2, length_app, Hres1, Hres. cbn. lia. }
    split; [|unfold TOTAL_QUESTIONS in *; lia]. intros _.
    unfold asking. rewrite Hqs', Hqs2, Hqs1, Hidx', Hres', Hres2, Hfb', Hto', Hst', Ht2.
    rewrite length_app, Hres1, Hres. cbn [length].
    split; [done|]. split; [lia|]. split; [lia|]. split; [lia|].
    split; [done|]. split; [done|]. split; [by eexists | done].
Qed.

Lemma play_spec turns : ∀ i s,
  asking i s → (i + length turns = TOTAL_QUESTIONS)%nat →
  Forall (λ '(ds, _, _), ds ≠ [] ∧ Forall (λ c, is_digit c = true) ds) turns →
  ∃ s', handles (play (nextTimeout s) turns) s = Some s' ∧ finished s'.
Proof.
  induction turns as [|[[ds t1] t2] turns IH]; intros i s Hask Hlen Hturns.
  - destruct Hask as (_ & _ & Hi & _). cbn in Hlen. lia.
  - apply Forall_cons in Hturns as [[Hne Hds] Hturns].
    cbn [play]. rewrite handles_app.
    destruct (turn_spec i s ds t1 t2 Hask Hne Hds)
      as (s1 & -> & Hnt & _ & Hnext & Hlast).
    cbn [mbind option_bind]. cbn [length] in Hlen.
    destruct turns as [|turn' turns].
    + cbn [play handles]. exists s1. split; [done|]. apply Hlast. cbn in Hlen. lia.
    + rewrite <- Hnt. apply (IH (S i)); [|lia|done].
      apply Hnext. cbn [length] in Hlen. lia.
Qed.

End Flow.

(** * Numerals *)

Section Numerals.

Lemma digit_of_pretty d :
  (d < 10)%N → digit_of (pretty_N_char d) = Some (Z.of_N d).
Proof.
  intros Hd.
  assert (d = 0 ∨ d = 1 ∨ d = 2 ∨ d = 3 ∨ d = 4 ∨ d = 5 ∨ d = 6 ∨ d = 7 ∨
          d = 8 ∨ d = 9)%N as Hcases by lia.
  repeat (destruct Hcases as [->|Hcases]; [reflexivity|]). by subst.
Qed.

Lemma is_digit_pretty d : is_digit (pretty_N_char d) = true.
Proof. unfold pretty_N_char. by repeat case_match. Qed.

(** Reading the digits that [pretty] writes in front of [s]. *)
Lemma digits_pretty_go x :
  (0 < x)%N →
  ∃ k : Z, (0 ≤ k)%Z ∧ ∀ acc s,
    digits acc (pretty_N_go x s) =
      digits (Some (default 0 acc * 10 ^ k + Z.of_N x)%Z) s.
Proof.
  induction (N.lt_wf_0 x) as [x _ IH]. intros Hx.
  pose proof (N.mod_lt x 10 ltac:(lia)) as Hmod.
  assert (Z.of_N x = 10 * Z.of_N (x `div` 10) + Z.of_N (x `mod` 10))%Z as Hdm.
  { pose proof (N.div_mod x 10 ltac:(lia)). lia. }
  destruct (decide (x `div` 10 = 0)%N) as [Hz|Hnz].
  - exists 1%Z. split; [lia|]. intros acc s.
    rewrite pretty_N_go_step, Hz, pretty_N_go_0 by done.
    cbn [digits]. rewrite digit_of_pretty by done. f_equal. f_equal.
    rewrite Hdm, Hz. lia.
  - destruct (IH (x `div` 10)%N) as (k & Hk0 & Hk); [apply N.div_lt; lia | lia |].
    exists (k + 1)%Z. split; [lia|]. intros acc s.
    rewrite pretty_N_go_step, Hk by done.
    cbn [digits]. rewrite digit_of_pretty by done. f_equal. f_equal.
    cbn [default from_option]. unfold Datatypes.id.
    rewrite Z.pow_add_r by lia.
    transitivity (default 0%Z acc * (10 ^ k * 10 ^ 1) +
                    (10 * Z.of_N (x `div` 10) + Z.of_N (x `mod` 10)))%Z;
      [|by rewrite <- Hdm].
    change (from_option (λ x0 : Z, x0) 0%Z acc) with (default 0%Z acc).
    generalize (default 0%Z acc) (10 ^ k)%Z. intros a b. ring.
Qed.

Lemma digits_pretty_N (x : N) : digits None (pretty x) = Some (Z.of_N x).
Proof.
  unfold pretty, pretty_N. case_decide as Hx; [by subst|].
  destruct (digits_pretty_go x ltac:(lia)) as (k & _ & Hk).
  rewrite Hk. cbn [digits default from_option]. f_equal.
Qed.

(** On a string of digits [parseInt] reads the digits. *)
Lemma parseInt_digits s :
  all_chars is_digit s = true → parseInt s = digits None s.
Proof.
  destruct s as [|c s]; [done|]. cbn [all_chars].
  intros [Hc _]%andb_true_iff.
  destruct c as [[] [] [] [] [] [] [] []]; try discriminate Hc; reflexivity.
Qed.

(** [parseInt] reads back the numeral of an integer. *)
Lemma parseInt_numeral (n : Z) : parseInt (pretty n) = Some n.
Proof.
  destruct n as [|p|p]; unfold pretty, pretty_Z.
  - reflexivity.
  - rewrite parseInt_digits by (apply (pretty_N_chars is_digit (Npos p)), is_digit_pretty).
    apply (digits_pretty_N (Npos p)).
  - change ("-" +:+ pretty p) with (String "-" (pretty (Npos p))).
    change (parseInt (String "-" (pretty (Npos p))))
      with (Z.opp <$> digits None (pretty (Npos p))).
    by rewrite (digits_pretty_N (Npos p)).
Qed.

End Numerals.

(** * Feedback, the back button and the results *)

Section More.

Implicit Types (s : game).

Lemma input_ignored e now s :
  input e → isShowingFeedback s = true → handle e now s = Some s.
Proof.
  intros He Hfb. destruct e; try done; cbn [handle].
  - unfold pressDigit. by rewrite Hfb.
  - unfold pressBackspace. by rewrite Hfb.
  - unfold submitAnswer. rewrite Hfb. by case_decide.
  - unfold keydown, pressDigit, pressBackspace, submitAnswer. rewrite Hfb.
    by repeat case_match.
Qed.

Lemma inputs_ignored es : ∀ s,
  Forall (λ en, input en.1) es → isShowingFeedback s = true →
  handles es s = Some s.
Proof.
  induction es as [|[e now] es IH]; intros s Hes Hfb; [done|].
  apply Forall_cons in Hes as [He Hes]. cbn [handles].
  rewrite (input_ignored e now s He Hfb). cbn [mbind option_bind]. by apply IH.
Qed.

Lemma back_spec s id :
  feedbackTimeout s = Some id → timeouts s = {[id := timeouts s !!! id]} →
  timeouts (back s) = ∅ ∧ isShowingFeedback (back s) = false ∧
  (∀ x, x ∈ screens →
     classList_contains x "active" (page (back s)) = bool_decide (x = "start-screen")) ∧
  storage (back s) = storage s ∧ nextTimeout (back s) = nextTimeout s.
Proof.
  intros Hft Hto. unfold back, clearTimeout. rewrite Hft. fields.
  split; [by rewrite Hto, delete_singleton_eq|]. split; [done|].
  split; [|done].
  intros x Hx. apply showScreen_active; [|done].
  unfold screens. rewrite !elem_of_cons. tauto.
Qed.

Lemma filter_all {A} (P : A → Prop) `{∀ x, Decision (P x)} (l : list A) :
  length (filter P l) = length l ↔ Forall P l.
Proof.
  induction l as [|x l IH]; [by split|].
  rewrite filter_cons. pose proof (length_filter P l) as Hle.
  case_decide as HP; cbn [length].
  - rewrite Forall_cons. split.
    + intros [= Hlen]. split; [done | by apply IH].
    + intros [_ Hl]. f_equal. by apply IH.
  - split; [lia|]. by intros [? _]%Forall_cons.
Qed.

Lemma filter_none {A} (P : A → Prop) `{∀ x, Decision (P x)} (l : list A) :
  length (filter (λ x, ¬ P x) l) = 0%nat ↔ Forall P l.
Proof.
  induction l as [|x l IH]; [by split|].
  rewrite filter_cons.
  case_decide as HP; cbn [length].
  - split; [lia|]. intros [? _]%Forall_cons; done.
  - rewrite Forall_cons, IH. tauto.
Qed.

End More.

(** * Properties of the game flow *)

(** X10: after [showScreen], the screen shown is active and the other two
    are not, whatever was active before. *)
Theorem showScreen_one_active (screen x : string) (d : document) :
  screen ∈ screens → x ∈ screens →
  classList_contains x "active" (showScreen screen d) = bool_decide (x = screen).
Proof. apply showScreen_active. Qed.

Lemma showScreen_one_active_witness :
  "game-screen" ∈ screens ∧ "start-screen" ∈ screens ∧
  classList_contains "start-screen" "active"
    (showScreen "game-screen" (classList_add "start-screen" "active" blank)) =
    bool_decide ("start-screen" = "game-screen").
Proof.
  assert ("game-screen" ∈ screens) as H1
    by (unfold screens; rewrite !elem_of_cons; tauto).
  assert ("start-screen" ∈ screens) as H2
    by (unfold screens; rewrite !elem_of_cons; tauto).
  split; [exact H1|]. split; [exact H2|].
  exact (showScreen_one_active "game-screen" "start-screen" _ H1 H2).
Defined.

(** X11: a click on a table button starts a round: 15 questions with
    operands in 1..12 and the product as answer, the first one asked at the
    time of the click with an empty answer, no result yet, the game screen
    shown with the progress [1 / 15]; the store and the timeouts are left
    alone. *)
Theorem startGame_begins_round (table : string) (now : number) (s : game) :
  valid_mode table →
  ∃ s', startGame table now s = Some s' ∧
    length (questions s') = TOTAL_QUESTIONS ∧
    Forall (λ q, (1 ≤ Question.a q ≤ 12)%Z ∧ (1 ≤ Question.b q ≤ 12)%Z ∧
                 Question.answer q = (Question.a q * Question.b q)%Z) (questions s') ∧
    currentIndex s' = 0%nat ∧ roundResults s' = [] ∧ currentAnswer s' = "" ∧
    questionStartTime s' = now ∧ input_ok s' ∧
    (∀ x, x ∈ screens →
       classList_contains x "active" (page s') = bool_decide (x = "game-screen")) ∧
    contents (page s') !! "progress" =
      Some (Text (pretty 1%nat +:+ " / " +:+ pretty TOTAL_QUESTIONS)) ∧
    storage s' = storage s ∧ timeouts s' = timeouts s ∧
    nextTimeout s' = nextTimeout s ∧ isShowingFeedback s' = isShowingFeedback s.
Proof. apply startGame_spec. Qed.

Lemma startGame_begins_round_witness :
  let s := loaded blank ∅ (λ _, 0%N) in
  valid_mode "7" ∧
  ∃ s', startGame "7" (int 0) s = Some s' ∧
    length (questions s') = TOTAL_QUESTIONS ∧
    Forall (λ q, (1 ≤ Question.a q ≤ 12)%Z ∧ (1 ≤ Question.b q ≤ 12)%Z ∧
                 Question.answer q = (Question.a q * Question.b q)%Z) (questions s') ∧
    currentIndex s' = 0%nat ∧ roundResults s' = [] ∧ currentAnswer s' = "" ∧
    questionStartTime s' = int 0 ∧ input_ok s' ∧
    (∀ x, x ∈ screens →
       classList_contains x "active" (page s') = bool_decide (x = "game-screen")) ∧
    contents (page s') !! "progress" =
      Some (Text (pretty 1%nat +:+ " / " +:+ pretty TOTAL_QUESTIONS)) ∧
    storage s' = storage s ∧ timeouts s' = timeouts s ∧
    nextTimeout s' = nextTimeout s ∧ isShowingFeedback s' = isShowingFeedback s.
Proof.
  intros s.
  assert (valid_mode "7") as H by (right; exists 7%Z; split; [lia | reflexivity]).
  split; [exact H|].
  exact (startGame_begins_round "7" (int 0) s H).
Defined.

(** X12: an answer that is submitted is recorded once: one result is added
    to the round, with the operands as displayed and the time since the
    question was shown, in seconds; the record of the fact, under the key of
    the operands as displayed, gets the one update of [updateStats]; and the
    feedback starts, with one timeout of 800 ms after a correct answer and of
    1500 ms after a wrong one. *)
Theorem submitAnswer_records (now : number) (s : game) (q : Question.t)
    (t : StatsTable) :
  questions s !! currentIndex s = Some q → currentAnswer s ≠ "" →
  isShowingFeedback s = false → table_of (storage s) = Some t →
  let userAnswer := parseInt (currentAnswer s) in
  let correct := bool_decide (userAnswer = Some (Question.answer q)) in
  let timeSec := ((now - questionStartTime s) / int 1000)%js in
  ∃ s', submitAnswer now s = Some s' ∧
    roundResults s' =
      roundResults s ++
        [{| Result.a := Question.a q; Result.b := Question.b q;
            Result.correct := correct; Result.userAnswer := userAnswer;
            Result.expected := Question.answer q;
            Result.timeTaken := timeSec |}] ∧
    table_of (storage s') =
      Some (written_record <$>
              <[statKey (Question.a q) (Question.b q) :=
                  updated (t !! statKey (Question.a q) (Question.b q))
                    (computeScore correct timeSec)]> t) ∧
    isShowingFeedback s' = true ∧
    timeouts s' =
      <[nextTimeout s := (if correct then 800 else 1500)%Z]> (timeouts s) ∧
    feedbackTimeout s' = Some (nextTimeout s) ∧
    nextTimeout s' = S (nextTimeout s) ∧
    questions s' = questions s ∧ currentIndex s' = currentIndex s ∧
    currentAnswer s' = currentAnswer s ∧
    (∀ x, x ∈ screens →
       classList_contains x "active" (page s') = classList_contains x "active" (page s)).
Proof. apply submitAnswer_spec. Qed.

Lemma submitAnswer_records_witness :
  let q := {| Question.a := 7; Question.b := 6; Question.answer := 42 |} in
  let s := example_game in
  let now := int 3000 in
  questions s !! currentIndex s = Some q ∧ currentAnswer s ≠ "" ∧
  isShowingFeedback s = false ∧ table_of (storage s) = Some ∅ ∧
  let userAnswer := parseInt (currentAnswer s) in
  let correct := bool_decide (userAnswer = Some (Question.answer q)) in
  let timeSec := ((now - questionStartTime s) / int 1000)%js in
  ∃ s', submitAnswer now s = Some s' ∧
    roundResults s' =
      roundResults s ++
        [{| Result.a := Question.a q; Result.b := Question.b q;
            Result.correct := correct; Result.userAnswer := userAnswer;
            Result.expected := Question.answer q;
            Result.timeTaken := timeSec |}] ∧
    table_of (storage s') =
      Some (written_record <$>
              <[statKey (Question.a q) (Question.b q) :=
                  updated ((∅ : StatsTable) !! statKey (Question.a q) (Question.b q))
                    (computeScore correct timeSec)]> ∅) ∧
    isShowingFeedback s' = true ∧
    timeouts s' =
      <[nextTimeout s := (if correct then 800 else 1500)%Z]> (timeouts s) ∧
    feedbackTimeout s' = Some (nextTimeout s) ∧
    nextTimeout s' = S (nextTimeout s) ∧
    questions s' = questions s ∧ currentIndex s' = currentIndex s ∧
    currentAnswer s' = currentAnswer s ∧
    (∀ x, x ∈ screens →
       classList_contains x "active" (page s') = classList_contains x "active" (page s)).
Proof.
  intros q s now.
  assert (questions s !! currentIndex s = Some q) as H1 by reflexivity.
  assert (currentAnswer s ≠ "") as H2 by discriminate.
  assert (isShowingFeedback s = false) as H3 by reflexivity.
  assert (table_of (storage s) = Some ∅) as H4 by reflexivity.
  split; [exact H1|]. split; [exact H2|]. split; [exact H3|]. split; [exact H4|].
  exact (submitAnswer_records now s q ∅ H1 H2 H3 H4).
Defined.

(** X13: the answer typed is judged by its value: when the buffer holds the
    decimal numeral of [n], the result records [n] as the answer given and is
    correct exactly when [n] is the product asked for; the feedback says
    [Nice!] in that case and gives the product otherwise. *)
Theorem submitAnswer_judges (now : number) (s : game) (q : Question.t)
    (t : StatsTable) (n : Z) :
  questions s !! currentIndex s = Some q → isShowingFeedback s = false →
  table_of (storage s) = Some t → currentAnswer s = pretty n →
  ∃ s' r, submitAnswer now s = Some s' ∧
    last (roundResults s') = Some r ∧
    Result.userAnswer r = Some n ∧
    Result.correct r = bool_decide (n = Question.answer q) ∧
    contents (page s') !! "feedback-text" =
      Some (Text (if bool_decide (n = Question.answer q) then "Nice!"
                  else "Answer: " +:+ pretty (Question.answer q))) ∧
    classList "feedback-overlay" (page s') =
      {[ "feedback-overlay"; "show";
         if bool_decide (n = Question.answer q) then "correct" else "incorrect" ]}.
Proof.
  intros Hq Hfb Ht Hans.
  assert (currentAnswer s ≠ "") as Hne.
  { rewrite Hans. intros Hempty.
    pose proof (parseInt_numeral n) as Hp. by rewrite Hempty in Hp. }
  unfold submitAnswer. rewrite decide_False by done. rewrite Hfb, Hq.
  cbn [mbind option_bind]. rewrite Hans, parseInt_numeral.
  assert (bool_decide (Some n = Some (Question.answer q)) =
          bool_decide (n = Question.answer q)) as ->.
  { apply bool_decide_ext. split; [by intros [= ->] | by intros ->]. }
  set (correct := bool_decide (n = Question.answer q)).
  fields.
  destruct (updateStats_table_of (Question.a q) (Question.b q) correct
              ((now - questionStartTime s) / int 1000)%js (storage s) t Ht)
    as (ls' & -> & _).
  cbn [mbind option_bind].
  eexists _, _. split; [reflexivity|].
  unfold showFeedback, setTimeout. fields.
  split; [apply last_snoc|]. split; [done|]. split; [done|]. split.
  - unfold classList_add, set_textContent. cbn [contents].
    by rewrite lookup_insert_eq.
  - unfold classList, classList_add, set_textContent, set_className.
    cbn [classes]. rewrite lookup_insert_ne by done. rewrite lookup_insert_eq.
    cbn [from_option list_to_set]. unfold Datatypes.id.
    by rewrite (right_id_L ∅ (∪)), (assoc_L (∪)).
Qed.

Lemma submitAnswer_judges_witness :
  let q := {| Question.a := 7; Question.b := 6; Question.answer := 42 |} in
  let s := example_game in
  questions s !! currentIndex s = Some q ∧ isShowingFeedback s = false ∧
  table_of (storage s) = Some ∅ ∧ currentAnswer s = pretty 42%Z ∧
  ∃ s' r, submitAnswer (int 3000) s = Some s' ∧
    last (roundResults s') = Some r ∧
    Result.userAnswer r = Some 42%Z ∧
    Result.correct r = bool_decide (42%Z = Question.answer q) ∧
    contents (page s') !! "feedback-text" =
      Some (Text (if bool_decide (42%Z = Question.answer q) then "Nice!"
                  else "Answer: " +:+ pretty (Question.answer q))) ∧
    classList "feedback-overlay" (page s') =
      {[ "feedback-overlay"; "show";
         if bool_decide (42%Z = Question.answer q) then "correct" else "incorrect" ]}.
Proof.
  intros q s.
  assert (questions s !! currentIndex s = Some q) as H1 by reflexivity.
  assert (isShowingFeedback s = false) as H2 by reflexivity.
  assert (table_of (storage s) = Some ∅) as H3 by reflexivity.
  assert (currentAnswer s = pretty 42%Z) as H4 by reflexivity.
  split; [exact H1|]. split; [exact H2|]. split; [exact H3|]. split; [exact H4|].
  exact (submitAnswer_judges (int 3000) s q ∅ 42 H1 H2 H3 H4).
Defined.

(** X14: while the feedback of an answer is shown, the input is ignored:
    digits, backspace and enter, by button or by key, leave the state as it
    is, so that an answer cannot be submitted twice. *)
Theorem feedback_ignores_input (es : list (event * number)) (s : game) :
  isShowingFeedback s = true → Forall (λ en, input en.1) es →
  handles es s = Some s.
Proof.
  intros Hfb. revert s Hfb.
  induction es as [|[e now] es IH]; intros s Hfb Hes; [done|].
  apply Forall_cons in Hes as [He Hes]. cbn [handles].
  rewrite (input_ignored e now s He Hfb). cbn [mbind option_bind]. by apply IH.
Qed.

Lemma feedback_ignores_input_witness :
  let s := set_isShowingFeedback true example_game in
  let es := [ (ClickEnter, int 0); (KeyDown "Enter", int 0); (ClickNum "1", int 0);
              (ClickBackspace, int 0) ] in
  isShowingFeedback s = true ∧ Forall (λ en, input en.1) es ∧
  handles es s = Some s.
Proof.
  intros s es.
  assert (isShowingFeedback s = true) as H1 by reflexivity.
  assert (Forall (λ en, input en.1) es) as H2 by (repeat constructor).
  split; [exact H1|]. split; [exact H2|].
  exact (feedback_ignores_input es s H1 H2).
Defined.

(** X15: a round is 15 answers long.  After a click on a table button,
    fifteen turns of the player (some digits, enter, and the end of the
    feedback) lead to the results screen: it is the one screen shown, the
    round holds 15 results, the score reads the number of correct answers out
    of 15, and no feedback or timeout is left. *)
Theorem round_of_fifteen (table : string) (now : number)
    (turns : list (list ascii * number * number)) (s : game) :
  valid_mode table → length turns = TOTAL_QUESTIONS →
  Forall (λ '(ds, _, _), ds ≠ [] ∧ Forall (λ c, is_digit c = true) ds) turns →
  isShowingFeedback s = false → timeouts s = ∅ →
  is_Some (table_of (storage s)) →
  ∃ s',
    handles ((ClickTable table, now) :: play (nextTimeout s) turns) s = Some s' ∧
    finished s'.
Proof.
  intros Hmode Hlen Hturns Hfb Hto Ht. cbn [handles handle].
  destruct (startGame_spec table now s Hmode)
    as (s0 & -> & Hqs & _ & Hidx & Hres & _ & _ & Hok & _ & _ & Hst & Hto0 & Hnt & Hfb0).
  cbn [mbind option_bind]. rewrite <- Hnt.
  apply (play_spec turns 0); [|by rewrite Hlen|done].
  unfold asking. rewrite Hidx, Hres, Hfb0, Hto0, Hst.
  split; [done|]. split; [done|]. split; [unfold TOTAL_QUESTIONS; lia|].
  split; [done|]. split; [done|]. split; [done|]. split; [done|]. done.
Qed.

Lemma round_of_fifteen_witness :
  let s := loaded blank ∅ (λ _, 0%N) in
  let turns := replicate 15 (["4"; "2"]%char, int 2000, int 3000) in
  valid_mode "7" ∧ length turns = TOTAL_QUESTIONS ∧
  Forall (λ '(ds, _, _), ds ≠ [] ∧ Forall (λ c, is_digit c = true) ds) turns ∧
  isShowingFeedback s = false ∧ timeouts s = ∅ ∧
  is_Some (table_of (storage s)) ∧
  ∃ s',
    handles ((ClickTable "7", int 1000) :: play (nextTimeout s) turns) s = Some s' ∧
    finished s'.
Proof.
  intros s turns.
  assert (valid_mode "7") as H1 by (right; exists 7%Z; split; [lia | reflexivity]).
  assert (length turns = TOTAL_QUESTIONS) as H2 by reflexivity.
  assert (Forall (λ '(ds, _, _), ds ≠ [] ∧ Forall (λ c, is_digit c = true) ds) turns)
    as H3.
  { apply Forall_replicate. split; [discriminate | by repeat constructor]. }
  assert (isShowingFeedback s = false) as H4 by reflexivity.
  assert (timeouts s = ∅) as H5 by reflexivity.
  assert (is_Some (table_of (storage s))) as H6 by (by eexists).
  split; [exact H1|]. split; [exact H2|]. split; [exact H3|]. split; [exact H4|].
  split; [exact H5|]. split; [exact H6|].
  exact (round_of_fifteen "7" (int 1000) turns s H1 H2 H3 H4 H5 H6).
Defined.

(** X16: the back button during the feedback cancels its timeout.  After an
    answer, a click on back and a click on a table button, the new round is
    at its first question with no result, no feedback and no timeout left
    that could skip a question; the answer given before the click on back
    stays recorded in the store. *)
Theorem back_then_new_round (i : nat) (s : game) (t : StatsTable)
    (q : Question.t) (t1 t2 t3 : number) (table : string) :
  asking i s → currentAnswer s ≠ "" → valid_mode table →
  questions s !! i = Some q → table_of (storage s) = Some t →
  ∃ s',
    handles [(ClickEnter, t1); (ClickBack, t2); (ClickTable table, t3)] s = Some s' ∧
    asking 0 s' ∧ roundResults s' = [] ∧
    is_Some (table_of (storage s') ≫= (.!! statKey (Question.a q) (Question.b q))).
Proof.
  intros (Hqs & Hidx & Hi & Hres & Hfb & Hto & _ & Hok) Hne Hmode Hq Ht.
  cbn [handles handle]. rewrite <- Hidx in Hq.
  destruct (submitAnswer_spec t1 s q t Hq Hne Hfb Ht)
    as (s1 & -> & _ & Ht1 & _ & Hto1 & Hft1 & _).
  cbn [mbind option_bind].
  destruct (back_spec s1 (nextTimeout s) Hft1) as (Hto2 & Hfb2 & _ & Hst2 & _).
  { rewrite Hto1, Hto. rewrite lookup_total_insert_eq. by rewrite insert_empty. }
  destruct (startGame_spec table t3 (back s1) Hmode)
    as (s' & -> & Hqs' & _ & Hidx' & Hres' & _ & _ & Hok' & _ & _ & Hst' & Hto' & _ & Hfb').
  exists s'. split; [done|]. split; [|split; [done|]].
  - unfold asking. rewrite Hidx', Hres', Hfb', Hfb2, Hto', Hto2, Hst', Hst2, Ht1.
    split; [done|]. split; [done|]. split; [unfold TOTAL_QUESTIONS; lia|].
    split; [done|]. split; [done|]. split; [done|]. split; [by eexists | done].
  - rewrite Hst', Hst2, Ht1. cbn [mbind option_bind].
    rewrite lookup_fmap, lookup_insert_eq. by eexists.
Qed.

Lemma back_then_new_round_witness :
  let q := {| Question.a := 7; Question.b := 6; Question.answer := 42 |} in
  asking 2 example_game ∧ currentAnswer example_game ≠ "" ∧ valid_mode "mixed" ∧
  questions example_game !! 2%nat = Some q ∧
  table_of (storage example_game) = Some ∅ ∧
  ∃ s',
    handles [(ClickEnter, int 3000); (ClickBack, int 3100);
             (ClickTable "mixed", int 5000)] example_game = Some s' ∧
    asking 0 s' ∧ roundResults s' = [] ∧
    is_Some (table_of (storage s') ≫= (.!! statKey (Question.a q) (Question.b q))).
Proof.
  intros q.
  assert (asking 2 example_game) as H1.
  { split; [reflexivity|]. split; [reflexivity|].
    split; [unfold TOTAL_QUESTIONS; lia|]. split; [reflexivity|].
    split; [reflexivity|]. split; [reflexivity|]. split; [by eexists|].
    split; [cbn; unfold MAX_DIGITS; lia|]. split; reflexivity. }
  assert (currentAnswer example_game ≠ "") as H2 by discriminate.
  assert (valid_mode "mixed") as H3 by (by left).
  assert (questions example_game !! 2%nat = Some q) as H4 by reflexivity.
  assert (table_of (storage example_game) = Some ∅) as H5 by reflexivity.
  split; [exact H1|]. split; [exact H2|]. split; [exact H3|]. split; [exact H4|].
  split; [exact H5|].
  exact (back_then_new_round 2 example_game ∅ q (int 3000) (int 3100) (int 5000)
           "mixed" H1 H2 H3 H4 H5).
Defined.

Lemma showResults_title s :
  contents (page (showResults s)) !! "results-title" =
    Some (Text (if decide (correctCount s = TOTAL_QUESTIONS) then "🌟 Perfect Round!"
                else if (12 <=? correctCount s)%nat then "🎉 Amazing!"
                else if (8 <=? correctCount s)%nat then "👏 Great Job!"
                else "💪 Keep Practising!")).
Proof.
  unfold showResults. fields. rewrite showScreen_contents. fold (correctCount s).
  case_decide; unfold set_textContent, set_innerHTML; cbn [contents];
    rewrite !lookup_insert_ne by done; by rewrite lookup_insert_eq.
Qed.

Lemma showResults_details s :
  contents (page (showResults s)) !! "results-details" =
    Some (let wrongOnes := filter (λ r, Result.correct r ≠ true) (roundResults s) in
          if decide (length wrongOnes = 0%nat)
          then Text "You got every question right!"
          else Html (String.concat "<br>" (resultLine <$> wrongOnes))).
Proof.
  unfold showResults. fields. rewrite showScreen_contents. cbn zeta.
  case_decide; unfold set_textContent, set_innerHTML; cbn [contents];
    by rewrite lookup_insert_eq.
Qed.

(** X17: at the end of a round of 15 results, the title is the one of a
    perfect round exactly when every answer was correct, and that is also
    exactly when the details say that every question was right, instead of
    listing the wrong answers. *)
Theorem showResults_perfect (s : game) :
  length (roundResults s) = TOTAL_QUESTIONS →
  (contents (page (showResults s)) !! "results-title" =
     Some (Text "🌟 Perfect Round!") ↔
   Forall (λ r, Result.correct r = true) (roundResults s)) ∧
  (contents (page (showResults s)) !! "results-details" =
     Some (Text "You got every question right!") ↔
   Forall (λ r, Result.correct r = true) (roundResults s)).
Proof.
  intros Hlen. rewrite showResults_title, showResults_details. cbn zeta.
  rewrite <- (filter_none (λ r, Result.correct r = true) (roundResults s)) at 2.
  rewrite <- (filter_all (λ r, Result.correct r = true) (roundResults s)), Hlen.
  fold (correctCount s). split.
  - case_decide as Hgood; [done|].
    split; [|done]. intros [= Htitle]. by repeat case_match.
  - case_decide as Hbad; [done|]. split; [done | by intros].
Qed.

Lemma showResults_perfect_witness :
  let s := set_roundResults (replicate 15
             {| Result.a := 7; Result.b := 6; Result.correct := true;
                Result.userAnswer := Some 42%Z; Result.expected := 42;
                Result.timeTaken := int 1 |}) example_game in
  length (roundResults s) = TOTAL_QUESTIONS ∧
  (contents (page (showResults s)) !! "results-title" =
     Some (Text "🌟 Perfect Round!") ↔
   Forall (λ r, Result.correct r = true) (roundResults s)) ∧
  (contents (page (showResults s)) !! "results-details" =
     Some (Text "You got every question right!") ↔
   Forall (λ r, Result.correct r = true) (roundResults s)).
Proof.
  intros s.
  assert (length (roundResults s) = TOTAL_QUESTIONS) as H by reflexivity.
  split; [exact H|]. exact (showResults_perfect s H).
Defined.

(** X18: with a clock that returns finite numbers, the time handed to
    [updateStats] is a number and not NaN, so that an answer submitted keeps
    the invariant of the stats table: every confidence in [0, 100], every
    count of attempts an integer of at least 1, and no record lost. *)
Theorem submitAnswer_keeps_invariant (now : number) (s : game)
    (q : Question.t) (t : StatsTable) :
  questions s !! currentIndex s = Some q → currentAnswer s ≠ "" →
  isShowingFeedback s = false → table_of (storage s) = Some t →
  good_table t → finite now = true → finite (questionStartTime s) = true →
  ∃ s' t',
    submitAnswer now s = Some s' ∧ table_of (storage s') = Some t' ∧
    good_table t' ∧
    dom t' = dom t ∪ {[statKey (Question.a q) (Question.b q)]}.
Proof.
  intros Hq Hne Hfb Ht Hgood Hnow Hstart.
  destruct (submitAnswer_spec now s q t Hq Hne Hfb Ht) as (s' & Hsub & _ & Ht' & _).
  destruct (elapsed_number now (questionStartTime s) Hnow Hstart) as [Hv Hnan].
  eexists s', _. split; [exact Hsub|]. split; [exact Ht'|]. split.
  - by apply update_step.
  - rewrite dom_fmap_L, dom_insert_L. apply (comm_L (∪)).
Qed.

Lemma submitAnswer_keeps_invariant_witness :
  let q := {| Question.a := 7; Question.b := 6; Question.answer := 42 |} in
  let s := example_game in
  questions s !! currentIndex s = Some q ∧ currentAnswer s ≠ "" ∧
  isShowingFeedback s = false ∧ table_of (storage s) = Some ∅ ∧
  good_table ∅ ∧ finite (dec 30005 10) = true ∧
  finite (questionStartTime s) = true ∧
  ∃ s' t',
    submitAnswer (dec 30005 10) s = Some s' ∧ table_of (storage s') = Some t' ∧
    good_table t' ∧
    dom t' = dom (∅ : StatsTable) ∪ {[statKey (Question.a q) (Question.b q)]}.
Proof.
  intros q s.
  assert (questions s !! currentIndex s = Some q) as H1 by reflexivity.
  assert (currentAnswer s ≠ "") as H2 by discriminate.
  assert (isShowingFeedback s = false) as H3 by reflexivity.
  assert (table_of (storage s) = Some ∅) as H4 by reflexivity.
  assert (good_table ∅) as H5 by apply map_Forall_empty.
  assert (finite (dec 30005 10) = true) as H6 by (vm_compute; reflexivity).
  assert (finite (questionStartTime s) = true) as H7 by (vm_compute; reflexivity).
  split; [exact H1|]. split; [exact H2|]. split; [exact H3|]. split; [exact H4|].
  split; [exact H5|]. split; [exact H6|]. split; [exact H7|].
  exact (submitAnswer_keeps_invariant (dec 30005 10) s q ∅ H1 H2 H3 H4 H5 H6 H7).
Defined.

(** * Rounding is monotone *)

Section Monotone.

#[local] Open Scope Z_scope.

Lemma F2Q_double N e : (F2Q (2 * N) e == 2 * F2Q N e)%Q.
Proof. unfold F2Q. rewrite inject_Z_mult. change (inject_Z 2) with 2%Q. ring. Qed.

Lemma F2Q_middle q e : (F2Q (2 * q + 1) e == F2Q q e + F2Q (q + 1) e)%Q.
Proof. rewrite <- F2Q_add. apply F2Q_eq. lia. Qed.

(** What [binary_round_aux] returns for the value [x], the quotient of
    [N * 2^e] by [D]: the neighbour of [x] below or above on the grid of the
    numbers, whichever is nearer, and the even one at the middle. *)
Lemma round_nearest s N D e (x : Q) :
  0 < D -> 0 <= N -> e <= fexp (Zdigits2 (N / D) + e) ->
  (inject_Z D * x == F2Q N e)%Q ->
  exists q q1 e',
    binary_round_aux prec emax s (N / D) e (loc_of (N mod D) D) = finish s q1 e' /\
    0 <= q < 2 ^ 53 /\ -1074 <= e' /\ (-1074 < e' -> 2 ^ 52 <= q) /\
    (F2Q q e' <= x < F2Q (q + 1) e')%Q /\
    ((q1 = q /\ (2 * x <= F2Q (2 * q + 1) e')%Q /\
        ((2 * x == F2Q (2 * q + 1) e')%Q -> Z.even q = true)) \/
     (q1 = q + 1 /\ (F2Q (2 * q + 1) e' <= 2 * x)%Q /\
        ((2 * x == F2Q (2 * q + 1) e')%Q -> Z.even q = false))).
Proof.
  intros HD HN He Hx.
  destruct (binary_round_aux_spec s N D e HD HN He) as (Hr & Hq & Hgap & He').
  set (e' := fexp (Zdigits2 (N / D) + e)) in *.
  set (D' := D * 2 ^ (e' - e)) in *.
  set (q := N / D') in *.
  set (rem := N mod D') in *.
  exists q, (round_nearest_even q (loc_of rem D')), e'.
  split; [exact Hr|]. split; [exact Hq|]. split; [exact He'|].
  split; [exact Hgap|].
  assert (0 < 2 ^ (e' - e)) as Hpow by (apply Z.pow_pos_nonneg; lia).
  assert (0 < D') as HD' by (unfold D'; nia).
  pose proof (Z.div_mod N D' ltac:(lia)) as Hdm. fold q in Hdm. fold rem in Hdm.
  pose proof (Z.mod_pos_bound N D' HD') as Hrem. fold rem in Hrem.
  assert (0 < inject_Z D)%Q as HDq
    by (change (inject_Z 0 < inject_Z D)%Q; by rewrite <- Zlt_Qlt).
  assert (forall k, (inject_Z D * F2Q k e' == F2Q (D' * k) e)%Q) as Hscale.
  { intros k. unfold D'.
    replace (D * 2 ^ (e' - e) * k) with (D * k * 2 ^ (e' - e)) by ring.
    rewrite F2Q_shift by lia. replace (e + (e' - e)) with e' by lia.
    unfold F2Q. rewrite inject_Z_mult. ring. }
  assert (inject_Z D * (2 * x) == F2Q (2 * N) e)%Q as Hx2.
  { rewrite F2Q_double, <- Hx. ring. }
  (* comparing with a grid point, and twice the value with the middle *)
  assert (forall k, (F2Q k e' <= x)%Q <-> D' * k <= N) as Hle.
  { intros k. rewrite <- (Qmult_le_l _ _ (inject_Z D)) by done.
    rewrite Hscale, Hx. symmetry. apply F2Q_le. }
  assert (forall k, (x < F2Q k e')%Q <-> N < D' * k) as Hlt.
  { intros k. rewrite <- (Qmult_lt_l _ _ (inject_Z D)) by done.
    rewrite Hscale, Hx. symmetry. apply F2Q_lt. }
  assert (forall k, (2 * x <= F2Q k e')%Q <-> 2 * N <= D' * k) as Hle2.
  { intros k. rewrite <- (Qmult_le_l _ _ (inject_Z D)) by done.
    rewrite Hscale, Hx2. symmetry. apply F2Q_le. }
  assert (forall k, (F2Q k e' <= 2 * x)%Q <-> D' * k <= 2 * N) as Hge2.
  { intros k. rewrite <- (Qmult_le_l _ _ (inject_Z D)) by done.
    rewrite Hscale, Hx2. symmetry. apply F2Q_le. }
  assert (forall k, (2 * x == F2Q k e')%Q <-> 2 * N = D' * k) as Heq2.
  { intros k. rewrite <- (Qmult_inj_l _ _ (inject_Z D)) by lra.
    rewrite Hscale, Hx2. symmetry. apply F2Q_eq. }
  split.
  { split; [apply Hle | apply Hlt]; nia. }
  unfold loc_of.
  destruct (Z.eqb_spec rem 0) as [Hz|Hnz]; cbn [round_nearest_even].
  { left. split; [done|]. rewrite Hle2, Heq2. split; [nia | intros; nia]. }
  destruct (Z.compare_spec (2 * rem) D') as [Hmid|Hlow|Hhigh];
    cbn [round_nearest_even].
  - destruct (Z.even q) eqn:Heven.
    + left. split; [done|]. rewrite Hle2. split; [nia | done].
    + right. split; [done|]. rewrite Hge2. split; [nia | done].
  - left. split; [done|]. rewrite Hle2, Heq2. split; [nia | intros; nia].
  - right. split; [done|]. rewrite Hge2, Heq2. split; [nia | intros; nia].
Qed.

Lemma grid_point_canonical q e' : grid_point q e' -> 0 < q -> canonical q e'.
Proof. intros (Hq & He & Hgap) Hpos. unfold canonical. lia. Qed.

(** The grid point above is the value of a canonical pair. *)
Lemma grid_upper_canonical q e' :
  grid_point q e' ->
  exists m eh, canonical m eh /\ (F2Q m eh == F2Q (q + 1) e')%Q.
Proof.
  intros (Hq & He & Hgap).
  destruct (Z.eq_dec (q + 1) (2 ^ 53)) as [Hc|Hc].
  - exists (2 ^ 52), (e' + 1). split; [unfold canonical; lia|].
    rewrite Hc, <- (F2Q_shift _ e' 1) by lia. reflexivity.
  - exists (q + 1), e'. split; [unfold canonical; lia | reflexivity].
Qed.

(** A canonical value below the upper end of a cell of the grid is at most
    its lower end. *)
Lemma grid_below m eh q e' :
  canonical m eh -> grid_point q e' ->
  (F2Q m eh < F2Q (q + 1) e')%Q -> (F2Q m eh <= F2Q q e')%Q.
Proof.
  intros Hcan (Hq & He & Hgap) Hlt. apply Qnot_lt_le. intros Hgt.
  pose proof (grid_gap m eh q e' Hcan ltac:(lia) He Hgap Hgt) as Hup.
  apply (Qlt_irrefl (F2Q m eh)). by eapply Qlt_le_trans.
Qed.

Lemma F2Q_nonneg q e : 0 <= q -> (0 <= F2Q q e)%Q.
Proof.
  intros Hq. rewrite <- (F2Q_0 e). by apply F2Q_le.
Qed.

(** Two cells of the grid that hold a common value are the same cell. *)
Lemma grid_cell_unique qa ea qb eb (x : Q) :
  grid_point qa ea -> grid_point qb eb ->
  (F2Q qa ea <= x < F2Q (qa + 1) ea)%Q -> (F2Q qb eb <= x < F2Q (qb + 1) eb)%Q ->
  qa = qb /\ ea = eb.
Proof.
  intros Ga Gb [Ha Ha'] [Hb Hb'].
  assert (forall q1 e1 q2 e2, grid_point q1 e1 -> grid_point q2 e2 ->
            (F2Q q1 e1 < F2Q (q2 + 1) e2)%Q -> (F2Q q1 e1 <= F2Q q2 e2)%Q) as Hbelow.
  { intros q1 e1 q2 e2 G1 G2 Hlt.
    destruct (Z.eq_dec q1 0) as [->|Hne].
    - rewrite F2Q_0. apply F2Q_nonneg. destruct G2; lia.
    - apply grid_below; [|done|done]. apply grid_point_canonical; [done|].
      destruct G1; lia. }
  assert (F2Q qa ea == F2Q qb eb)%Q as Heq.
  { apply Qle_antisym; apply Hbelow; try done.
    - by eapply Qle_lt_trans.
    - by eapply Qle_lt_trans. }
  destruct (Z.eq_dec qa 0) as [Hza|Hna].
  - subst qa. rewrite F2Q_0 in Heq.
    assert (qb = 0) as ->.
    { apply (F2Q_eq qb 0 eb). by rewrite F2Q_0, <- Heq. }
    destruct Ga as (_ & ? & Hga), Gb as (_ & ? & Hgb).
    split; [done|].
    destruct (Z.eq_dec ea (-1074)), (Z.eq_dec eb (-1074)); lia.
  - assert (qb <> 0) as Hnb.
    { intros ->. rewrite F2Q_0 in Heq. apply Hna.
      apply (F2Q_eq qa 0 ea). by rewrite F2Q_0. }
    apply canonical_unique; [| |done]; apply grid_point_canonical; try done.
    + destruct Ga; lia.
    + destruct Gb; lia.
Qed.

(** The order of two rounded values is the order of the numbers returned. *)
Lemma finish_le q1 e1 q2 e2 :
  0 <= q1 <= 2 ^ 53 -> -1074 <= e1 -> (-1074 < e1 -> 2 ^ 52 <= q1) ->
  0 <= q2 <= 2 ^ 53 -> -1074 <= e2 -> (-1074 < e2 -> 2 ^ 52 <= q2) ->
  (F2Q q1 e1 <= F2Q q2 e2)%Q ->
  SFleb (finish false q1 e1) (finish false q2 e2) = true.
Proof.
  intros Hq1 He1 Hg1 Hq2 He2 Hg2 Hle.
  destruct (finish_cases false q1 e1 Hq1 He1 Hg1)
    as [[Hz1 ->]|(Hp1 & m1 & f1 & Hc1 & Hv1 & Hf1)];
    destruct (finish_cases false q2 e2 Hq2 He2 Hg2)
    as [[Hz2 ->]|(Hp2 & m2 & f2 & Hc2 & Hv2 & Hf2)].
  - reflexivity.
  - by destruct Hf2 as [[_ ->]|[_ ->]].
  - exfalso. subst q2. rewrite F2Q_0 in Hle.
    pose proof (F2Q_pos q1 e1 Hp1). lra.
  - rewrite <- Hv1, <- Hv2 in Hle.
    destruct Hf1 as [[Hb1 ->]|[Ho1 ->]], Hf2 as [[Hb2 ->]|[Ho2 ->]].
    + by apply le_of_values.
    + reflexivity.
    + exfalso.
      pose proof (canonical_lt_exp _ _ _ _ Hc2 Hc1 ltac:(lia)) as Hlt. lra.
    + reflexivity.
Qed.

(** Rounding is monotone: of two values, the smaller is rounded to the
    smaller number, or to the same one. *)
Lemma round_mono N1 D1 e1 N2 D2 e2 (x1 x2 : Q) :
  0 < D1 -> 0 <= N1 -> e1 <= fexp (Zdigits2 (N1 / D1) + e1) ->
  0 < D2 -> 0 <= N2 -> e2 <= fexp (Zdigits2 (N2 / D2) + e2) ->
  (inject_Z D1 * x1 == F2Q N1 e1)%Q -> (inject_Z D2 * x2 == F2Q N2 e2)%Q ->
  (x1 <= x2)%Q ->
  SFleb (binary_round_aux prec emax false (N1 / D1) e1 (loc_of (N1 mod D1) D1))
        (binary_round_aux prec emax false (N2 / D2) e2 (loc_of (N2 mod D2) D2))
    = true.
Proof.
  intros HD1 HN1 He1 HD2 HN2 He2 Hx1 Hx2 Hle.
  destruct (round_nearest false N1 D1 e1 x1 HD1 HN1 He1 Hx1)
    as (qa & qa1 & ea & -> & Hqa & Hea & Hga & [Ha Ha'] & Hna).
  destruct (round_nearest false N2 D2 e2 x2 HD2 HN2 He2 Hx2)
    as (qb & qb1 & eb & -> & Hqb & Heb & Hgb & [Hb Hb'] & Hnb).
  assert (grid_point qa ea) as Ga by done.
  assert (grid_point qb eb) as Gb by done.
  assert (F2Q qb eb <= F2Q qb1 eb)%Q as Hb1.
  { apply F2Q_le. destruct Hnb as [[-> _]|[-> _]]; lia. }
  apply finish_le; try done.
  { destruct Hna as [[-> _]|[-> _]]; lia. }
  { destruct Hna as [[-> _]|[-> _]]; intros; specialize (Hga ltac:(done)); lia. }
  { destruct Hnb as [[-> _]|[-> _]]; lia. }
  { destruct Hnb as [[-> _]|[-> _]]; intros; specialize (Hgb ltac:(done)); lia. }
  destruct Hna as [(-> & _)|(-> & Hup & Htie)].
  - (* the smaller value is rounded down *)
    eapply Qle_trans; [|exact Hb1].
    destruct (Z.eq_dec qa 0) as [->|Hne].
    + rewrite F2Q_0. apply F2Q_nonneg. lia.
    + apply grid_below; [apply grid_point_canonical; [done | lia] | done |].
      eapply Qle_lt_trans; [|exact Hb']. by eapply Qle_trans.
  - (* the smaller value is rounded up *)
    destruct (Qlt_le_dec x2 (F2Q (qa + 1) ea)) as [Hin|Hout].
    + (* both values lie in the same cell *)
      destruct (grid_cell_unique qa ea qb eb x2 Ga Gb) as [-> ->];
        [split; [by eapply Qle_trans | done] | by split |].
      destruct Hnb as [(-> & Hdown & Htie')|(-> & _)]; [|apply Qle_refl].
      exfalso.
      assert (2 * x1 == F2Q (2 * qb + 1) eb)%Q as H1 by (apply Qle_antisym; lra).
      assert (2 * x2 == F2Q (2 * qb + 1) eb)%Q as H2 by (apply Qle_antisym; lra).
      rewrite (Htie H1) in Htie'. by specialize (Htie' H2).
    + destruct (grid_upper_canonical qa ea Ga) as (m & eh & Hcan & Hv).
      eapply Qle_trans; [|exact Hb1]. rewrite <- Hv.
      apply grid_below; [done | done |]. rewrite Hv.
      by eapply Qle_lt_trans.
Qed.

End Monotone.

(** * The operations are monotone *)

Section Operations.

#[local] Open Scope Z_scope.

Lemma zero_le_finish s q1 e' : SFleb (S754_zero s) (finish false q1 e') = true.
Proof. unfold finish. by repeat case_match. Qed.

Lemma zero_le_round_aux s N D e :
  0 < D -> 0 <= N -> e <= fexp (Zdigits2 (N / D) + e) ->
  SFleb (S754_zero s)
    (binary_round_aux prec emax false (N / D) e (loc_of (N mod D) D)) = true.
Proof.
  intros HD HN He.
  destruct (round_neighbours false N D e HD HN He) as (q & q1 & e' & -> & _).
  apply zero_le_finish.
Qed.

Lemma zero_le_round s (p : positive) e :
  SFleb (S754_zero s) (binary_round prec emax false p e) = true.
Proof.
  destruct (binary_round_exact false p e) as (N & e0 & -> & HN & He0 & _).
  apply zero_le_round_aux; [lia | lia | done].
Qed.

Lemma zero_le_within s b y h : within b y h -> SFleb (S754_zero s) y = true.
Proof. intros [_ Hy]. by destruct y as [| | |[] m e]. Qed.

Lemma le_values b1 b2 (m1 m2 : positive) e1 e2 h1 h2 :
  within b1 (S754_finite false m1 e1) h1 -> within b2 (S754_finite false m2 e2) h2 ->
  SFleb (S754_finite false m1 e1) (S754_finite false m2 e2) = true ->
  canonical (Zpos m1) e1 /\ canonical (Zpos m2) e2 /\
  (F2Q (Zpos m1) e1 <= F2Q (Zpos m2) e2)%Q.
Proof.
  intros [Hv1 _] [Hv2 _] Hle.
  apply valid_finite in Hv1 as [Hc1 _], Hv2 as [Hc2 _].
  split; [done|]. split; [done|]. by apply values_of_le.
Qed.

Lemma binary_round_mono (p1 p2 : positive) e1 e2 :
  (F2Q (Zpos p1) e1 <= F2Q (Zpos p2) e2)%Q ->
  SFleb (binary_round prec emax false p1 e1) (binary_round prec emax false p2 e2)
    = true.
Proof.
  intros Hle.
  destruct (binary_round_exact false p1 e1) as (N1 & f1 & -> & HN1 & Hf1 & Hv1).
  destruct (binary_round_exact false p2 e2) as (N2 & f2 & -> & HN2 & Hf2 & Hv2).
  apply (round_mono N1 1 f1 N2 1 f2 (F2Q N1 f1) (F2Q N2 f2));
    try done; try lia.
  - apply Qmult_1_l.
  - apply Qmult_1_l.
  - by rewrite Hv1, Hv2.
Qed.

(** The exponent of an exact product is below the one of its binade. *)
Lemma mul_exponent (mx my : positive) ex ey :
  canonical (Zpos mx) ex -> canonical (Zpos my) ey ->
  ex + ey <= fexp (Zdigits2 (Zpos (mx * my)) + (ex + ey)).
Proof.
  intros ([_ Hx53] & Hexlo & Hxn) ([_ Hy53] & Heylo & Hyn).
  rewrite fexp_spec.
  destruct (Z.eq_dec ex (-1074)) as [->|Hxne];
    [destruct (Z.eq_dec ey (-1074)) as [->|Hyne]; [lia|]|].
  - assert (2 ^ 52 <= Zpos (mx * my)) as Hprod.
    { specialize (Hyn ltac:(lia)). rewrite Pos2Z.inj_mul. nia. }
    pose proof (Zdigits2_lower _ 52 ltac:(lia) Hprod). lia.
  - assert (2 ^ 52 <= Zpos (mx * my)) as Hprod.
    { specialize (Hxn ltac:(lia)). rewrite Pos2Z.inj_mul. nia. }
    pose proof (Zdigits2_lower _ 52 ltac:(lia) Hprod). lia.
Qed.

(** [x * c] grows with [x], for a positive [c]. *)
Lemma mul_mono b1 b2 x1 x2 h1 h2 (mc : positive) ec :
  within b1 x1 h1 -> within b2 x2 h2 -> SFleb x1 x2 = true ->
  is_number (S754_finite false mc ec) = true ->
  SFleb (SFmul prec emax x1 (S754_finite false mc ec))
        (SFmul prec emax x2 (S754_finite false mc ec)) = true.
Proof.
  intros H1 H2 Hle Hvc. apply valid_finite in Hvc as [Hcc _].
  destruct x1 as [s1| | |[] m1 e1]; try (by destruct H1);
    destruct x2 as [s2| | |[] m2 e2]; try (by destruct H2); cbn [SFmul xorb].
  - pose proof (zero_le_round_aux (xorb s1 false) (Zpos (m2 * mc)) 1 (e2 + ec))
      as Hzero.
    rewrite Z.div_1_r, Z.mod_1_r in Hzero. apply Hzero; [lia | lia |].
    apply mul_exponent; [|done].
    destruct H2 as [Hv _]. by apply valid_finite in Hv as [? _].
  - destruct (le_values _ _ _ _ _ _ _ _ H1 H2 Hle) as (Hc1 & Hc2 & Hv).
    pose proof (round_mono (Zpos (m1 * mc)) 1 (e1 + ec) (Zpos (m2 * mc)) 1 (e2 + ec)
                  (F2Q (Zpos (m1 * mc)) (e1 + ec)) (F2Q (Zpos (m2 * mc)) (e2 + ec)))
      as Hmono.
    rewrite !Z.div_1_r, !Z.mod_1_r in Hmono. apply Hmono; try lia.
    + by apply mul_exponent.
    + by apply mul_exponent.
    + apply Qmult_1_l.
    + apply Qmult_1_l.
    + rewrite !Pos2Z.inj_mul, !F2Q_mul.
      apply Qmult_le_compat_r; [done|].
      apply Qlt_le_weak, F2Q_pos. lia.
Qed.

(** [x / c] grows with [x], for a positive [c]. *)
Lemma div_mono b1 b2 x1 x2 h1 h2 (mc : positive) ec :
  within b1 x1 h1 -> within b2 x2 h2 -> SFleb x1 x2 = true ->
  is_number (S754_finite false mc ec) = true ->
  SFleb (SFdiv prec emax x1 (S754_finite false mc ec))
        (SFdiv prec emax x2 (S754_finite false mc ec)) = true.
Proof.
  intros H1 H2 Hle Hvc. apply valid_finite in Hvc as [Hcc _].
  destruct x1 as [s1| | |[] m1 e1]; try (by destruct H1);
    destruct x2 as [s2| | |[] m2 e2]; try (by destruct H2); cbn [SFdiv xorb].
  - destruct H2 as [Hv _]. apply valid_finite in Hv as [Hc2 _].
    destruct (SFdiv_core_spec m2 mc e2 ec Hc2 Hcc) as (N & e' & -> & HN & He' & _).
    apply zero_le_round_aux; [lia | lia | done].
  - destruct (le_values _ _ _ _ _ _ _ _ H1 H2 Hle) as (Hc1 & Hc2 & Hv).
    destruct (SFdiv_core_spec m1 mc e1 ec Hc1 Hcc) as (N1 & f1 & -> & HN1 & Hf1 & Hv1).
    destruct (SFdiv_core_spec m2 mc e2 ec Hc2 Hcc) as (N2 & f2 & -> & HN2 & Hf2 & Hv2).
    assert (0 < inject_Z (Zpos mc))%Q as Hpos
      by (change (inject_Z 0 < inject_Z (Zpos mc))%Q; by rewrite <- Zlt_Qlt).
    apply (round_mono N1 (Zpos mc) f1 N2 (Zpos mc) f2
             (F2Q N1 f1 / inject_Z (Zpos mc)) (F2Q N2 f2 / inject_Z (Zpos mc)));
      try done; try lia.
    + apply Qmult_div_r. lra.
    + apply Qmult_div_r. lra.
    + apply Qmult_le_compat_r; [|apply Qlt_le_weak, Qinv_lt_0_compat; done].
      rewrite Hv1, Hv2. unfold F2Q, Z.sub. rewrite !Qpower_plus by done.
      rewrite !Qmult_assoc. apply Qmult_le_compat_r; [done|].
      apply Qlt_le_weak, Qpow2_pos.
Qed.

Lemma le_refl_pos (m : positive) e :
  canonical (Zpos m) e -> SFleb (S754_finite false m e) (S754_finite false m e) = true.
Proof. intros Hc. apply le_of_values; [done | done | apply Qle_refl]. Qed.

(** The value of a difference of aligned mantissas. *)
Lemma F2Q_aligned_sub (mx my : positive) ex ey :
  let ez := Z.min ex ey in
  (F2Q (Zpos (shl_align mx ex ez).1 - Zpos (shl_align my ey ez).1) ez ==
   F2Q (Zpos mx) ex - F2Q (Zpos my) ey)%Q.
Proof.
  intros ez. rewrite F2Q_sub. by rewrite !F2Q_aligned by (unfold ez; lia).
Qed.

Lemma F2Q_aligned_add (mx my : positive) ex ey :
  let ez := Z.min ex ey in
  (F2Q (Zpos ((shl_align mx ex ez).1 + (shl_align my ey ez).1)) ez ==
   F2Q (Zpos mx) ex + F2Q (Zpos my) ey)%Q.
Proof.
  intros ez. rewrite Pos2Z.inj_add, F2Q_add.
  by rewrite !F2Q_aligned by (unfold ez; lia).
Qed.

(** [x - c] grows with [x], from [c] on. *)
Lemma sub_const_mono (m1 m2 mc : positive) e1 e2 ec :
  (F2Q (Zpos mc) ec <= F2Q (Zpos m1) e1)%Q ->
  (F2Q (Zpos m1) e1 <= F2Q (Zpos m2) e2)%Q ->
  SFleb (SFsub prec emax (S754_finite false m1 e1) (S754_finite false mc ec))
        (SFsub prec emax (S754_finite false m2 e2) (S754_finite false mc ec))
    = true.
Proof.
  intros Hc Hle. cbn [SFsub cond_Zopp].
  pose proof (F2Q_aligned_sub m1 mc e1 ec) as Hv1.
  pose proof (F2Q_aligned_sub m2 mc e2 ec) as Hv2. cbn zeta in Hv1, Hv2.
  set (A := Zpos (shl_align m1 e1 (Z.min e1 ec)).1 -
            Zpos (shl_align mc ec (Z.min e1 ec)).1) in *.
  set (B := Zpos (shl_align m2 e2 (Z.min e2 ec)).1 -
            Zpos (shl_align mc ec (Z.min e2 ec)).1) in *.
  assert (0 <= A) as HA.
  { apply (F2Q_le 0 _ (Z.min e1 ec)). rewrite Hv1, F2Q_0. lra. }
  assert (0 <= B) as HB.
  { apply (F2Q_le 0 _ (Z.min e2 ec)). rewrite Hv2, F2Q_0. lra. }
  destruct A as [|pa|pa], B as [|pb|pb]; try lia; cbn [binary_normalize].
  - reflexivity.
  - apply zero_le_round.
  - exfalso. rewrite F2Q_0 in Hv2.
    pose proof (F2Q_pos (Zpos pa) (Z.min e1 ec) ltac:(lia)). lra.
  - apply binary_round_mono. rewrite Hv1, Hv2. lra.
Qed.

(** [c - x] falls as [x] grows, up to [c]. *)
Lemma const_sub_mono b1 b2 x1 x2 h1 h2 (mc : positive) ec :
  within b1 x1 h1 -> within b2 x2 h2 -> SFleb x1 x2 = true ->
  is_number (S754_finite false mc ec) = true ->
  (B2Q x2 <= F2Q (Zpos mc) ec)%Q ->
  SFleb (SFsub prec emax (S754_finite false mc ec) x2)
        (SFsub prec emax (S754_finite false mc ec) x1) = true.
Proof.
  intros H1 H2 Hle Hvc Hx2. pose proof Hvc as Hvc'.
  apply valid_finite in Hvc' as [Hcc Hec].
  destruct x1 as [s1| | |[] m1 e1]; try (by destruct H1);
    destruct x2 as [s2| | |[] m2 e2]; try (by destruct H2);
    cbn [SFsub cond_Zopp B2Q] in *.
  - by apply le_refl_pos.
  - pose proof (F2Q_aligned_sub mc m2 ec e2) as Hv. cbn zeta in Hv.
    set (A := Zpos (shl_align mc ec (Z.min ec e2)).1 -
              Zpos (shl_align m2 e2 (Z.min ec e2)).1) in *.
    assert (0 <= A) as HA.
    { apply (F2Q_le 0 _ (Z.min ec e2)). rewrite Hv, F2Q_0. lra. }
    destruct A as [|pa|pa]; try lia; cbn [binary_normalize]; [done|].
    apply (within_le false); [|done].
    apply binary_round_upper; [done | done |]. rewrite Hv.
    pose proof (F2Q_pos (Zpos m2) e2 ltac:(lia)). lra.
  - destruct (le_values _ _ _ _ _ _ _ _ H1 H2 Hle) as (Hc1 & Hc2 & Hv).
    pose proof (F2Q_aligned_sub mc m1 ec e1) as Hv1.
    pose proof (F2Q_aligned_sub mc m2 ec e2) as Hv2. cbn zeta in Hv1, Hv2.
    set (A := Zpos (shl_align mc ec (Z.min ec e1)).1 -
              Zpos (shl_align m1 e1 (Z.min ec e1)).1) in *.
    set (B := Zpos (shl_align mc ec (Z.min ec e2)).1 -
              Zpos (shl_align m2 e2 (Z.min ec e2)).1) in *.
    assert (0 <= A) as HA.
    { apply (F2Q_le 0 _ (Z.min ec e1)). rewrite Hv1, F2Q_0. lra. }
    assert (0 <= B) as HB.
    { apply (F2Q_le 0 _ (Z.min ec e2)). rewrite Hv2, F2Q_0. lra. }
    destruct A as [|pa|pa], B as [|pb|pb]; try lia; cbn [binary_normalize].
    + reflexivity.
    + exfalso. rewrite F2Q_0 in Hv1.
      pose proof (F2Q_pos (Zpos pb) (Z.min ec e2) ltac:(lia)). lra.
    + apply zero_le_round.
    + apply binary_round_mono. rewrite Hv1, Hv2. lra.
Qed.

(** [c + x] grows with [x]. *)
Lemma const_add_mono b1 b2 x1 x2 h1 h2 (mc : positive) ec :
  within b1 x1 h1 -> within b2 x2 h2 -> SFleb x1 x2 = true ->
  is_number (S754_finite false mc ec) = true ->
  SFleb (SFadd prec emax (S754_finite false mc ec) x1)
        (SFadd prec emax (S754_finite false mc ec) x2) = true.
Proof.
  intros H1 H2 Hle Hvc. pose proof Hvc as Hvc'.
  apply valid_finite in Hvc' as [Hcc Hec].
  destruct x1 as [s1| | |[] m1 e1]; try (by destruct H1);
    destruct x2 as [s2| | |[] m2 e2]; try (by destruct H2);
    cbn [SFadd cond_Zopp].
  - by apply le_refl_pos.
  - pose proof (F2Q_aligned_add mc m2 ec e2) as Hv. cbn zeta in Hv.
    set (pa := ((shl_align mc ec (Z.min ec e2)).1 +
                (shl_align m2 e2 (Z.min ec e2)).1)%positive) in *.
    change (Zpos (shl_align mc ec (Z.min ec e2)).1 +
            Zpos (shl_align m2 e2 (Z.min ec e2)).1) with (Zpos pa).
    cbn [binary_normalize].
    pose proof (binary_round_valid false pa (Z.min ec e2)) as [Hvr _].
    assert (F2Q (Zpos mc) ec <= F2Q (Zpos pa) (Z.min ec e2))%Q as Hprem.
    { rewrite Hv. pose proof (F2Q_pos (Zpos m2) e2 ltac:(lia)). lra. }
    pose proof (binary_round_lower pa (Z.min ec e2) (Zpos mc) ec Hcc Hprem) as Hlow.
    destruct (binary_round prec emax false pa (Z.min ec e2)) as [z|z| |z mr er];
      [done | by subst z | done |].
    destruct Hlow as [-> Hlow]. apply valid_finite in Hvr as [Hcr _].
    by apply le_of_values.
  - destruct (le_values _ _ _ _ _ _ _ _ H1 H2 Hle) as (Hc1 & Hc2 & Hv).
    pose proof (F2Q_aligned_add mc m1 ec e1) as Hv1.
    pose proof (F2Q_aligned_add mc m2 ec e2) as Hv2. cbn zeta in Hv1, Hv2.
    set (pa := ((shl_align mc ec (Z.min ec e1)).1 +
                (shl_align m1 e1 (Z.min ec e1)).1)%positive) in *.
    set (pb := ((shl_align mc ec (Z.min ec e2)).1 +
                (shl_align m2 e2 (Z.min ec e2)).1)%positive) in *.
    change (Zpos (shl_align mc ec (Z.min ec e1)).1 +
            Zpos (shl_align m1 e1 (Z.min ec e1)).1) with (Zpos pa).
    change (Zpos (shl_align mc ec (Z.min ec e2)).1 +
            Zpos (shl_align m2 e2 (Z.min ec e2)).1) with (Zpos pb).
    cbn [binary_normalize]. apply binary_round_mono. rewrite Hv1, Hv2. lra.
Qed.

End Operations.

(** * The score falls as the time grows *)

Section Slower.

#[local] Open Scope Z_scope.

Lemma computeScore_speedScore correct t :
  computeScore correct t =
    ((if correct then int 100 else int 0) * dec 7 10 + speedScore t * dec 3 10)%js.
Proof. reflexivity. Qed.

(** The steps of the interpolation, for a time strictly between 2 and 8. *)
Lemma interpolate_steps (m : positive) e :
  is_number (S754_finite false m e) = true ->
  (F2Q 4503599627370496 (-51) < F2Q (Zpos m) e)%Q ->
  (F2Q (Zpos m) e < F2Q 4503599627370496 (-49))%Q ->
  let t := S754_finite false m e in
  within false (t - int 2)%js (F2Q 6755399441055744 (-50)) /\
  within false ((t - int 2) / int 6)%js (F2Q 4503599627370496 (-52)) /\
  within false (((t - int 2) / int 6) * int 100)%js Q100.
Proof.
  intros Hv Hlo Hhi t. unfold t.
  assert (F2Q 4503599627370496 (-51) == 2)%Q as V2 by literal.
  assert (F2Q 4503599627370496 (-49) == 8)%Q as V8 by literal.
  assert (F2Q 6755399441055744 (-50) == 6)%Q as V6 by literal.
  assert (Q100 == 100)%Q as V100 by literal.
  assert (within false (S754_finite false m e - int 2)%js
            (F2Q 6755399441055744 (-50))) as H1.
  { apply (sub_within false m e (int 2) (F2Q 4503599627370496 (-51)));
      [side | side | | side | side |];
      change (B2Q (int 2)) with (F2Q 4503599627370496 (-51)); lra. }
  assert (within false ((S754_finite false m e - int 2) / int 6)%js
            (F2Q 4503599627370496 (-52))) as H2.
  { apply (div_within false _ 6755399441055744 (-50) (F2Q 6755399441055744 (-50)));
      side. }
  split; [done|]. split; [done|].
  apply (mul_within false false _ _ (F2Q 4503599627370496 (-52)) Q100); side.
Qed.

(** Between 2 and 8 seconds, a longer time gives a lower speed score, or the
    same one. *)
Lemma interpolate_mono (m1 m2 : positive) e1 e2 :
  is_number (S754_finite false m1 e1) = true ->
  is_number (S754_finite false m2 e2) = true ->
  (F2Q 4503599627370496 (-51) < F2Q (Zpos m1) e1)%Q ->
  (F2Q (Zpos m1) e1 <= F2Q (Zpos m2) e2)%Q ->
  (F2Q (Zpos m2) e2 < F2Q 4503599627370496 (-49))%Q ->
  SFleb (int 100 - ((S754_finite false m2 e2 - int 2) / int 6) * int 100)%js
        (int 100 - ((S754_finite false m1 e1 - int 2) / int 6) * int 100)%js
    = true.
Proof.
  intros Hv1 Hv2 Hlo Hle Hhi.
  destruct (interpolate_steps m1 e1 Hv1 Hlo ltac:(by eapply Qle_lt_trans))
    as (Ha1 & Hb1 & Hc1).
  destruct (interpolate_steps m2 e2 Hv2 ltac:(by eapply Qlt_le_trans) Hhi)
    as (Ha2 & Hb2 & Hc2).
  assert (int 2 = S754_finite false 4503599627370496 (-51)) as I2 by reflexivity.
  assert (int 6 = S754_finite false 6755399441055744 (-50)) as I6
    by (vm_compute; reflexivity).
  assert (int 100 = S754_finite false 7036874417766400 (-46)) as I100
    by (vm_compute; reflexivity).
  rewrite I2, I6, I100 in *. unfold sub, mul, div in *.
  assert (SFleb (SFsub prec emax (S754_finite false m1 e1)
                   (S754_finite false 4503599627370496 (-51)))
                (SFsub prec emax (S754_finite false m2 e2)
                   (S754_finite false 4503599627370496 (-51))) = true) as Hsub.
  { apply sub_const_mono; [by apply Qlt_le_weak | done]. }
  set (a1 := SFsub _ _ (S754_finite false m1 e1) _) in *.
  set (a2 := SFsub _ _ (S754_finite false m2 e2) _) in *.
  clearbody a1 a2.
  pose proof (div_mono _ _ a1 a2 _ _ 6755399441055744 (-50) Ha1 Ha2 Hsub
                ltac:(vm_compute; reflexivity)) as Hdiv.
  set (b1 := SFdiv _ _ a1 _) in *. set (b2 := SFdiv _ _ a2 _) in *.
  clearbody b1 b2.
  pose proof (mul_mono _ _ b1 b2 _ _ 7036874417766400 (-46) Hb1 Hb2 Hdiv
                ltac:(vm_compute; reflexivity)) as Hmul.
  set (c1 := SFmul _ _ b1 _) in *. set (c2 := SFmul _ _ b2 _) in *.
  clearbody c1 c2.
  assert (is_number (S754_finite false 7036874417766400 (-46)) = true) as Hv100
    by (vm_compute; reflexivity).
  assert (0 <= Q100)%Q as H100 by (vm_compute; discriminate).
  apply (const_sub_mono false false c1 c2 Q100 Q100 _ _ Hc1 Hc2 Hmul Hv100).
  apply (within_B2Q false c2 Q100 Hc2 H100).
Qed.

(** The speed score is a number of [0, 100] that is no negative zero. *)
Lemma speedScore_within t :
  is_number t = true -> is_nan t = false -> within false (speedScore t) Q100.
Proof.
  intros Hv Hnan. unfold speedScore.
  destruct (t <=? int 2)%js eqn:Hle; [closed_within|].
  destruct (t >=? int 8)%js eqn:Hge; [closed_within|].
  destruct (strictly_between t 4503599627370496 4503599627370496 (-51) (-49))
    as (m & e & -> & Hlo & Hhi); [side | side | side | by destruct t | side | side |].
  by apply interpolate_within.
Qed.

(** Two times in order, the first above 2 and the second below 8, are
    positive finite numbers whose values are in that order. *)
Lemma between_shapes t1 t2 :
  is_number t1 = true -> is_number t2 = true ->
  (t1 <=? t2)%js = true -> (t1 <=? int 2)%js = false -> (t2 >=? int 8)%js = false ->
  exists (m1 m2 : positive) e1 e2,
    t1 = S754_finite false m1 e1 /\ t2 = S754_finite false m2 e2 /\
    (F2Q 4503599627370496 (-51) < F2Q (Zpos m1) e1)%Q /\
    (F2Q (Zpos m1) e1 <= F2Q (Zpos m2) e2)%Q /\
    (F2Q (Zpos m2) e2 < F2Q 4503599627370496 (-49))%Q.
Proof.
  intros Hv1 Hv2 Hle H2 H8. unfold le, ge in *. rewrite int_2 in H2. rewrite int_8 in H8.
  destruct t1 as [s1|[]| |[] m1 e1]; try discriminate H2; try discriminate Hle;
    destruct t2 as [s2|[]| |[] m2 e2]; try discriminate H8; try discriminate Hle.
  apply valid_finite in Hv1 as [Hc1 _], Hv2 as [Hc2 _].
  assert (canonical 4503599627370496 (-51)) as C2 by (unfold canonical; lia).
  assert (canonical 4503599627370496 (-49)) as C8 by (unfold canonical; lia).
  exists m1, m2, e1, e2. split; [done|]. split; [done|].
  unfold SFleb in H2, H8. rewrite SFcompare_pos in H2, H8 by done.
  split; [|split].
  - apply Qgt_alt. by destruct (F2Q (Zpos m1) e1 ?= F2Q 4503599627370496 (-51))%Q.
  - by apply values_of_le.
  - apply Qgt_alt. by destruct (F2Q 4503599627370496 (-49) ?= F2Q (Zpos m2) e2)%Q.
Qed.

Lemma above_not_le (m lo : positive) e elo :
  canonical (Zpos m) e -> canonical (Zpos lo) elo ->
  (F2Q (Zpos lo) elo < F2Q (Zpos m) e)%Q ->
  SFleb (S754_finite false m e) (S754_finite false lo elo) = false.
Proof.
  intros Hc Hclo Hlt. unfold SFleb. rewrite SFcompare_pos by done.
  assert ((F2Q (Zpos m) e ?= F2Q (Zpos lo) elo)%Q = Gt) as -> by (by apply Qgt_alt).
  done.
Qed.

(** A longer time gives a lower speed score, or the same one. *)
Lemma speedScore_mono t1 t2 :
  is_number t1 = true -> is_nan t1 = false ->
  is_number t2 = true -> is_nan t2 = false ->
  (t1 <=? t2)%js = true ->
  SFleb (speedScore t2) (speedScore t1) = true.
Proof.
  intros Hv1 Hn1 Hv2 Hn2 Hle.
  pose proof (speedScore_within t1 Hv1 Hn1) as Hs1.
  pose proof (speedScore_within t2 Hv2 Hn2) as Hs2.
  destruct (t2 >=? int 8)%js eqn:H8.
  { unfold speedScore at 1. rewrite (ge_8_not_le_2 t2 H8), H8.
    by apply (zero_le_within false false _ Q100). }
  destruct (t1 <=? int 2)%js eqn:H2.
  { unfold speedScore at 2. rewrite H2.
    assert (int 100 = S754_finite false 7036874417766400 (-46)) as ->
      by (vm_compute; reflexivity).
    apply (within_le false); [done|]. unfold canonical. lia. }
  destruct (between_shapes t1 t2 Hv1 Hv2 Hle H2 H8)
    as (m1 & m2 & e1 & e2 & -> & -> & Hlo & Hmid & Hhi).
  pose proof Hv1 as Hc1. pose proof Hv2 as Hc2.
  apply valid_finite in Hc1 as [Hc1 _], Hc2 as [Hc2 _].
  assert (canonical 4503599627370496 (-51)) as C2 by (unfold canonical; lia).
  assert (canonical 4503599627370496 (-49)) as C8 by (unfold canonical; lia).
  unfold speedScore, le, ge. rewrite int_2, int_8.
  rewrite (above_not_le m1 _ e1 _ Hc1 C2 Hlo).
  rewrite (above_not_le m2 _ e2 _ Hc2 C2 ltac:(by eapply Qlt_le_trans)).
  rewrite (above_not_le _ m1 _ e1 C8 Hc1 ltac:(by eapply Qle_lt_trans)).
  rewrite (above_not_le _ m2 _ e2 C8 Hc2 Hhi).
  rewrite <- int_2. by apply interpolate_mono.
Qed.

End Slower.

(** X19: for the same outcome, an answer that took longer never scores more:
    when the time [t1] is at most the time [t2], the score at [t2] is at most
    the score at [t1]. *)
Theorem computeScore_slower_not_better (correct : bool) (t1 t2 : number) :
  is_number t1 = true -> is_number t2 = true ->
  (t1 <=? t2)%js = true ->
  (computeScore correct t2 <=? computeScore correct t1)%js = true.
Proof.
  intros Hv1 Hv2 Hle.
  assert (is_nan t1 = false) as Hn1 by (by destruct t1).
  assert (is_nan t2 = false) as Hn2 by (by destruct t1, t2).
  pose proof (speedScore_within t1 Hv1 Hn1) as Hs1.
  pose proof (speedScore_within t2 Hv2 Hn2) as Hs2.
  pose proof (speedScore_mono t1 t2 Hv1 Hn1 Hv2 Hn2 Hle) as Hmono.
  rewrite !computeScore_speedScore.
  set (s1 := speedScore t1) in *. set (s2 := speedScore t2) in *. clearbody s1 s2.
  assert (dec 3 10 = S754_finite false 5404319552844595 (-54)) as D3
    by (vm_compute; reflexivity).
  assert (is_number (S754_finite false 5404319552844595 (-54)) = true) as V3
    by (vm_compute; reflexivity).
  assert (forall s, within false s Q100 ->
            within false (SFmul prec emax s (S754_finite false 5404319552844595 (-54)))
              (F2Q 8444249301319680 (-48))) as Hw.
  { intros s Hs.
    apply (mul_within false false _ _ Q100 (F2Q 5404319552844595 (-54))); side. }
  pose proof (mul_mono _ _ s2 s1 _ _ 5404319552844595 (-54) Hs2 Hs1 Hmono V3) as Hmul.
  pose proof (Hw s1 Hs1) as Hy1. pose proof (Hw s2 Hs2) as Hy2.
  unfold le, add, mul. rewrite D3.
  set (y1 := SFmul _ _ s1 _) in *. set (y2 := SFmul _ _ s2 _) in *. clearbody y1 y2.
  destruct correct.
  - assert (SFmul prec emax (int 100) (dec 7 10) =
            S754_finite false 4925812092436480 (-46)) as -> by (vm_compute; reflexivity).
    apply (const_add_mono false false y2 y1 _ _ _ _ Hy2 Hy1 Hmul).
    vm_compute; reflexivity.
  - assert (SFmul prec emax (int 0) (dec 7 10) = S754_zero false) as ->
      by (vm_compute; reflexivity).
    rewrite !SFadd_zero_l; [done | |].
    + intros ->. destruct Hy1 as [_ Hy1]. discriminate Hy1.
    + intros ->. destruct Hy2 as [_ Hy2]. discriminate Hy2.
Qed.

Lemma computeScore_slower_not_better_witness :
  is_number (dec 25 10) = true /\ is_number (dec 475 100) = true /\
  (dec 25 10 <=? dec 475 100)%js = true /\
  (computeScore true (dec 475 100) <=? computeScore true (dec 25 10))%js = true.
Proof.
  assert (is_number (dec 25 10) = true) as H1 by (vm_compute; reflexivity).
  assert (is_number (dec 475 100) = true) as H2 by (vm_compute; reflexivity).
  assert ((dec 25 10 <=? dec 475 100)%js = true) as H3 by (vm_compute; reflexivity).
  split; [exact H1|]. split; [exact H2|]. split; [exact H3|].
  exact (computeScore_slower_not_better true (dec 25 10) (dec 475 100) H1 H2 H3).
Defined.
